(** * An adaptive beam-search refinement workflow (my_agent), embedded in Rocq

    The Python program drives a LangGraph state graph: answers to a question
    are generated, commented and scored, the best ones are kept and
    replicated by [beam_search_agent], every thread is revised in turn, and a
    router decides after each revision whether to go on, to ask the
    convergence check, or to write the final summary.

    Python objects that the program mutates in place (the thread dicts, their
    [content] lists and the response dicts inside them) live in an explicit
    store and are named by references, so that aliasing and [copy.deepcopy]
    are visible.  Integers are [Z] with Python's floor division and negative
    indexing; a score is a float: the exact rational value of a finite float,
    an infinity, or nan, with the comparisons [list.sort] makes on them.
    A raised exception is a value of [result]. *)

From Stdlib Require Import ZArith QArith Lia Lqa.
From stdpp Require Import base option list strings sorting.

Open Scope Z_scope.

(** ** Exceptions and the error monad *)

Inductive PyError : Type :=
  | KeyError
  | IndexError
  | ValueError
  | ZeroDivisionError
  | Dangling.  (* a reference outside the store: no Python state has one *)

Inductive result (A : Type) : Type :=
  | Ok (a : A)
  | Raise (e : PyError).
Arguments Ok {A} a.
Arguments Raise {A} e.

#[global] Instance result_ret : MRet result := @Ok.
#[global] Instance result_bind : MBind result := fun A B f m =>
  match m with Ok a => f a | Raise e => Raise e end.
#[global] Instance result_fmap : FMap result := fun A B f m =>
  match m with Ok a => Ok (f a) | Raise e => Raise e end.

Definition or_raise {A} (e : PyError) (o : option A) : result A :=
  match o with Some a => Ok a | None => Raise e end.

(** [state["k"]]: the key is read from the state dict. *)
Definition key {A} (o : option A) : result A := or_raise KeyError o.

(** ** Python lists and integers *)

Module Py.

(** [l[i]], negative indices counting from the end. *)
Definition index {A} (l : list A) (i : Z) : result A :=
  let n := Z.of_nat (length l) in
  if bool_decide (0 <= i < n) then or_raise IndexError (l !! Z.to_nat i)
  else if bool_decide (- n <= i < 0) then or_raise IndexError (l !! Z.to_nat (n + i))
  else Raise IndexError.

(** The bound of a slice, clamped the way [PySlice_AdjustIndices] does. *)
Definition bound {A} (l : list A) (b : Z) : nat :=
  let n := Z.of_nat (length l) in
  Z.to_nat (if bool_decide (b < 0) then Z.max 0 (n + b) else Z.min b n).

(** [l[:b]] and [l[b:]]. *)
Definition slice_to {A} (l : list A) (b : Z) : list A := take (bound l b) l.
Definition slice_from {A} (l : list A) (b : Z) : list A := drop (bound l b) l.

(** [range(n)]: empty for [n <= 0]. *)
Definition range (n : Z) : list Z := Z.of_nat <$> seq 0 (Z.to_nat n).

(** [a // b] and [a % b]: floor division, the sign of the divisor. *)
Definition floordiv (a b : Z) : result Z :=
  if bool_decide (b = 0) then Raise ZeroDivisionError else Ok (a `div` b).
Definition mod_ (a b : Z) : result Z :=
  if bool_decide (b = 0) then Raise ZeroDivisionError else Ok (a `mod` b).

End Py.

(** The newline character, ["\n"] in the source. *)
Definition nl : string := String (Ascii.ascii_of_nat 10) EmptyString.

(** ** Scores

    What [float(reply)] returns: a finite float (as its exact rational
    value), an infinity, or nan. *)

Inductive PyFloat : Type :=
  | Finite (q : Q)
  | PosInf
  | NegInf
  | NaN.

Definition Qltb (x y : Q) : bool := negb (Qle_bool y x).

(** Python's [<] and [==] on floats: false whenever a nan is compared. *)
Definition float_lt (x y : PyFloat) : bool :=
  match x, y with
  | NaN, _ | _, NaN => false
  | NegInf, NegInf => false
  | NegInf, _ => true
  | _, NegInf => false
  | PosInf, _ => false
  | _, PosInf => true
  | Finite p, Finite q => Qltb p q
  end.

Definition float_eq (x y : PyFloat) : bool :=
  match x, y with
  | Finite p, Finite q => Qeq_bool p q
  | PosInf, PosInf | NegInf, NegInf => true
  | _, _ => false
  end.

(** [x <= y] *)
Definition float_le (x y : PyFloat) : bool := float_lt x y || float_eq x y.

Definition is_nan (x : PyFloat) : bool :=
  match x with NaN => true | _ => false end.

(** ** [list.sort]

    [responses.sort(key=..., reverse=True)] computes the key of every element
    first and compares keys with [<] only.  [sort_desc] is the order the
    documentation promises, the stable descending one: an element moves in
    front of another one only when its key is strictly greater.
    [list_sort_reverse] is what CPython 3.11 (listobject.c) does on a list of
    fewer than 64 elements: the list is reversed, the run at its head is
    found ([count_run]) and turned round when it is strictly descending, the
    other elements are put in place by binary insertion ([binarysort]), and
    the list is reversed again.  When no key is nan both give the same list
    ([list_sort_reverse_stable]), as does the real sort on a list of any
    length, the stable order being unique ([sort_desc_unique]).  With a nan
    key the comparisons are not an order and [list_sort_reverse] gives the
    list CPython leaves; on 64 elements or more the real sort merges several
    runs, and its result with a nan key is not modelled. *)

Section Sort.
Context {A : Type} (score_of : A → PyFloat).

Definition key_lt (x y : A) : bool := float_lt (score_of x) (score_of y).

Fixpoint insert_desc (x : A) (l : list A) : list A :=
  match l with
  | [] => [x]
  | y :: l' =>
      if key_lt x y then y :: insert_desc x l' else x :: l
  end.

Definition sort_desc (l : list A) : list A := foldr insert_desc [] l.

(** The elements whose key equals [q], in their order in the list. *)
Definition with_score (q : PyFloat) (l : list A) : list A :=
  filter (λ x, float_eq (score_of x) q = true) l.

(** Descending by key. *)
Definition descending (l : list A) : Prop :=
  StronglySorted (λ x y, float_le (score_of y) (score_of x) = true) l.

(** No key is nan. *)
Definition comparable (l : list A) : Prop :=
  Forall (λ x, is_nan (score_of x) = false) l.

(** Ascending by key: no element is less than an earlier one. *)
Definition ascending (l : list A) : Prop :=
  StronglySorted (λ x y, key_lt y x = false) l.

(** [count_run]: how many more elements continue the run after [prev]. *)
Fixpoint run_length (desc : bool) (prev : A) (l : list A) : nat :=
  match l with
  | [] => 0
  | x :: l' =>
      if Bool.eqb (key_lt x prev) desc then S (run_length desc x l') else 0
  end.

Definition count_run (l : list A) : nat * bool :=
  match l with
  | [] => (0%nat, false)
  | [_] => (1%nat, false)
  | x0 :: x1 :: l' =>
      let desc := key_lt x1 x0 in (S (S (run_length desc x1 l')), desc)
  end.

(** The binary search of [binarysort] in [a[l:r]], its loop run at most
    [fuel] times. *)
Fixpoint bisect (fuel : nat) (pivot : A) (a : list A) (l r : nat) : nat :=
  match fuel with
  | O => l
  | S fuel' =>
      let p := (l + (r - l) / 2)%nat in
      match a !! p with
      | None => l
      | Some y =>
          let '(l', r') := if key_lt pivot y then (l, p) else (S p, r) in
          if (l' <? r')%nat then bisect fuel' pivot a l' r' else l'
      end
  end.

Fixpoint binarysort (sorted rest : list A) : list A :=
  match rest with
  | [] => sorted
  | pivot :: rest' =>
      let l := bisect (length sorted) pivot sorted 0 (length sorted) in
      binarysort (take l sorted ++ pivot :: drop l sorted) rest'
  end.

Definition list_sort (l : list A) : list A :=
  let '(n, desc) := count_run l in
  let run := take n l in
  binarysort (if desc then reverse run else run) (drop n l).

Definition list_sort_reverse (l : list A) : list A :=
  reverse (list_sort (reverse l)).
End Sort.

(** ** The store of mutable objects *)

Abbreviation ref := nat (only parsing).

(** A response dict: [{"text": ...}] as [join_graph] builds it, with
    ["comments"] and ["score"] added later by the commenter and the scorer. *)
Record AgentResponse : Type := mkResponse {
  text : string;
  comments : option string;
  score : option PyFloat;
}.

(** A thread dict [{"agent_name": ..., "content": [...]}]: the content is a
    list object of its own, named by a reference. *)
Record ThreadObj : Type := mkThread {
  agent_name : string;
  content : ref;
}.

(** Three kinds of objects, each with its own references: response dicts,
    content lists (of references to response dicts) and thread dicts.
    Objects are never freed; a new object takes the next reference. *)
Record Store : Type := mkStore {
  dicts : list AgentResponse;
  lists : list (list ref);
  thread_objs : list ThreadObj;
}.

Definition deref {A} (cells : list A) (r : ref) : result A :=
  or_raise Dangling (cells !! r).

Definition new_dict (s : Store) (d : AgentResponse) : Store * ref :=
  (mkStore (dicts s ++ [d]) (lists s) (thread_objs s), length (dicts s)).
Definition new_list (s : Store) (l : list ref) : Store * ref :=
  (mkStore (dicts s) (lists s ++ [l]) (thread_objs s), length (lists s)).
Definition new_thread (s : Store) (t : ThreadObj) : Store * ref :=
  (mkStore (dicts s) (lists s) (thread_objs s ++ [t]), length (thread_objs s)).

(** [d[k] = v] on a response dict, and [l.append(x)] on a content list. *)
Definition set_dict (s : Store) (r : ref) (d : AgentResponse) : Store :=
  mkStore (<[r := d]> (dicts s)) (lists s) (thread_objs s).
Definition list_append (s : Store) (r : ref) (x : ref) : result Store :=
  l ← deref (lists s) r;
  Ok (mkStore (dicts s) (<[r := l ++ [x]]> (lists s)) (thread_objs s)).

(** *** Reading a thread through the store *)

(** [response["content"]] as a list of references. *)
Definition content_refs (s : Store) (t : ref) : result (list ref) :=
  th ← deref (thread_objs s) t;
  deref (lists s) (content th).

(** [len(response["content"])]. *)
Definition history_len (s : Store) (t : ref) : result Z :=
  l ← content_refs s t; Ok (Z.of_nat (length l)).

(** The history of a thread as values: what [str(response["content"])] shows. *)
Definition history (s : Store) (t : ref) : result (list AgentResponse) :=
  l ← content_refs s t; mapM (deref (dicts s)) l.

(** The whole thread as a value. *)
Definition thread_value (s : Store) (t : ref) : result (string * list AgentResponse) :=
  th ← deref (thread_objs s) t;
  h ← history s t;
  Ok (agent_name th, h).

(** [x["content"][-1]["score"]], the sort key of [beam_search_agent]. *)
Definition latest_score (s : Store) (t : ref) : result PyFloat :=
  l ← content_refs s t;
  d ← Py.index l (-1);
  r ← deref (dicts s) d;
  key (score r).

(** ** [copy.deepcopy] of a thread

    Strings and floats are immutable and shared; every dict and list reached
    from the thread is rebuilt.  The memo keeps sharing inside one call: a
    response dict that occurs twice in the content is copied once.  The
    objects of the thread are read first and the copies allocated afterwards
    (allocation does not change what is read, so the order is immaterial). *)

Fixpoint memo_get (memo : list (ref * ref)) (d : ref) : option ref :=
  match memo with
  | [] => None
  | (k, v) :: memo' => if bool_decide (k = d) then Some v else memo_get memo' d
  end.

(** Copies the response dicts [ds], each given with the value read from it. *)
Fixpoint deepcopy_items (s : Store) (memo : list (ref * ref))
    (ds : list (ref * AgentResponse)) : Store * list ref :=
  match ds with
  | [] => (s, [])
  | (d, r) :: ds' =>
      match memo_get memo d with
      | Some d' =>
          let '(s', out) := deepcopy_items s memo ds' in (s', d' :: out)
      | None =>
          let '(s1, d') := new_dict s r in
          let '(s', out) := deepcopy_items s1 ((d, d') :: memo) ds' in
          (s', d' :: out)
      end
  end.

Definition deepcopy (s : Store) (t : ref) : result (Store * ref) :=
  th ← deref (thread_objs s) t;
  l ← deref (lists s) (content th);
  rs ← mapM (deref (dicts s)) l;
  let '(s1, l') := deepcopy_items s [] (zip l rs) in
  let '(s2, c') := new_list s1 l' in
  Ok (new_thread s2 (mkThread (agent_name th) c')).

(** ** The graph state

    [GraphState] is a dict with optional keys; a node returns a dict with the
    keys it updates, and the engine overwrites those keys in the state.
    References in [responses] and [discarded_responses] name thread dicts,
    the one in [agent_response] names a response dict. *)

Record GraphState : Type := mkState {
  question : option string;
  initial_response_agent : option string;
  responses : option (list ref);
  threads : option Z;
  start : option Z;
  agent_response : option ref;
  difficulty : option Z;
  beams : option Z;
  revisions : option Z;
  index : option Z;
  discarded_responses : option (list ref);
  done : option bool;
  final_response : option string;
}.

(** The dict with no key. *)
Definition no_keys : GraphState :=
  mkState None None None None None None None None None None None None None.

Definition overwrite {A} (new old : option A) : option A :=
  match new with Some v => Some v | None => old end.

(** Modelled from the spec: the state schema [my_agent/state.py] is not among
    the sources; the engine merges a node's update into the state by key,
    overwriting (no key accumulates). *)
Definition merge (st upd : GraphState) : GraphState := {|
  question := overwrite (question upd) (question st);
  initial_response_agent :=
    overwrite (initial_response_agent upd) (initial_response_agent st);
  responses := overwrite (responses upd) (responses st);
  threads := overwrite (threads upd) (threads st);
  start := overwrite (start upd) (start st);
  agent_response := overwrite (agent_response upd) (agent_response st);
  difficulty := overwrite (difficulty upd) (difficulty st);
  beams := overwrite (beams upd) (beams st);
  revisions := overwrite (revisions upd) (revisions st);
  index := overwrite (index upd) (index st);
  discarded_responses :=
    overwrite (discarded_responses upd) (discarded_responses st);
  done := overwrite (done upd) (done st);
  final_response := overwrite (final_response upd) (final_response st);
|}.

(** ** [beam_search_agent] *)

(** A [for] loop whose body may allocate and appends to [final_responses]. *)
Fixpoint for_each {X} (body : Store → X → result (Store * list ref))
    (s : Store) (xs : list X) : result (Store * list ref) :=
  match xs with
  | [] => Ok (s, [])
  | x :: xs' =>
      '(s1, out) ← body s x;
      '(s2, outs) ← for_each body s1 xs';
      Ok (s2, out ++ outs)
  end.

(** [final_responses.append(copy.deepcopy(response))] *)
Definition append_copy (s : Store) (response : ref) : result (Store * list ref) :=
  '(s', c) ← deepcopy s response; Ok (s', [c]).

(** The keys of the sort, computed for every element before any is moved. *)
Definition sort_keys (s : Store) (rs : list ref) : result (list (PyFloat * ref)) :=
  mapM (λ x, k ← latest_score s x; Ok (k, x)) rs.

(** [responses.sort(key=lambda x: x["content"][-1]["score"], reverse=True)] *)
Definition sorted_responses (s : Store) (rs : list ref) : result (list ref) :=
  ks ← sort_keys s rs; Ok ((list_sort_reverse fst ks).*2).

Definition beam_search_agent (s : Store) (state : GraphState)
    : result (Store * GraphState) :=
  rs ← key (responses state);
  rs ← sorted_responses s rs;
  beams ← key (beams state);
  threads ← key (threads state);
  let best_responses := Py.slice_to rs beams in
  let bad_responses := Py.slice_from rs beams in
  '(s1, final1) ←
    for_each (λ s response,
        n ← Py.floordiv threads beams;
        for_each (λ s _, append_copy s response) s (Py.range n))
      s best_responses;
  m ← Py.mod_ threads beams;
  '(s2, final2) ←
    for_each (λ s i, response ← Py.index best_responses i; append_copy s response)
      s1 (Py.range m);
  Ok (s2, {| question := None; initial_response_agent := None;
             responses := Some (final1 ++ final2);
             threads := None; start := None; agent_response := None;
             difficulty := None; beams := None; revisions := None;
             index := Some 0;
             discarded_responses := Some bad_responses;
             done := None; final_response := None |}).

(** The node as the engine runs it: the update is merged into the state. *)
Definition run_beam_search (s : Store) (state : GraphState)
    : result (Store * GraphState) :=
  '(s', upd) ← beam_search_agent s state; Ok (s', merge state upd).

(** *** Scenario of the specification: five threads scored 9, 8, 7, 6, 5 *)

Module ScenarioB.
Definition scored (name : string) (q : Q) : AgentResponse :=
  mkResponse name (Some "ok") (Some (Finite q)).

(** Threads A..E are thread dicts 0..4, each with one scored response. *)
Definition store : Store := {|
  dicts := [scored "A" 9; scored "B" 8; scored "C" 7; scored "D" 6; scored "E" 5];
  lists := [[0]; [1]; [2]; [3]; [4]]%nat;
  thread_objs := [mkThread "GPT" 0; mkThread "Claude" 1; mkThread "Mistral" 2;
                  mkThread "GPT" 3; mkThread "Claude" 4]%nat |}.

Definition state : GraphState :=
  mkState (Some "q") (Some "Mistral") (Some [0; 1; 2; 3; 4]%nat) (Some 5) (Some 0)
          None (Some 2) (Some 3) (Some 3) None None None None.
End ScenarioB.

(** ** Language-model calls

    A node formats a prompt from the state and reads [result.content].  The
    system text of each prompt is a constant of the source, named here by a
    tag; the human message is kept as the pieces the f-string joins, with
    [str()] of floats and of nested lists left symbolic. *)

Inductive SystemText : Type :=
  | commenter_system
  | scorer_system
  | difficulty_system
  | check_done_system
  | final_summary_system.

Inductive piece : Type :=
  | Lit (s : string)
  | FloatStr (q : PyFloat)
  | ChainsStr (chains : list (list AgentResponse)).

Record Prompt : Type := mkPrompt {
  system : SystemText;
  human : list piece;
}.

(** [llm.invoke(prompt).content] *)
Definition LLM : Type := Prompt → string.

(** ** The nodes of [upper_agents.py] *)

Section Nodes.
(** Python's [float(str)]: [None] where it raises [ValueError]. *)
Variable py_float : string → option PyFloat.

Definition create_commenter_agent (s : Store) (state : GraphState) (llm : LLM)
    : result (Store * GraphState) :=
  question ← key (question state);
  agent_response ← key (agent_response state);
  r ← deref (dicts s) agent_response;
  let reasoning_chain := text r in
  let prompt := mkPrompt commenter_system
    [Lit "Here is the question: "; Lit question; Lit (" " +:+ nl);
     Lit "Here is the reasoning chain: "; Lit reasoning_chain; Lit (" " +:+ nl)] in
  let comments := llm prompt in
  Ok (set_dict s agent_response (mkResponse (text r) (Some comments) (score r)),
      {| question := None; initial_response_agent := None; responses := None;
         threads := None; start := None;
         agent_response := Some agent_response;
         difficulty := None; beams := None; revisions := None; index := None;
         discarded_responses := None; done := None; final_response := None |}).

Definition create_scorer_agent (s : Store) (state : GraphState) (llm : LLM)
    : result (Store * GraphState) :=
  question ← key (question state);
  agent_response ← key (agent_response state);
  r ← deref (dicts s) agent_response;
  let reasoning_chain := text r in
  comments ← key (comments r);
  let prompt := mkPrompt scorer_system
    [Lit "Here is the question: "; Lit question; Lit (" " +:+ nl);
     Lit "Here is the reasoning chain: "; Lit reasoning_chain; Lit (" " +:+ nl);
     Lit "Here are the comments: "; Lit comments; Lit (" " +:+ nl)] in
  let score := llm prompt in
  q ← or_raise ValueError (py_float score);
  Ok (set_dict s agent_response (mkResponse (text r) (Some comments) (Some q)),
      {| question := None; initial_response_agent := None; responses := None;
         threads := None; start := None;
         agent_response := Some agent_response;
         difficulty := None; beams := None; revisions := None; index := None;
         discarded_responses := None; done := None; final_response := None |}).

(** One row of [difficulty_dict]. *)
Definition difficulty_row (d t b st r : Z) : GraphState :=
  {| question := None; initial_response_agent := None; responses := None;
     threads := Some t; start := Some st; agent_response := None;
     difficulty := Some d; beams := Some b; revisions := Some r;
     index := None; discarded_responses := None; done := None;
     final_response := None |}.

Definition difficulty_dict (k : string) : option GraphState :=
  if bool_decide (k = "1") then Some (difficulty_row 1 3 3 0 4)
  else if bool_decide (k = "2") then Some (difficulty_row 2 5 3 0 3)
  else if bool_decide (k = "3") then Some (difficulty_row 3 7 3 0 2)
  else if bool_decide (k = "4") then Some (difficulty_row 4 9 3 0 1)
  else None.

(** [response["content"][0]], the first response of a thread. *)
Definition first_response (s : Store) (t : ref) : result AgentResponse :=
  l ← content_refs s t;
  d ← Py.index l 0;
  deref (dicts s) d.

Definition create_difficulty_agent (s : Store) (state : GraphState) (llm : LLM)
    : result GraphState :=
  question ← key (question state);
  responses_full ← key (responses state);
  responses ← mapM (λ t, r ← first_response s t; Ok (text r)) responses_full;
  comments ← mapM (λ t, r ← first_response s t; key (comments r)) responses_full;
  grades ← mapM (λ t, r ← first_response s t; key (score r)) responses_full;
  response1 ← Py.index responses 0;
  comments1 ← Py.index comments 0;
  grades1 ← Py.index grades 0;
  response2 ← Py.index responses 1;
  comments2 ← Py.index comments 1;
  grades2 ← Py.index grades 1;
  response3 ← Py.index responses 2;
  comments3 ← Py.index comments 2;
  grades3 ← Py.index grades 2;
  let prompt := mkPrompt difficulty_system
    [Lit "Here is the question: "; Lit question; Lit (" " +:+ nl);
     Lit "Here is the first response, comments on the response, and its grade: ";
     Lit response1; Lit ", "; Lit comments1; Lit ", "; FloatStr grades1; Lit (" " +:+ nl);
     Lit "Here is the second response, comments on the response, and its grade: ";
     Lit response2; Lit ", "; Lit comments2; Lit ", "; FloatStr grades2; Lit (" " +:+ nl);
     Lit "Here is the third response, comments on the response, and its grade: ";
     Lit response3; Lit ", "; Lit comments3; Lit ", "; FloatStr grades3; Lit (" " +:+ nl)] in
  let difficulty := llm prompt in
  key (difficulty_dict difficulty).

(** [[response["content"] for response in responses]], as [str()] reads it. *)
Definition chains (s : Store) (rs : list ref) : result (list (list AgentResponse)) :=
  mapM (history s) rs.

Definition create_check_done_agent (s : Store) (state : GraphState) (llm : LLM)
    : result GraphState :=
  question ← key (question state);
  responses ← key (responses state);
  responses ← chains s responses;
  let prompt2 := mkPrompt check_done_system
    [Lit "Here is the question: "; Lit question; Lit (" " +:+ nl);
     Lit "Here are the reasoning chains: "; ChainsStr responses; Lit (" " +:+ nl)] in
  let result := llm prompt2 in
  Ok {| question := None; initial_response_agent := None; responses := None;
        threads := None; start := None; agent_response := None;
        difficulty := None; beams := None; revisions := None; index := None;
        discarded_responses := None;
        done := Some (bool_decide (result = "PROCESS DONE"));
        final_response := None |}.

(** The prompt of the final summary. *)
Definition final_summary_prompt (question : string)
    (responses : list (list AgentResponse)) : Prompt :=
  mkPrompt final_summary_system
    [Lit "Here is the question: "; Lit question; Lit (" " +:+ nl);
     Lit "Here are the reasoning chains: "; ChainsStr responses; Lit (" " +:+ nl)].

Definition create_final_summary_agent (s : Store) (state : GraphState) (llm : LLM)
    : result GraphState :=
  question ← key (question state);
  responses ← key (responses state);
  responses ← chains s responses;
  let result := llm (final_summary_prompt question responses) in
  Ok {| question := None; initial_response_agent := None; responses := None;
        threads := None; start := None; agent_response := None;
        difficulty := None; beams := None; revisions := None; index := None;
        discarded_responses := None; done := None;
        final_response := Some result |}.

Definition ask_question (state : GraphState) : GraphState :=
  {| question := None;
     initial_response_agent := Some "GPT";
     responses := Some [];
     threads := Some 3;
     start := Some 1;
     agent_response := None; difficulty := None; beams := None;
     revisions := None; index := None; discarded_responses := None;
     done := None; final_response := None |}.

Definition get_info_for_initial_response (state : GraphState)
    : result (string * string) :=
  agent ← key (initial_response_agent state);
  question ← key (question state);
  Ok (question, agent).

Definition get_info_for_revision_response (s : Store) (state : GraphState)
    : result (string * string * string * string) :=
  responses ← key (responses state);
  index ← key (index state);
  cur_response ← Py.index responses index;
  question ← key (question state);
  th ← deref (thread_objs s) cur_response;
  l ← deref (lists s) (content th);
  d ← Py.index l (-1);
  r ← deref (dicts s) d;
  comments ← key (comments r);
  Ok (question, agent_name th, text r, comments).

(** [{"agent_response": {"text": response["final_answer"]}}]: a new dict. *)
Definition join_graph (s : Store) (final_answer : string)
    : Store * GraphState :=
  let '(s', d) := new_dict s (mkResponse final_answer None None) in
  (s', {| question := None; initial_response_agent := None; responses := None;
          threads := None; start := None;
          agent_response := Some d;
          difficulty := None; beams := None; revisions := None; index := None;
          discarded_responses := None; done := None; final_response := None |}).

Definition agent_name_dict (k : string) : option string :=
  if bool_decide (k = "GPT") then Some "Claude"
  else if bool_decide (k = "Claude") then Some "Mistral"
  else if bool_decide (k = "Mistral") then Some "GPT"
  else None.

Definition initial_response_handler (s : Store) (state : GraphState)
    : result (Store * GraphState) :=
  agent_response ← key (agent_response state);
  agent_name ← key (initial_response_agent state);
  responses ← key (responses state);
  let '(s1, c) := new_list s [agent_response] in
  let '(s2, t) := new_thread s1 (mkThread agent_name c) in
  let responses := responses ++ [t] in
  next ← key (agent_name_dict agent_name);
  Ok (s2, {| question := None;
             initial_response_agent := Some next;
             responses := Some responses;
             threads := None; start := None; agent_response := None;
             difficulty := None; beams := None; revisions := None;
             index := None; discarded_responses := None; done := None;
             final_response := None |}).

Definition revised_response_handler (s : Store) (state : GraphState)
    : result (Store * GraphState) :=
  agent_response ← key (agent_response state);
  index ← key (index state);
  responses ← key (responses state);
  t ← Py.index responses index;
  th ← deref (thread_objs s) t;
  s' ← list_append s (content th) agent_response;
  Ok (s', {| question := None; initial_response_agent := None;
             responses := Some responses;
             threads := None; start := None; agent_response := None;
             difficulty := None; beams := None; revisions := None;
             index := Some (index + 1);
             discarded_responses := None; done := None;
             final_response := None |}).

(** ** The routers of [agent.py] *)

Definition initial_response_router (state : GraphState) : result string :=
  start ← key (start state);
  responses ← key (responses state);
  threads ← key (threads state);
  if bool_decide (Z.of_nat (length responses) < threads) then Ok "get_initial_response"
  else if bool_decide (start ≠ 0) then Ok "difficulty_assessment"
  else Ok "beam_search_agent".

Definition difficulty_router (state : GraphState) : result string :=
  responses ← key (responses state);
  threads ← key (threads state);
  if bool_decide (Z.of_nat (length responses) < threads) then Ok "get_initial_response"
  else Ok "beam_search_agent".

Definition revision_router (s : Store) (state : GraphState) : result string :=
  index ← key (index state);
  threads ← key (threads state);
  revisions ← key (revisions state);
  responses ← key (responses state);
  last ← Py.index responses (-1);
  n ← history_len s last;
  if bool_decide (n = revisions + 1) then Ok "summary"
  else if bool_decide (index = threads) then Ok "check_done"
  else Ok "get_revision_response".

Definition scorer_router (state : GraphState) : result string :=
  start ← key (start state);
  threads ← key (threads state);
  responses ← key (responses state);
  if bool_decide (start ≠ 0) || bool_decide (Z.of_nat (length responses) < threads)
  then Ok "initial_response_handler"
  else Ok "revised_response_handler".

Definition done_router (state : GraphState) : result string :=
  done ← key (done state);
  if (done : bool) then Ok "__end__" else Ok "continue".

(** ** The main graph *)

Inductive Node : Type :=
  | N_ask_question
  | N_get_initial_response
  | N_get_revision_response
  | N_difficulty_assessment
  | N_commenter
  | N_scorer
  | N_check_done
  | N_final_summary
  | N_beam_search_agent
  | N_initial_response_handler
  | N_revised_response_handler
  | N_END.

(** The mapping of a conditional edge: a label that is not in it is an error. *)
Fixpoint branch (path_map : list (string * Node)) (label : string) : result Node :=
  match path_map with
  | [] => Raise KeyError
  | (l, n) :: path_map' =>
      if bool_decide (l = label) then Ok n else branch path_map' label
  end.

(** What a node does to the store and which keys it updates; [reply] is what
    the collaborator called by the node answers (the final answer of the
    generation subgraph, or the content of the model's reply). *)
Definition exec_node (n : Node) (s : Store) (state : GraphState) (reply : string)
    : result (Store * GraphState) :=
  let llm : LLM := λ _, reply in
  match n with
  | N_ask_question => Ok (s, ask_question state)
  | N_get_initial_response =>
      _ ← get_info_for_initial_response state; Ok (join_graph s reply)
  | N_get_revision_response =>
      _ ← get_info_for_revision_response s state; Ok (join_graph s reply)
  | N_difficulty_assessment =>
      upd ← create_difficulty_agent s state llm; Ok (s, upd)
  | N_commenter => create_commenter_agent s state llm
  | N_scorer => create_scorer_agent s state llm
  | N_check_done => upd ← create_check_done_agent s state llm; Ok (s, upd)
  | N_final_summary => upd ← create_final_summary_agent s state llm; Ok (s, upd)
  | N_beam_search_agent => beam_search_agent s state
  | N_initial_response_handler => initial_response_handler s state
  | N_revised_response_handler => revised_response_handler s state
  | N_END => Ok (s, no_keys)
  end.

(** The edges: the node that runs after [n], chosen on the merged state. *)
Definition next_node (n : Node) (s : Store) (state : GraphState) : result Node :=
  match n with
  | N_ask_question => Ok N_get_initial_response
  | N_get_initial_response => Ok N_commenter
  | N_commenter => Ok N_scorer
  | N_scorer =>
      l ← scorer_router state;
      branch [("initial_response_handler", N_initial_response_handler);
              ("revised_response_handler", N_revised_response_handler)] l
  | N_initial_response_handler =>
      l ← initial_response_router state;
      branch [("get_initial_response", N_get_initial_response);
              ("difficulty_assessment", N_difficulty_assessment);
              ("beam_search_agent", N_beam_search_agent)] l
  | N_difficulty_assessment =>
      l ← difficulty_router state;
      branch [("get_initial_response", N_get_initial_response);
              ("beam_search_agent", N_beam_search_agent)] l
  | N_beam_search_agent => Ok N_get_revision_response
  | N_get_revision_response => Ok N_commenter
  | N_revised_response_handler =>
      l ← revision_router s state;
      branch [("get_revision_response", N_get_revision_response);
              ("check_done", N_check_done);
              ("summary", N_final_summary)] l
  | N_check_done =>
      l ← done_router state;
      branch [("continue", N_beam_search_agent);
              ("__end__", N_final_summary)] l
  | N_final_summary => Ok N_END
  | N_END => Ok N_END
  end.

(** A configuration: the node about to run, the store and the state. *)
Definition Config : Type := Node * Store * GraphState.

Definition step (reply : string) (c : Config) : result Config :=
  let '(n, s, state) := c in
  '(s', upd) ← exec_node n s state reply;
  let state' := merge state upd in
  n' ← next_node n s' state';
  Ok (n', s', state').

(** The run on a sequence of collaborator replies, one for each node run. *)
Fixpoint run (replies : list string) (c : Config) : result Config :=
  match replies with
  | [] => Ok c
  | r :: replies' => c' ← step r c; run replies' c'
  end.

(** The graph is entered at [ask_question], on any input state. *)
Definition reachable (c : Config) : Prop :=
  ∃ s0 state0 replies, run replies (N_ask_question, s0, state0) = Ok c.

End Nodes.

(** ** Mutations of a thread's history

    What later code can do to the history of a thread it holds: append a new
    response dict, or assign to the keys of an entry (after which the entry
    reads as [d]). *)

Inductive mutation : Type :=
  | Append (d : AgentResponse)
  | SetEntry (i : Z) (d : AgentResponse).

Definition apply_mutation (s : Store) (t : ref) (m : mutation) : result Store :=
  match m with
  | Append d =>
      th ← deref (thread_objs s) t;
      let '(s1, x) := new_dict s d in
      list_append s1 (content th) x
  | SetEntry i d =>
      l ← content_refs s t;
      x ← Py.index l i;
      Ok (set_dict s x d)
  end.

Fixpoint apply_mutations (s : Store) (t : ref) (ms : list mutation) : result Store :=
  match ms with
  | [] => Ok s
  | m :: ms' => s' ← apply_mutation s t m; apply_mutations s' t ms'
  end.

(** ** Vocabulary of the statements *)

Definition is_ok {A} (r : result A) : bool :=
  match r with Ok _ => true | Raise _ => false end.

(** The thread can be read and its latest response has a score. *)
Definition scored (s : Store) (t : ref) : bool :=
  is_ok (thread_value s t) && is_ok (latest_score s t).

(** [t] scores at least as much as [u]. *)
Definition scores_at_least (s : Store) (t u : ref) : Prop :=
  ∃ qt qu, latest_score s t = Ok qt ∧ latest_score s u = Ok qu ∧
           float_le qu qt = true.

(** The latest score of the thread is not nan. *)
Definition latest_not_nan (s : Store) (t : ref) : bool :=
  match latest_score s t with
  | Ok q => negb (is_nan q)
  | Raise _ => true
  end.

(** [s'] has every object of [s], unchanged, and maybe new ones. *)
Definition extends (s s' : Store) : Prop :=
  dicts s `prefix_of` dicts s' ∧ lists s `prefix_of` lists s' ∧
  thread_objs s `prefix_of` thread_objs s'.

(** The thread dict [t], its content list and its response dicts were all
    allocated after [lo] and by [hi]. *)
Definition allocated_between (lo hi s : Store) (t : ref) : Prop :=
  ∃ th l,
    thread_objs s !! t = Some th ∧ lists s !! content th = Some l ∧
    (length (thread_objs lo) ≤ t < length (thread_objs hi))%nat ∧
    (length (lists lo) ≤ content th < length (lists hi))%nat ∧
    Forall (λ d, (length (dicts lo) ≤ d < length (dicts hi))%nat) l.

(** Two threads share no mutable object. *)
Definition separate (s : Store) (t u : ref) : Prop :=
  t ≠ u ∧
  ∀ tht thu, thread_objs s !! t = Some tht → thread_objs s !! u = Some thu →
    content tht ≠ content thu ∧
    ∀ lt lu, lists s !! content tht = Some lt → lists s !! content thu = Some lu →
      ∀ d, d ∈ lt → d ∉ lu.

(** [out] are deep copies of [srcs], made one after the other. *)
Inductive copies : Store → list ref → Store → list ref → Prop :=
  | copies_nil s : copies s [] s []
  | copies_cons s src s1 c srcs s2 out :
      deepcopy s src = Ok (s1, c) →
      copies s1 srcs s2 out →
      copies s (src :: srcs) s2 (c :: out).

(** The threads that [beam_search_agent] copies, in the order of the copies:
    each of the best [threads // beams] times, then the first
    [threads % beams] of them once more. *)
Definition replicated (threads beams : Z) (best : list ref) : list ref :=
  (best ≫= replicate (Z.to_nat (threads `div` beams)))
  ++ take (Z.to_nat (threads `mod` beams)) best.

Definition empty_store : Store := mkStore [] [] [].

(** *** Further concrete populations *)

(** Scenario B with a sixth thread F that an earlier selection discarded. *)
Module ScenarioAudit.
Definition store : Store := {|
  dicts := dicts ScenarioB.store ++ [ScenarioB.scored "F" 4];
  lists := lists ScenarioB.store ++ [[5%nat]];
  thread_objs := thread_objs ScenarioB.store ++ [mkThread "Mistral" 5%nat] |}.

Definition state : GraphState :=
  mkState (Some "q") (Some "Mistral") (Some [0; 1; 2; 3; 4]%nat) (Some 5) (Some 0)
          None (Some 2) (Some 3) (Some 3) (Some 5) (Some [5%nat]) (Some false) None.
End ScenarioAudit.

(** Five threads scored 7, 9, 7, 9, 5: two pairs of equal scores. *)
Module ScenarioTies.
Definition store : Store := {|
  dicts := [ScenarioB.scored "A" 7; ScenarioB.scored "B" 9; ScenarioB.scored "C" 7;
            ScenarioB.scored "D" 9; ScenarioB.scored "E" 5];
  lists := [[0]; [1]; [2]; [3]; [4]]%nat;
  thread_objs := [mkThread "GPT" 0; mkThread "Claude" 1; mkThread "Mistral" 2;
                  mkThread "GPT" 3; mkThread "Claude" 4]%nat |}.

Definition state : GraphState := ScenarioB.state.
End ScenarioTies.

(** Five threads scored 5, nan, 9, 8, 7: the scorer's model answered ["nan"]
    for the second one, which [float] reads as a float. *)
Module ScenarioNan.
Definition unscorable (name : string) : AgentResponse :=
  mkResponse name (Some "ok") (Some NaN).

Definition store : Store := {|
  dicts := [ScenarioB.scored "A" 5; unscorable "B"; ScenarioB.scored "C" 9;
            ScenarioB.scored "D" 8; ScenarioB.scored "E" 7];
  lists := [[0]; [1]; [2]; [3]; [4]]%nat;
  thread_objs := [mkThread "GPT" 0; mkThread "Claude" 1; mkThread "Mistral" 2;
                  mkThread "GPT" 3; mkThread "Claude" 4]%nat |}.

Definition state : GraphState := ScenarioB.state.
End ScenarioNan.

(** Seven threads scored 5, 0, 5, nan, 9, 2, 1: two equal scores and a nan. *)
Module ScenarioNanTies.
Definition store : Store := {|
  dicts := [ScenarioB.scored "A" 5; ScenarioB.scored "B" 0; ScenarioB.scored "C" 5;
            ScenarioNan.unscorable "D"; ScenarioB.scored "E" 9;
            ScenarioB.scored "F" 2; ScenarioB.scored "G" 1];
  lists := [[0]; [1]; [2]; [3]; [4]; [5]; [6]]%nat;
  thread_objs := [mkThread "GPT" 0; mkThread "Claude" 1; mkThread "Mistral" 2;
                  mkThread "GPT" 3; mkThread "Claude" 4; mkThread "Mistral" 5;
                  mkThread "GPT" 6]%nat |}.

Definition state : GraphState :=
  mkState (Some "q") (Some "Claude") (Some [0; 1; 2; 3; 4; 5; 6]%nat) (Some 7) (Some 0)
          None (Some 3) (Some 3) (Some 2) None None None None.
End ScenarioNanTies.

(** Scenario B after the selection, and after the copy at position 3 (a copy
    of A) got a new response and had its first entry rewritten. *)
Module ScenarioB_after.
Definition selected : Store * GraphState :=
  Eval vm_compute in
    match beam_search_agent ScenarioB.store ScenarioB.state with
    | Ok p => p
    | Raise _ => (empty_store, no_keys)
    end.

Definition edits : list mutation :=
  [Append (mkResponse "A revised" None None);
   SetEntry 0 (ScenarioB.scored "A rewritten" 1)].

Definition mutated : Store :=
  Eval vm_compute in
    match apply_mutations selected.1 8%nat edits with
    | Ok s => s
    | Raise _ => empty_store
    end.
End ScenarioB_after.

(** Two thread dicts that share one content list: what the population would
    look like had a thread been copied shallowly. *)
Module Aliased.
Definition store : Store := {|
  dicts := [ScenarioB.scored "A" 9];
  lists := [[0%nat]];
  thread_objs := [mkThread "GPT" 0%nat; mkThread "GPT" 0%nat] |}.
End Aliased.

(** *** The difficulty assessment *)

(** The state a difficulty assessment can read: a question and at least three
    threads whose first response has comments and a score. *)
Definition assessable (s : Store) (state : GraphState) : bool :=
  match question state, responses state with
  | Some _, Some rs =>
      bool_decide (3 ≤ length rs)%nat &&
      forallb (λ t, match first_response s t with
                    | Ok r => bool_decide (is_Some (comments r))
                              && bool_decide (is_Some (score r))
                    | Raise _ => false
                    end) rs
  | _, _ => false
  end.

(** The run parameters that an update sets. *)
Definition has_config (upd : GraphState) (threadCount beamWidth revisionBudget : Z)
    : Prop :=
  threads upd = Some threadCount ∧ beams upd = Some beamWidth ∧
  revisions upd = Some revisionBudget ∧ beamWidth <= threadCount.

(** Scenario A of the specification: three bootstrap threads scored 8, 5, 9. *)
Module ScenarioA.
Definition store : Store := {|
  dicts := [ScenarioB.scored "A" 8; ScenarioB.scored "B" 5; ScenarioB.scored "C" 9];
  lists := [[0]; [1]; [2]]%nat;
  thread_objs := [mkThread "GPT" 0; mkThread "Claude" 1; mkThread "Mistral" 2]%nat |}.

Definition state : GraphState :=
  mkState (Some "q") (Some "GPT") (Some [0; 1; 2]%nat) (Some 3) (Some 1)
          (Some 2%nat) None None None None None None None.
End ScenarioA.

(** *** The final summary *)

(** The last entry of every thread's history. *)
Definition final_entries (s : Store) (state : GraphState)
    : result (list (option AgentResponse)) :=
  rs ← key (responses state);
  hs ← chains s rs;
  Ok (last <$> (hs : list (list AgentResponse))).

(** A model that answers with the text of the first entry of the first chain. *)
Definition echo_first : LLM := λ p,
  match human p with
  | [_; _; _; _; ChainsStr ((r :: _) :: _); _] => text r
  | _ => ""
  end.

(** Two populations of one thread with the same final entry and different
    first entries. *)
Module ScenarioSummary.
Definition final : AgentResponse := ScenarioB.scored "final" 9.
Definition store1 : Store := {|
  dicts := [ScenarioB.scored "first draft" 3; final];
  lists := [[0; 1]%nat];
  thread_objs := [mkThread "GPT" 0%nat] |}.
Definition store2 : Store := {|
  dicts := [ScenarioB.scored "another draft" 4; final];
  lists := [[0; 1]%nat];
  thread_objs := [mkThread "GPT" 0%nat] |}.
Definition state : GraphState :=
  mkState (Some "q") (Some "Claude") (Some [0%nat]) (Some 1) (Some 0)
          (Some 1%nat) (Some 4) (Some 1) (Some 1) (Some 1) (Some []) None None.
End ScenarioSummary.

(** *** Scenario C of the specification

    Five threads, [revisions = 1]; in the first round the threads at
    index 0 and 1 have been revised, and the revision of the thread at index 2
    has just been commented and scored (response dict 7). *)
Module ScenarioC.
Definition store : Store := {|
  dicts := [ScenarioB.scored "A" 9; ScenarioB.scored "B" 8; ScenarioB.scored "C" 7;
            ScenarioB.scored "D" 6; ScenarioB.scored "E" 5;
            ScenarioB.scored "A2" 9; ScenarioB.scored "B2" 9;
            ScenarioB.scored "C2" 8];
  lists := [[0; 5]; [1; 6]; [2]; [3]; [4]]%nat;
  thread_objs := [mkThread "GPT" 0; mkThread "Claude" 1; mkThread "Mistral" 2;
                  mkThread "GPT" 3; mkThread "Claude" 4]%nat |}.

Definition state : GraphState :=
  mkState (Some "q") (Some "Mistral") (Some [0; 1; 2; 3; 4]%nat) (Some 5) (Some 0)
          (Some 7%nat) (Some 4) (Some 3) (Some 1) (Some 2) (Some []) None None.

(** Every reply of a scorer parses as 7.5. *)
Definition py_float (reply : string) : option PyFloat := Some (Finite (15 # 2)).

(** The replies for one more revision: revision, comments, score, handler. *)
Definition one_revision : list string := ["revised"; "fine"; "7.5"; ""].

(** The configuration when the revision of the thread at index 4 is about
    to be appended. *)
Definition before_last : Config :=
  Eval vm_compute in
    match run py_float ([""] ++ one_revision ++ ["revised"; "fine"; "7.5"])
            (N_revised_response_handler, store, state) with
    | Ok c => c
    | Raise _ => (N_END, empty_store, no_keys)
    end.

(** The configuration once the threads at index 2, 3 and 4 are revised. *)
Definition after_round : Config :=
  Eval vm_compute in
    match run py_float ([""] ++ one_revision ++ one_revision)
            (N_revised_response_handler, store, state) with
    | Ok c => c
    | Raise _ => (N_END, empty_store, no_keys)
    end.
End ScenarioC.

(** ** The invariant of the workflow *)

(** [response["content"]] as a reference. *)
Definition content_of (s : Store) (t : ref) : result ref :=
  th ← deref (thread_objs s) t; Ok (content th).

(** The history lengths of the threads [rs]. *)
Definition lens (s : Store) (rs : list ref) (ks : list Z) : Prop :=
  Forall2 (λ t k, history_len s t = Ok k) rs ks.

(** The content lists of the threads [rs] are different objects. *)
Definition distinct_contents (s : Store) (rs : list ref) : Prop :=
  ∃ cs, Forall2 (λ t c, content_of s t = Ok c) rs cs ∧ NoDup cs.

(** Within a round the first [i] of [n] threads have one entry more. *)
Definition round_lens (i n : nat) (k : Z) : list Z :=
  replicate i (k + 1) ++ replicate (n - i) k.

(** While initial responses are collected every thread has one entry;
    [room] is 1 while a response is on its way and 0 otherwise. *)
Definition initial_phase (room : nat) (s : Store) (state : GraphState) : Prop :=
  ∃ rs n st,
    responses state = Some rs ∧ threads state = Some n ∧ start state = Some st ∧
    lens s rs (replicate (length rs) 1) ∧ distinct_contents s rs ∧
    Z.of_nat (length rs + room) <= n ∧
    ((st = 1 ∧ n = 3) ∨ (st = 0 ∧ beams state = Some 3 ∧ 3 <= n)).

(** Before a selection all threads have the same number of entries. *)
Definition selection_ready (s : Store) (state : GraphState) : Prop :=
  ∃ rs n k,
    responses state = Some rs ∧ threads state = Some n ∧ start state = Some 0 ∧
    beams state = Some 3 ∧ 3 <= n ∧ Z.of_nat (length rs) = n ∧
    lens s rs (replicate (length rs) k).

(** In a revision round with the cursor at [i]. *)
Definition revising (at_end : bool) (s : Store) (state : GraphState) : Prop :=
  ∃ rs n (i : nat) k,
    responses state = Some rs ∧ threads state = Some n ∧ start state = Some 0 ∧
    beams state = Some 3 ∧ 3 <= n ∧ Z.of_nat (length rs) = n ∧
    index state = Some (Z.of_nat i) ∧
    lens s rs (round_lens i (length rs) k) ∧ distinct_contents s rs ∧
    (if at_end then i = length rs else (i < length rs)%nat).

(** A node that only allocates or updates response dicts, and an update that
    leaves the keys of the population alone. *)
Definition same_shape (s s' : Store) : Prop :=
  lists s' = lists s ∧ thread_objs s' = thread_objs s.

Definition same_config (state state' : GraphState) : Prop :=
  responses state' = responses state ∧ threads state' = threads state ∧
  start state' = start state ∧ beams state' = beams state ∧
  index state' = index state.

Definition invariant (c : Config) : Prop :=
  let '(n, s, state) := c in
  match n with
  | N_ask_question | N_final_summary | N_END => True
  | N_get_initial_response | N_initial_response_handler => initial_phase 1 s state
  | N_difficulty_assessment => initial_phase 0 s state ∧ start state = Some 1
  | N_commenter | N_scorer => initial_phase 1 s state ∨ revising false s state
  | N_get_revision_response | N_revised_response_handler => revising false s state
  | N_beam_search_agent => selection_ready s state
  | N_check_done => revising true s state
  end.

(** A complete run of the easiest tier up to the first convergence check:
    three initial responses, the assessment, the selection, one round. *)
Module ScenarioRun.
Definition py_float (reply : string) : option PyFloat :=
  if bool_decide (reply = "7.5") then Some (Finite (15 # 2)) else None.

Definition one_response : list string := ["answer"; "fine"; "7.5"; ""].

Definition replies : list string :=
  [""] ++ one_response ++ one_response ++ one_response ++ ["1"; ""]
  ++ one_response ++ one_response ++ one_response.

Definition input : GraphState :=
  mkState (Some "q") None None None None None None None None None None None None.

Definition at_check_done : Config :=
  Eval vm_compute in
    match run py_float replies (N_ask_question, empty_store, input) with
    | Ok c => c
    | Raise _ => (N_END, empty_store, no_keys)
    end.
End ScenarioRun.

(** ** Further vocabulary: responses, stores and runs *)

(** A response that has been commented and scored. *)
Definition complete (r : AgentResponse) : Prop :=
  is_Some (comments r) ∧ is_Some (score r).

(** Scenario B with other run parameters. *)
Definition scenario_with (threads beams : Z) : GraphState :=
  mkState (Some "q") (Some "Mistral") (Some [0; 1; 2; 3; 4]%nat) (Some threads)
          (Some 0) None (Some 2) (Some beams) (Some 3) None None None None.

(** Scenario A before the third response is commented: the response dict 3
    has a text only. *)
Module ScenarioDraft.
Definition store : Store := {|
  dicts := [ScenarioB.scored "A" 8; ScenarioB.scored "B" 5;
            mkResponse "C" (Some "ok") None; mkResponse "D" None None];
  lists := [[0]; [1]; [2]]%nat;
  thread_objs := [mkThread "GPT" 0; mkThread "Claude" 1; mkThread "Mistral" 2]%nat |}.

Definition state : GraphState :=
  mkState (Some "q") (Some "GPT") (Some [0; 1; 2]%nat) (Some 5) (Some 0)
          (Some 3%nat) (Some 2) (Some 3) (Some 3) (Some 1) None None None.
End ScenarioDraft.

(** ** Runs that start from a proper input

    The caller passes a question, and the objects that exist beforehand refer
    to existing objects only. *)

(** Every reference held by a content list or a thread dict names an object
    of the store. *)
Definition closed (s : Store) : Prop :=
  Forall (Forall (λ d, (d < length (dicts s))%nat)) (lists s) ∧
  Forall (λ th, (content th < length (lists s))%nat) (thread_objs s).

Definition started (py_float : string → option PyFloat) (c : Config) : Prop :=
  ∃ s0 state0 replies,
    closed s0 ∧ is_Some (question state0) ∧
    run py_float replies (N_ask_question, s0, state0) = Ok c.

(** Every thread of the population has a history that can be read, is not
    empty, and holds commented and scored responses only. *)
Definition complete_population (s : Store) (rs : list ref) : Prop :=
  Forall (λ t, ∃ h, history s t = Ok h ∧ h ≠ [] ∧ Forall complete h) rs.

(** No content list holds the response dict [a]. *)
Definition fresh_dict (s : Store) (a : ref) : Prop :=
  Forall (λ l, a ∉ l) (lists s).

(** The agent that produces the initial response number [i]. *)
Definition nth_agent (i : nat) : string :=
  match (i mod 3)%nat with
  | 0%nat => "GPT"
  | 1%nat => "Claude"
  | _ => "Mistral"
  end.

Definition rotation (s : Store) (rs : list ref) : Prop :=
  ∀ i t, rs !! i = Some t →
    ∃ th, thread_objs s !! t = Some th ∧ agent_name th = nth_agent i.

(** The run parameters are those of one row of the difficulty table. *)
Definition configured (state : GraphState) (n r : Z) : Prop :=
  ∃ d, 1 <= d <= 4 ∧ difficulty state = Some d ∧
       threads state = Some n ∧ n = 2 * d + 1 ∧ beams state = Some 3 ∧
       revisions state = Some r ∧ r = 5 - d ∧ start state = Some 0.

(** Histories have between 1 and [r + 1] entries, and at most [r] from the
    cursor [i] on. *)
Definition within_budget (i : nat) (s : Store) (rs : list ref) (r : Z) : Prop :=
  ∀ j t m, rs !! j = Some t → history_len s t = Ok m →
    1 <= m <= r + 1 ∧ ((i ≤ j)%nat → m <= r).

Definition collecting (s : Store) (state : GraphState) (rs : list ref) : Prop :=
  rotation s rs ∧
  initial_response_agent state = Some (nth_agent (length rs)) ∧
  (start state = Some 1 ∨ ∃ n r, configured state n r).

Definition budgeted (i : nat) (s : Store) (state : GraphState) (rs : list ref)
    : Prop :=
  ∃ n r, configured state n r ∧ Z.of_nat (length rs) = n ∧ within_budget i s rs r.

Definition at_cursor (s : Store) (state : GraphState) (rs : list ref) : Prop :=
  ∃ i : nat, index state = Some (Z.of_nat i) ∧ budgeted i s state rs.

(** The response under [agent_response]. *)
Definition pending (P : AgentResponse → Prop) (s : Store) (state : GraphState)
    : Prop :=
  ∃ a r, agent_response state = Some a ∧ dicts s !! a = Some r ∧ P r.

Definition pending_new (P : AgentResponse → Prop) (s : Store) (state : GraphState)
    : Prop :=
  ∃ a r, agent_response state = Some a ∧ dicts s !! a = Some r ∧ P r ∧
         fresh_dict s a.

Definition in_critique (s : Store) (state : GraphState) (rs : list ref) : Prop :=
  (initial_phase 1 s state ∧ collecting s state rs)
  ∨ (revising false s state ∧ at_cursor s state rs).

Definition node_facts (n : Node) (s : Store) (state : GraphState) (rs : list ref)
    : Prop :=
  match n with
  | N_ask_question | N_END => True
  | N_get_initial_response => collecting s state rs
  | N_initial_response_handler => collecting s state rs ∧ pending complete s state
  | N_difficulty_assessment => collecting s state rs ∧ length rs = 3%nat
  | N_commenter => pending_new (λ _, True) s state ∧ in_critique s state rs
  | N_scorer =>
      pending_new (λ r, is_Some (comments r)) s state ∧ in_critique s state rs
  | N_get_revision_response => at_cursor s state rs
  | N_revised_response_handler => at_cursor s state rs ∧ pending complete s state
  | N_beam_search_agent | N_check_done => budgeted 0 s state rs
  | N_final_summary => ∃ k, Forall (λ t, history_len s t = Ok k) rs
  end.

Definition sound (c : Config) : Prop :=
  let '(n, s, state) := c in
  invariant c ∧ is_Some (question state) ∧ closed s ∧
  (n = N_ask_question ∨ n = N_END ∨
   ∃ rs, responses state = Some rs ∧ complete_population s rs ∧
         node_facts n s state rs).

(** An update that leaves the run parameters alone. *)
Definition same_keys (state state' : GraphState) : Prop :=
  question state' = question state ∧
  initial_response_agent state' = initial_response_agent state ∧
  threads state' = threads state ∧ start state' = start state ∧
  difficulty state' = difficulty state ∧ beams state' = beams state ∧
  revisions state' = revisions state.

(** The step from [c] returns. *)
Definition returns (py_float : string → option PyFloat) (reply : string) (c : Config)
    : Prop :=
  ∃ c', step py_float reply c = Ok c'.

(** The nodes of a revision round at which the budget is known. *)
Definition in_revision_round (n : Node) : bool :=
  match n with
  | N_get_revision_response | N_revised_response_handler
  | N_beam_search_agent | N_check_done => true
  | _ => false
  end.

(** The run of [ScenarioRun], stopped earlier or continued to the summary. *)
Module ScenarioStages.
Definition stop (replies : list string) : Config :=
  match run ScenarioRun.py_float replies
          (N_ask_question, empty_store, ScenarioRun.input) with
  | Ok c => c
  | Raise _ => (N_END, empty_store, no_keys)
  end.

Definition to_second_response : list string := take 5 ScenarioRun.replies.
Definition to_scorer : list string := take 3 ScenarioRun.replies.
Definition to_difficulty : list string := take 13 ScenarioRun.replies.
Definition to_beam_search : list string := take 14 ScenarioRun.replies.
Definition to_revision : list string := take 15 ScenarioRun.replies.
Definition to_summary : list string := ScenarioRun.replies ++ ["PROCESS DONE"].

Definition at_second_response : Config := Eval vm_compute in stop to_second_response.
Definition at_scorer : Config := Eval vm_compute in stop to_scorer.
Definition at_difficulty : Config := Eval vm_compute in stop to_difficulty.
Definition at_beam_search : Config := Eval vm_compute in stop to_beam_search.
Definition at_revision : Config := Eval vm_compute in stop to_revision.
Definition at_summary : Config := Eval vm_compute in stop to_summary.

(** In front of the first append of a revision, and after it. *)
Definition to_append : list string := take 18 ScenarioRun.replies.
Definition at_append : Config := Eval vm_compute in stop to_append.
Definition after_append : Config := Eval vm_compute in stop (take 19 ScenarioRun.replies).
Definition first_answer : AgentResponse :=
  mkResponse "answer" (Some "fine") (Some (Finite (15 # 2))).
End ScenarioStages.

(** * The generation subgraph

    [graph_initial] and [graph_revision] of [agent.py] have the same nodes
    and edges and differ in the agents bound to the nodes; [agent_node] is
    the node function of [response_agents.py].  What the main graph calls
    [reply] at [get_initial_response] and [get_revision_response] is the
    [final_answer] this subgraph ends with. *)

Module Gen.

Inductive Error : Type :=
  | KeyError
  | IndexError
  | AttributeError.

Inductive outcome (A : Type) : Type :=
  | Returns (a : A)
  | Raises (e : Error).
Arguments Returns {A} a.
Arguments Raises {A} e.

Record ToolCall : Type := mkToolCall {
  tool : string;
  args : string;
}.

(** The messages of the trace; only an [AIMessage] has [tool_calls]. *)
Inductive Message : Type :=
  | HumanMessage (content : string)
  | AIMessage (content : string) (tool_calls : list ToolCall) (name : option string)
  | ToolMessage (content : string).

Definition content (m : Message) : string :=
  match m with
  | HumanMessage c | AIMessage c _ _ | ToolMessage c => c
  end.

(** [message.tool_calls]: [AttributeError] on a message without it. *)
Definition tool_calls (m : Message) : outcome (list ToolCall) :=
  match m with
  | AIMessage _ calls _ => Returns calls
  | HumanMessage _ | ToolMessage _ => Raises AttributeError
  end.

(** Modelled from the spec: the state schema [my_agent/state.py] is not among
    the sources; the trace [messages] accumulates (an update is appended),
    [sender] and [final_answer] are overwritten.  The subgraph is entered
    through [enter_chain] or [enter_chain_revision] only, which set
    [messages] and [sender]. *)
Record AgentState : Type := mkAgentState {
  messages : list Message;
  sender : string;
  final_answer : option string;
}.

Record Update : Type := mkUpdate {
  u_messages : list Message;
  u_sender : option string;
  u_final_answer : option string;
}.

Definition merge (st : AgentState) (u : Update) : AgentState :=
  {| messages := messages st ++ u_messages u;
     sender := default (sender st) (u_sender u);
     final_answer := overwrite (u_final_answer u) (final_answer st) |}.

(** [agent.invoke(state)]: the chain [prompt | llm] reads the trace. *)
Definition Agent : Type := list Message → Message.

(** The [AIMessage] built from the fields of [result] other than its type
    and name, with [name=name]; a [ToolMessage] is passed on as it is. *)
Definition renamed (result : Message) (name : string) : Message :=
  match result with
  | ToolMessage _ => result
  | AIMessage c calls _ => AIMessage c calls (Some name)
  | HumanMessage c => AIMessage c [] (Some name)
  end.

Definition agent_node (state : AgentState) (agent : Agent) (name : string) : Update :=
  let result := agent (messages state) in
  if bool_decide (name = "Summary") then
    {| u_messages := []; u_sender := None; u_final_answer := Some (content result) |}
  else
    {| u_messages := [renamed result name]; u_sender := Some name;
       u_final_answer := None |}.

(** [router_tools] of [agent.py] *)
Definition router_tools (state : AgentState) : outcome string :=
  match last (messages state) with
  | None => Raises IndexError
  | Some last_message =>
      match tool_calls last_message with
      | Raises e => Raises e
      | Returns [] => Returns "__end__"
      | Returns (_ :: _) => Returns "call_tool"
      end
  end.

Inductive Node : Type :=
  | GPT
  | Claude
  | Mistral
  | call_tool
  | Summary
  | END.

Fixpoint branch (path_map : list (string * Node)) (label : string) : outcome Node :=
  match path_map with
  | [] => Raises KeyError
  | (l, n) :: path_map' =>
      if bool_decide (l = label) then Returns n else branch path_map' label
  end.

(** The agents bound to the nodes and the prebuilt tool node, which answers
    the tool calls of the latest message with the messages it appends. *)
Record Backends : Type := mkBackends {
  gpt : Agent;
  claude : Agent;
  mistral : Agent;
  summary : Agent;
  tool_node : list Message → list Message;
}.

Definition by_sender (state : AgentState) : outcome Node :=
  branch [("GPT", GPT); ("Claude", Claude); ("Mistral", Mistral)] (sender state).

Section Graph.
Variable b : Backends.

Definition exec_node (n : Node) (state : AgentState) : Update :=
  match n with
  | GPT => agent_node state (gpt b) "GPT"
  | Claude => agent_node state (claude b) "Claude"
  | Mistral => agent_node state (mistral b) "Mistral"
  | Summary => agent_node state (summary b) "Summary"
  | call_tool =>
      {| u_messages := tool_node b (messages state); u_sender := None;
         u_final_answer := None |}
  | END => {| u_messages := []; u_sender := None; u_final_answer := None |}
  end.

Definition next_node (n : Node) (state : AgentState) : outcome Node :=
  match n with
  | GPT | Claude | Mistral =>
      match router_tools state with
      | Raises e => Raises e
      | Returns l => branch [("call_tool", call_tool); ("__end__", Summary)] l
      end
  | call_tool => by_sender state
  | Summary => Returns END
  | END => Returns END
  end.

Definition step (c : Node * AgentState) : outcome (Node * AgentState) :=
  let '(n, state) := c in
  let state' := merge state (exec_node n state) in
  match next_node n state' with
  | Raises e => Raises e
  | Returns n' => Returns (n', state')
  end.

(** [k] node runs. *)
Fixpoint steps (k : nat) (c : Node * AgentState) : outcome (Node * AgentState) :=
  match k with
  | O => Returns c
  | S k' => match step c with
            | Raises e => Raises e
            | Returns c' => steps k' c'
            end
  end.

(** The compiled graph with at most [fuel] node runs: the state at [END]. *)
Fixpoint run (fuel : nat) (c : Node * AgentState) : outcome (option AgentState) :=
  match c.1, fuel with
  | END, _ => Returns (Some c.2)
  | _, O => Returns None
  | _, S fuel' => match step c with
                  | Raises e => Raises e
                  | Returns c' => run fuel' c'
                  end
  end.

Definition invoke (fuel : nat) (state : AgentState) : outcome (option AgentState) :=
  match by_sender state with
  | Raises e => Raises e
  | Returns n => run fuel (n, state)
  end.

End Graph.

Definition enter_chain (message_and_agent : string * string) : AgentState :=
  let '(message, agent) := message_and_agent in
  {| messages := [HumanMessage message]; sender := agent; final_answer := None |}.

Definition enter_chain_revision
    (question_and_agent_and_previous_response_and_comments
       : string * string * string * string) : AgentState :=
  let '(question, agent, previous_response, comments) :=
    question_and_agent_and_previous_response_and_comments in
  let message := "Here is the question: " +:+ question +:+ nl in
  let message :=
    message +:+ ("Here is the previous response: " +:+ previous_response +:+ nl) in
  let message := message +:+ ("Here are the comments: " +:+ comments +:+ nl) in
  {| messages := [HumanMessage message]; sender := agent; final_answer := None |}.

(** The node of the agent called [name]. *)
Definition node_of (name : string) : option Node :=
  if bool_decide (name = "GPT") then Some GPT
  else if bool_decide (name = "Claude") then Some Claude
  else if bool_decide (name = "Mistral") then Some Mistral
  else None.

Definition agent_of (b : Backends) (n : Node) : option (Agent * string) :=
  match n with
  | GPT => Some (gpt b, "GPT")
  | Claude => Some (claude b, "Claude")
  | Mistral => Some (mistral b, "Mistral")
  | _ => None
  end.

(** The configurations of the call that entered at [n0] with [st0]: the
    sender is the one of the entry, no other agent node runs, the trace
    extends the one of the entry, and at [END] the answer is the summary of
    the trace. *)
Definition one_agent (b : Backends) (n0 : Node) (st0 : AgentState)
    (c : Node * AgentState) : Prop :=
  sender c.2 = sender st0 ∧
  (c.1 = n0 ∨ c.1 = call_tool ∨ c.1 = Summary ∨ c.1 = END) ∧
  messages st0 `prefix_of` messages c.2 ∧
  (c.1 = END →
   final_answer c.2 = Some (content (summary b (messages c.2)))) ∧
  (c.1 ≠ END → final_answer c.2 = final_answer st0).

(** A scripted run: the agents answer by the length of the trace. *)
Module Scenario.
Definition search : ToolCall := mkToolCall "tavily_search_results_json" "query".

Definition agent (trace : list Message) : Message :=
  if bool_decide (length trace = 1)%nat
  then AIMessage "let me look it up" [search] None
  else AIMessage "the answer is 4" [] None.

Definition backends : Backends :=
  {| gpt := agent; claude := agent; mistral := agent;
     summary := λ trace, AIMessage "In short: 4" [] None;
     tool_node := λ _, [ToolMessage "result"] |}.

(** The call for Claude after the first tool round trip. *)
Definition after_tools : AgentState :=
  {| messages := [HumanMessage "2+2?";
                  AIMessage "let me look it up" [search] (Some "Claude");
                  ToolMessage "result"];
     sender := "Claude"; final_answer := None |}.

Definition direct : Backends :=
  {| gpt := λ _, AIMessage "4" [] None; claude := λ _, AIMessage "4" [] None;
     mistral := λ _, AIMessage "4" [] None;
     summary := λ trace, AIMessage "In short: 4" [] None;
     tool_node := λ _, [] |}.
End Scenario.

End Gen.

(** ** The main graph calls the subgraph

    Every thread of the population is named after an agent the subgraph has
    a node for. *)
Definition named_population (s : Store) (rs : list ref) : Prop :=
  Forall (λ t, ∃ th, thread_objs s !! t = Some th
                     ∧ is_Some (Gen.node_of (agent_name th))) rs.

Definition named (c : Config) : Prop :=
  let '(n, s, state) := c in
  n = N_ask_question ∨ ∀ rs, responses state = Some rs → named_population s rs.

(** * Proofs *)

(** ** The error monad *)

Lemma bind_Ok {A B} (m : result A) (k : A → result B) (b : B) :
  m ≫= k = Ok b ↔ ∃ a, m = Ok a ∧ k a = Ok b.
Proof.
  destruct m as [a|e]; simpl; split.
  - intros H. by exists a.
  - by intros (a' & [= ->] & H).
  - intros H. discriminate H.
  - by intros (a' & [=] & _).
Qed.

Lemma or_raise_Ok {A} e (o : option A) a : or_raise e o = Ok a ↔ o = Some a.
Proof. destruct o; simpl; split; congruence. Qed.

Lemma is_ok_Ok {A} (r : result A) : is_ok r = true ↔ ∃ a, r = Ok a.
Proof. destruct r; simpl; split; try done; [by eexists|by intros [? ?]]. Qed.

Lemma key_Ok {A} (o : option A) a : key o = Ok a ↔ o = Some a.
Proof. apply or_raise_Ok. Qed.

Lemma deref_Ok {A} (cells : list A) r a : deref cells r = Ok a ↔ cells !! r = Some a.
Proof. apply or_raise_Ok. Qed.

(** Takes apart a hypothesis that says a monadic computation returned. *)
Ltac ok_step H :=
  match type of H with
  | Ok _ = Ok _ => injection H as H; try subst
  | mret _ = Ok _ => unfold mret, result_ret in H; injection H as H; try subst
  | Raise _ = Ok _ => discriminate H
  | (let '(_, _) := ?p in _) = Ok _ => destruct p eqn:?; simpl in H
  | (if ?b then _ else _) = Ok _ => destruct b eqn:?; simpl in H
  | (match ?o with Some _ => _ | None => _ end) = Ok _ => destruct o eqn:?; simpl in H
  | _ ≫= _ = Ok _ =>
      let a := fresh "a" in let Ha := fresh "Ha" in
      apply bind_Ok in H as (a & Ha & H);
      lazymatch type of a with
      | prod _ _ => destruct a as [? ?]; simpl in H
      | _ => idtac
      end
  | (match ?m with Ok _ => _ | Raise _ => _ end) = Ok _ =>
      let a := fresh "a" in let Ha := fresh "Ha" in
      destruct m as [a|] eqn:Ha; [simpl in H|discriminate H]
  end.

Ltac ok_simpl := cbn [mbind result_bind mret result_ret key or_raise].

Tactic Notation "ok_bind" hyp(H) "as" ident(x) ident(Hx) :=
  apply bind_Ok in H as (x & Hx & H).

Lemma mapM_Ok {A B} (f : A → result B) (l : list A) (out : list B) :
  mapM f l = Ok out ↔ Forall2 (λ x y, f x = Ok y) l out.
Proof.
  revert out. induction l as [|x l IH]; intros out; simpl.
  - split.
    + intros [= <-]. constructor.
    + intros H. by inversion H.
  - split.
    + intros H. ok_step H. ok_step H. ok_step H.
      constructor; [done|]. by apply IH.
    + intros H. inversion H as [|? y ? k Hx Hl]; subst.
      rewrite Hx. simpl. apply IH in Hl. rewrite Hl. done.
Qed.

Lemma mapM_is_Ok {A B} (f : A → result B) (l : list A) :
  Forall (λ x, ∃ y, f x = Ok y) l → ∃ out, mapM f l = Ok out.
Proof.
  induction 1 as [|x l Hx _ IH]; simpl.
  - by eexists.
  - destruct Hx as [y Hy], IH as [out IH].
    rewrite Hy. simpl. rewrite IH. simpl. by eexists.
Qed.

Lemma forallb_elem {A} (f : A → bool) (l : list A) :
  forallb f l = true ↔ ∀ x, x ∈ l → f x = true.
Proof.
  rewrite forallb_forall. by setoid_rewrite list_elem_of_In.
Qed.

(** ** Python lists *)

Lemma index_Ok_lookup {A} (l : list A) (i : Z) (x : A) :
  Py.index l i = Ok x → ∃ k : nat, l !! k = Some x.
Proof.
  unfold Py.index. intros Hi.
  repeat case_bool_decide; try discriminate; apply or_raise_Ok in Hi; eauto.
Qed.

Lemma index_nonneg {A} (l : list A) (i : nat) :
  Py.index l (Z.of_nat i) = or_raise IndexError (l !! i).
Proof.
  unfold Py.index. case_bool_decide as H.
  - by rewrite Nat2Z.id.
  - case_bool_decide; [lia|].
    rewrite lookup_ge_None_2; [done|lia].
Qed.

Lemma index_last {A} (l : list A) (x : A) : Py.index (l ++ [x]) (-1) = Ok x.
Proof.
  unfold Py.index. rewrite length_app. cbn [length].
  case_bool_decide; [lia|]. case_bool_decide; [|lia].
  replace (Z.to_nat (Z.of_nat (length l + 1) + -1)) with (length l) by lia.
  by rewrite list_lookup_middle.
Qed.

Lemma index_last_Ok {A} (l : list A) (x : A) :
  Py.index l (-1) = Ok x ↔ last l = Some x.
Proof.
  destruct l as [|y l _] using rev_ind.
  - unfold Py.index. simpl. split; [|done]. repeat case_bool_decide; done || lia.
  - rewrite index_last, last_snoc. split; congruence.
Qed.

Lemma bound_in_range {A} (l : list A) (b : Z) :
  0 <= b <= Z.of_nat (length l) → Py.bound l b = Z.to_nat b.
Proof. intros H. unfold Py.bound. case_bool_decide; [lia|]. f_equal. lia. Qed.

Lemma bound_le {A} (l : list A) (b : Z) : (Py.bound l b ≤ length l)%nat.
Proof. unfold Py.bound. case_bool_decide; lia. Qed.

Lemma bound_length {A B} (l : list A) (l' : list B) (b : Z) :
  length l = length l' → Py.bound l b = Py.bound l' b.
Proof. unfold Py.bound. by intros ->. Qed.

Lemma slice_to_length {A} (l : list A) (b : Z) :
  length (Py.slice_to l b) = Py.bound l b.
Proof. unfold Py.slice_to. rewrite length_take. pose proof (bound_le l b). lia. Qed.

Lemma slice_to_from {A} (l : list A) (b : Z) : Py.slice_to l b ++ Py.slice_from l b = l.
Proof. apply take_drop. Qed.

Lemma range_length (n : Z) : length (Py.range n) = Z.to_nat n.
Proof. unfold Py.range. by rewrite length_fmap, length_seq. Qed.

(** ** The order of the floats *)

Lemma Qltb_false (x y : Q) : Qltb x y = false ↔ (y <= x)%Q.
Proof.
  unfold Qltb. rewrite negb_false_iff. apply Qle_bool_iff.
Qed.

Lemma Qltb_true (x y : Q) : Qltb x y = true ↔ (x < y)%Q.
Proof.
  unfold Qltb. rewrite negb_true_iff, <- not_true_iff_false, Qle_bool_iff.
  split; [apply Qnot_le_lt | apply Qlt_not_le].
Qed.

Ltac float_cases :=
  repeat match goal with x : PyFloat |- _ => destruct x end;
  simpl in *; try done;
  repeat match goal with
    | H : Qltb _ _ = true |- _ => apply Qltb_true in H
    | H : Qltb _ _ = false |- _ => apply Qltb_false in H
    | H : Qeq_bool _ _ = true |- _ => apply Qeq_bool_iff in H
    end;
  rewrite ?Qltb_true, ?Qltb_false, ?Qeq_bool_iff; try lra.

Lemma float_lt_asym x y : float_lt x y = true → float_lt y x = false.
Proof. intros. float_cases. Qed.

Lemma float_lt_trans x y z :
  float_lt x y = true → float_lt y z = true → float_lt x z = true.
Proof. intros. float_cases. Qed.

(** [x < y <= z] *)
Lemma float_lt_le_trans x y z :
  is_nan z = false →
  float_lt x y = true → float_lt z y = false → float_lt x z = true.
Proof. intros. float_cases. Qed.

(** [z <= y <= x] *)
Lemma float_nlt_trans x y z :
  is_nan x = false → is_nan y = false → is_nan z = false →
  float_lt x y = false → float_lt y z = false → float_lt x z = false.
Proof. intros. float_cases. Qed.

Lemma float_nlt_le x y :
  is_nan x = false → is_nan y = false → float_lt x y = false → float_le y x = true.
Proof.
  unfold float_le. destruct x as [p| | |], y as [q| | |]; simpl; try done.
  intros _ _ H%Qltb_false. apply orb_true_iff. rewrite Qltb_true, Qeq_bool_iff.
  destruct (Qlt_le_dec q p); [by left|right; lra].
Qed.

Lemma float_le_nlt x y : float_le y x = true → float_lt x y = false.
Proof.
  unfold float_le. intros [H|H]%orb_true_iff; float_cases.
Qed.

Lemma float_le_not_nan x y : float_le x y = true → is_nan x = false ∧ is_nan y = false.
Proof. unfold float_le. intros [H|H]%orb_true_iff; by destruct x, y. Qed.

Lemma float_eq_not_lt x y q :
  float_eq x q = true → float_eq y q = true → float_lt x y = false.
Proof. intros. float_cases. Qed.

Lemma float_eq_refl x : is_nan x = false → float_eq x x = true.
Proof. intros. float_cases. Qed.

Lemma float_eq_sym x y : float_eq x y = true → float_eq y x = true.
Proof. intros. float_cases. Qed.

Lemma float_le_antisym x y :
  float_le x y = true → float_le y x = true → float_eq x y = true.
Proof.
  unfold float_le. intros [H1|H1]%orb_true_iff [H2|H2]%orb_true_iff; float_cases.
Qed.

Lemma float_eq_lt_l x y z : float_eq x y = true → float_lt x z = float_lt y z.
Proof.
  intros. destruct (float_lt x z) eqn:H1, (float_lt y z) eqn:H2; float_cases.
Qed.

(** ** The sort *)

Lemma filter_sublist_mono {A} (P : A → Prop) `{!∀ x, Decision (P x)} (l1 l2 : list A) :
  l1 `sublist_of` l2 → filter P l1 `sublist_of` filter P l2.
Proof.
  induction 1 as [|x l1 l2 _ IH|x l1 l2 _ IH]; [done|..]; rewrite ?filter_cons.
  - destruct (decide (P x)); [by constructor|done].
  - destruct (decide (P x)); [by constructor|done].
Qed.

Lemma filter_none {A} (P : A → Prop) `{!∀ x, Decision (P x)} (l : list A) :
  Forall (λ x, ¬ P x) l → filter P l = [].
Proof.
  induction 1 as [|x l Hx _ IH]; [done|]. rewrite filter_cons.
  by destruct (decide (P x)).
Qed.

Section SortFacts.
Context {A : Type} (score_of : A → PyFloat).
Implicit Types (x y : A) (l : list A) (q : PyFloat).

Lemma insert_desc_perm x l : insert_desc score_of x l ≡ₚ x :: l.
Proof.
  induction l as [|y l IH]; simpl; [done|].
  destruct (key_lt _ _ _); [|done].
  rewrite IH. apply Permutation_swap.
Qed.

Lemma sort_desc_perm l : sort_desc score_of l ≡ₚ l.
Proof.
  induction l as [|x l IH]; simpl; [done|].
  rewrite insert_desc_perm. by f_equiv.
Qed.

Lemma sort_desc_length l : length (sort_desc score_of l) = length l.
Proof. by rewrite sort_desc_perm. Qed.

Lemma comparable_perm l l' : l ≡ₚ l' → comparable score_of l → comparable score_of l'.
Proof. unfold comparable. by intros ->. Qed.

Lemma insert_desc_descending x l :
  is_nan (score_of x) = false → comparable score_of l →
  descending score_of l → descending score_of (insert_desc score_of x l).
Proof.
  unfold descending. intros Hx Hl Hd. revert Hl.
  induction Hd as [|y l Hl IH Hy]; intros Hc; simpl.
  - repeat constructor.
  - apply Forall_cons in Hc as [Hyn Hc].
    unfold key_lt. destruct (float_lt _ _) eqn:Hlt.
    + constructor; [by apply IH|].
      rewrite insert_desc_perm. constructor; [|done].
      apply float_nlt_le; [done..|]. by apply float_lt_asym.
    + constructor; [by constructor|].
      constructor; [by apply float_nlt_le|].
      rewrite Forall_forall in Hy, Hc. apply Forall_forall. intros z Hz.
      apply float_nlt_le; [done|by apply Hc|].
      eapply (float_nlt_trans _ (score_of y)); [done..|by apply Hc| |].
      * done.
      * by apply float_le_nlt, Hy.
Qed.

Lemma sort_desc_descending l :
  comparable score_of l → descending score_of (sort_desc score_of l).
Proof.
  induction 1 as [|x l Hx Hl IH]; simpl; [constructor|].
  apply insert_desc_descending; [done| |done].
  by eapply comparable_perm; [symmetry; apply sort_desc_perm|].
Qed.

(** Stability: an element only overtakes elements of another score. *)
Lemma with_score_insert q x l :
  with_score score_of q (insert_desc score_of x l) = with_score score_of q (x :: l).
Proof.
  unfold with_score. induction l as [|y l IH]; simpl; [done|].
  unfold key_lt. destruct (float_lt _ _) eqn:Hlt; [|done].
  rewrite (filter_cons _ y), IH, !filter_cons.
  destruct (decide (float_eq (score_of y) q = true)) as [Hy|Hy];
    destruct (decide (float_eq (score_of x) q = true)) as [Hx|Hx]; try done.
  by rewrite (float_eq_not_lt _ _ _ Hx Hy) in Hlt.
Qed.

Lemma sort_desc_stable q l :
  with_score score_of q (sort_desc score_of l) = with_score score_of q l.
Proof.
  induction l as [|x l IH]; simpl; [done|].
  rewrite with_score_insert. unfold with_score in *.
  by rewrite !filter_cons, IH.
Qed.

Lemma descending_head x y l :
  is_nan (score_of x) = false →
  descending score_of (x :: l) → y ∈ x :: l →
  float_le (score_of y) (score_of x) = true.
Proof.
  intros Hn Hd Hy. apply StronglySorted_inv in Hd as [_ Hx].
  apply elem_of_cons in Hy as [->|Hy].
  - unfold float_le. by rewrite float_eq_refl, orb_true_r.
  - by eapply Forall_forall in Hx.
Qed.

Lemma with_score_head x l :
  is_nan (score_of x) = false →
  with_score score_of (score_of x) (x :: l)
  = x :: with_score score_of (score_of x) l.
Proof.
  intros Hn. unfold with_score. rewrite filter_cons.
  destruct (decide _) as [|Hne]; [done|].
  destruct Hne. by apply float_eq_refl.
Qed.

Lemma with_score_elem q x l : x ∈ with_score score_of q l → x ∈ l.
Proof. unfold with_score. rewrite list_elem_of_filter. tauto. Qed.

(** Two descending lists with the same elements of every score, in the same
    order, are equal: the result of a stable sort is determined. *)
Lemma descending_stable_eq l1 l2 :
  comparable score_of l1 → comparable score_of l2 →
  descending score_of l1 → descending score_of l2 →
  (∀ q, with_score score_of q l1 = with_score score_of q l2) →
  l1 = l2.
Proof.
  revert l2. induction l1 as [|x l1 IH]; intros l2 Hc1 Hc2 H1 H2 Heq.
  - destruct l2 as [|y l2]; [done|].
    apply Forall_cons in Hc2 as [Hy _].
    specialize (Heq (score_of y)). by rewrite with_score_head in Heq.
  - apply Forall_cons in Hc1 as [Hxn Hc1].
    destruct l2 as [|y l2].
    { specialize (Heq (score_of x)). by rewrite with_score_head in Heq. }
    apply Forall_cons in Hc2 as [Hyn Hc2].
    assert (x ∈ y :: l2) as Hx.
    { apply (with_score_elem (score_of x)). rewrite <- Heq, with_score_head by done.
      left. }
    assert (y ∈ x :: l1) as Hy.
    { apply (with_score_elem (score_of y)). rewrite Heq, with_score_head by done.
      left. }
    assert (float_eq (score_of y) (score_of x) = true) as Hxy.
    { apply float_le_antisym; by eapply descending_head. }
    assert (x = y) as <-.
    { pose proof (Heq (score_of x)) as H. rewrite with_score_head in H by done.
      unfold with_score in H. rewrite filter_cons in H.
      destruct (decide _) as [|Hne]; [congruence|]. by destruct Hne. }
    f_equal. apply IH; try done.
    + by apply StronglySorted_inv in H1 as [? _].
    + by apply StronglySorted_inv in H2 as [? _].
    + intros q. specialize (Heq q). unfold with_score in *.
      rewrite !filter_cons in Heq. destruct (decide _); congruence.
Qed.

Lemma sort_desc_unique l l' :
  comparable score_of l → comparable score_of l' →
  descending score_of l' →
  (∀ q, with_score score_of q l' = with_score score_of q l) →
  l' = sort_desc score_of l.
Proof.
  intros Hc Hc' Hd Hs. apply descending_stable_eq; try done.
  - by eapply comparable_perm; [symmetry; apply sort_desc_perm|].
  - by apply sort_desc_descending.
  - intros q. by rewrite sort_desc_stable.
Qed.

(** Elements of equal score keep their relative order. *)
Lemma sort_desc_keeps_order x y l :
  float_eq (score_of x) (score_of y) = true →
  [x; y] `sublist_of` l → [x; y] `sublist_of` sort_desc score_of l.
Proof.
  intros Hxy Hsub.
  transitivity (with_score score_of (score_of y) (sort_desc score_of l)).
  - rewrite sort_desc_stable.
    assert ([x; y] = with_score score_of (score_of y) [x; y]) as ->.
    { unfold with_score. rewrite !filter_cons, filter_nil.
      destruct (decide _) as [|Hne]; [|by destruct Hne].
      destruct (decide _) as [|Hne]; [done|].
      destruct Hne. apply float_eq_refl. by destruct (score_of x), (score_of y). }
    by apply filter_sublist_mono.
  - apply sublist_filter.
Qed.

(** *** What [list.sort] leaves is a permutation, whatever the keys *)

Lemma binarysort_perm sorted rest :
  binarysort score_of sorted rest ≡ₚ sorted ++ rest.
Proof.
  revert sorted. induction rest as [|pivot rest IH]; intros sorted; simpl.
  - by rewrite app_nil_r.
  - rewrite IH, <- (Permutation_middle (take _ sorted)), take_drop. simpl.
    apply Permutation_middle.
Qed.

Lemma list_sort_perm l : list_sort score_of l ≡ₚ l.
Proof.
  unfold list_sort. destruct (count_run score_of l) as [n desc].
  rewrite binarysort_perm.
  destruct desc; rewrite ?reverse_Permutation; by rewrite take_drop.
Qed.

Lemma list_sort_reverse_perm l : list_sort_reverse score_of l ≡ₚ l.
Proof.
  unfold list_sort_reverse. by rewrite reverse_Permutation, list_sort_perm,
    reverse_Permutation.
Qed.

Lemma list_sort_reverse_length l : length (list_sort_reverse score_of l) = length l.
Proof. by rewrite list_sort_reverse_perm. Qed.

(** *** Without nan the binary insertion is the stable insertion *)

Lemma bisect_spec fuel pivot a (lo hi : nat) :
  ascending score_of a → comparable score_of (pivot :: a) →
  (lo < hi ≤ length a)%nat → (hi - lo ≤ fuel)%nat →
  Forall (λ y, key_lt score_of pivot y = false) (take lo a) →
  Forall (λ y, key_lt score_of pivot y = true) (drop hi a) →
  let k := bisect score_of fuel pivot a lo hi in
  Forall (λ y, key_lt score_of pivot y = false) (take k a) ∧
  Forall (λ y, key_lt score_of pivot y = true) (drop k a).
Proof.
  intros Hasc Hcomp. apply Forall_cons in Hcomp as [Hpn Hcomp].
  revert lo hi. induction fuel as [|fuel IH]; intros lo hi Hlr Hfuel Hlow Hhigh; [lia|].
  cbn [bisect]. remember (lo + (hi - lo) / 2)%nat as p eqn:Hpdef.
  pose proof (Nat.Div0.mul_div_le (hi - lo) 2) as Hdiv1.
  pose proof (Nat.mul_succ_div_gt (hi - lo) 2 ltac:(lia)) as Hdiv2.
  assert (lo ≤ p < hi)%nat as Hpr by lia.
  destruct (lookup_lt_is_Some_2 a p) as [y Hy]; [lia|]. rewrite Hy.
  pose proof (take_drop_middle a p y Hy) as Hmid.
  assert (is_nan (score_of y) = false) as Hyn.
  { unfold comparable in Hcomp. rewrite Forall_forall in Hcomp.
    by eapply Hcomp, list_elem_of_lookup_2. }
  unfold ascending in Hasc. rewrite <- Hmid in Hasc.
  apply StronglySorted_app in Hasc as (Hle & _ & Hright).
  apply StronglySorted_cons in Hright as [Hright _].
  assert (comparable score_of (take p a) ∧ comparable score_of (drop (S p) a))
    as [Hc1 Hc2].
  { unfold comparable in *. rewrite <- Hmid in Hcomp.
    apply Forall_app in Hcomp as [? [_ ?]%Forall_cons]. done. }
  unfold comparable in Hc1, Hc2.
  destruct (key_lt score_of pivot y) eqn:Hlt.
  - assert (Forall (λ z, key_lt score_of pivot z = true) (drop p a)) as Hhigh'.
    { rewrite (drop_S a y p Hy). constructor; [done|].
      rewrite Forall_forall in Hright, Hc2. apply Forall_forall. intros z Hz.
      eapply float_lt_le_trans; [by apply Hc2|exact Hlt|by apply Hright]. }
    destruct (lo <? p)%nat eqn:Hlp.
    + apply Nat.ltb_lt in Hlp. apply IH; [lia|lia|done..].
    + apply Nat.ltb_ge in Hlp. assert (p = lo) as -> by lia. done.
  - assert (Forall (λ z, key_lt score_of pivot z = false) (take (S p) a)) as Hlow'.
    { rewrite (take_S_r a p y Hy). apply Forall_app. split; [|by repeat constructor].
      rewrite Forall_forall in Hc1. apply Forall_forall. intros z Hz.
      eapply (float_nlt_trans _ (score_of y)); [done..|by apply Hc1|exact Hlt|].
      apply Hle; [done|]. by left. }
    destruct (S p <? hi)%nat eqn:Hpr'.
    + apply Nat.ltb_lt in Hpr'. apply IH; [lia|lia|done..].
    + apply Nat.ltb_ge in Hpr'. assert (S p = hi) as <- by lia. done.
Qed.

Lemma with_score_app q l1 l2 :
  with_score score_of q (l1 ++ l2)
  = with_score score_of q l1 ++ with_score score_of q l2.
Proof. apply filter_app. Qed.

Lemma insert_spec pivot sorted :
  ascending score_of sorted → comparable score_of (pivot :: sorted) →
  let k := bisect score_of (length sorted) pivot sorted 0 (length sorted) in
  ascending score_of (take k sorted ++ pivot :: drop k sorted) ∧
  ∀ q, with_score score_of q (take k sorted ++ pivot :: drop k sorted)
       = with_score score_of q (sorted ++ [pivot]).
Proof.
  intros Hasc Hcomp k.
  assert (Forall (λ y, key_lt score_of pivot y = false) (take k sorted) ∧
          Forall (λ y, key_lt score_of pivot y = true) (drop k sorted)) as [Hlow Hhigh].
  { subst k. destruct sorted as [|x sorted]; [by split|].
    apply bisect_spec; [done|done|simpl; lia|simpl; lia|by constructor|].
    by rewrite drop_all. }
  rewrite Forall_forall in Hlow, Hhigh.
  pose proof Hasc as Hasc'. unfold ascending in Hasc'.
  rewrite <- (take_drop k sorted) in Hasc'.
  apply StronglySorted_app in Hasc' as (Hcross & Hs1 & Hs2). split.
  - apply StronglySorted_app_2; [|done|].
    + intros x1 x2 Hx1 [->|Hx2]%elem_of_cons; [by apply Hlow|by apply Hcross].
    + constructor; [done|]. apply Forall_forall. intros z Hz.
      by apply float_lt_asym, Hhigh.
  - intros q. rewrite <- (take_drop k sorted) at 3.
    rewrite !with_score_app. rewrite <- app_assoc. f_equal.
    unfold with_score. rewrite !filter_cons, filter_nil.
    destruct (decide (float_eq (score_of pivot) q = true)) as [Hp|Hp].
    + assert (filter (λ x, float_eq (score_of x) q = true) (drop k sorted) = [])
        as ->; [|done].
      apply filter_none, Forall_forall. intros z Hz Hzq.
      pose proof (Hhigh z Hz) as Hlt. unfold key_lt in Hlt.
      by rewrite (float_eq_not_lt _ _ _ Hp Hzq) in Hlt.
    + by rewrite app_nil_r.
Qed.

Lemma binarysort_spec sorted rest :
  ascending score_of sorted → comparable score_of (sorted ++ rest) →
  ascending score_of (binarysort score_of sorted rest) ∧
  ∀ q, with_score score_of q (binarysort score_of sorted rest)
       = with_score score_of q (sorted ++ rest).
Proof.
  revert sorted. induction rest as [|pivot rest IH]; intros sorted Hasc Hcomp.
  - simpl. by rewrite app_nil_r.
  - cbn [binarysort].
    assert (comparable score_of (pivot :: sorted)) as Hps.
    { unfold comparable in *. apply Forall_app in Hcomp as [? [? _]%Forall_cons].
      by constructor. }
    destruct (insert_spec pivot sorted Hasc Hps) as [Hasc' Hstable].
    destruct (IH _ Hasc') as [Hasc'' Hstable''].
    { eapply comparable_perm; [|exact Hcomp].
      rewrite <- (Permutation_middle (take _ sorted)). simpl. rewrite take_drop.
      symmetry. apply Permutation_middle. }
    split; [done|]. intros q. rewrite Hstable'', with_score_app, Hstable.
    by rewrite <- with_score_app, <- app_assoc.
Qed.

(** *** The run at the head of the list *)

Lemma run_ascending prev l :
  comparable score_of (prev :: l) →
  ascending score_of (prev :: take (run_length score_of false prev l) l).
Proof.
  revert prev. induction l as [|x l IH]; intros prev Hc.
  - repeat constructor.
  - apply Forall_cons in Hc as [Hp Hc]. pose proof Hc as [Hx Hl]%Forall_cons.
    cbn [run_length]. destruct (key_lt score_of x prev) eqn:Hlt; simpl.
    + repeat constructor.
    + specialize (IH x Hc). constructor; [done|]. constructor; [done|].
      apply StronglySorted_cons in IH as [IH _].
      rewrite Forall_forall in IH. apply Forall_forall. intros z Hz.
      eapply (float_nlt_trans _ (score_of x)); [|done..|by apply IH|done].
      unfold comparable in Hl. rewrite Forall_forall in Hl. apply Hl.
      apply elem_of_take in Hz as (i & Hz & _). by eapply list_elem_of_lookup_2.
Qed.

Lemma run_descending prev l :
  StronglySorted (λ x y, key_lt score_of y x = true)
    (prev :: take (run_length score_of true prev l) l).
Proof.
  revert prev. induction l as [|x l IH]; intros prev.
  - repeat constructor.
  - cbn [run_length]. destruct (key_lt score_of x prev) eqn:Hlt; simpl.
    + specialize (IH x). constructor; [done|]. constructor; [done|].
      apply StronglySorted_cons in IH as [IH _].
      eapply Forall_impl; [exact IH|]. intros z Hz. simpl in Hz.
      by eapply float_lt_trans.
    + repeat constructor.
Qed.

Lemma reverse_run_ascending l :
  StronglySorted (λ x y, key_lt score_of y x = true) l →
  ascending score_of (reverse l).
Proof.
  induction 1 as [|x l Hl IH Hx]; [constructor|].
  rewrite reverse_cons. apply StronglySorted_app_2; [|done|repeat constructor].
  intros x1 x2 Hx1 ->%list_elem_of_singleton. rewrite elem_of_reverse in Hx1.
  rewrite Forall_forall in Hx. apply float_lt_asym. by apply (Hx x1).
Qed.

Lemma reverse_run_stable q l :
  StronglySorted (λ x y, key_lt score_of y x = true) l →
  with_score score_of q (reverse l) = with_score score_of q l.
Proof.
  intros Hl. unfold with_score. rewrite filter_reverse.
  assert (length (filter (λ x, float_eq (score_of x) q = true) l) ≤ 1)%nat as Hlen.
  { induction Hl as [|x l Hl IH Hx]; [simpl; lia|]. rewrite filter_cons.
    destruct (decide _) as [Hxq|]; [|done].
    assert (filter (λ x, float_eq (score_of x) q = true) l = []) as ->; [|simpl; lia].
    apply filter_none, Forall_forall. intros z Hz Hzq.
    rewrite Forall_forall in Hx. pose proof (Hx z Hz) as Hlt. unfold key_lt in Hlt.
    by rewrite (float_eq_not_lt _ _ _ Hzq Hxq) in Hlt. }
  destruct (filter _ l) as [|x [|y l']]; simpl in *; [done..|lia].
Qed.

Lemma count_run_cons x0 x1 l :
  count_run score_of (x0 :: x1 :: l)
  = (S (run_length score_of (key_lt score_of x1 x0) x0 (x1 :: l)),
     key_lt score_of x1 x0).
Proof. cbn [count_run run_length]. by rewrite Bool.eqb_reflx. Qed.

(** *** Without nan [list.sort] is the stable sort *)

Lemma list_sort_spec l :
  comparable score_of l →
  ascending score_of (list_sort score_of l) ∧
  ∀ q, with_score score_of q (list_sort score_of l) = with_score score_of q l.
Proof.
  intros Hc. unfold list_sort.
  destruct l as [|x0 [|x1 l]]; [by split; [constructor|]|by split; [repeat constructor|]|].
  rewrite count_run_cons. set (desc := key_lt score_of x1 x0).
  set (n := run_length score_of desc x0 (x1 :: l)).
  change (take (S n) (x0 :: x1 :: l)) with (x0 :: take n (x1 :: l)).
  change (drop (S n) (x0 :: x1 :: l)) with (drop n (x1 :: l)).
  assert (x0 :: x1 :: l = (x0 :: take n (x1 :: l)) ++ drop n (x1 :: l)) as Hsplit
    by (by rewrite <- app_comm_cons, take_drop).
  destruct desc.
  - pose proof (run_descending x0 (x1 :: l)) as Hrun. fold n in Hrun.
    destruct (binarysort_spec (reverse (x0 :: take n (x1 :: l))) (drop n (x1 :: l)))
      as [Hasc Hstable].
    + by apply reverse_run_ascending.
    + eapply comparable_perm; [|exact Hc]. by rewrite reverse_Permutation, <- Hsplit.
    + split; [done|]. intros q.
      rewrite Hstable, with_score_app, reverse_run_stable by done.
      by rewrite <- with_score_app, <- Hsplit.
  - destruct (binarysort_spec (x0 :: take n (x1 :: l)) (drop n (x1 :: l)))
      as [Hasc Hstable].
    + by apply run_ascending.
    + by rewrite <- Hsplit.
    + split; [done|]. intros q. by rewrite Hstable, <- Hsplit.
Qed.

Lemma ascending_reverse l :
  comparable score_of l → ascending score_of l → descending score_of (reverse l).
Proof.
  intros Hc Ha. induction Ha as [|x l Hl IH Hx]; [constructor|].
  apply Forall_cons in Hc as [Hxn Hc].
  rewrite reverse_cons. apply StronglySorted_app_2; [|by apply IH|repeat constructor].
  intros x1 x2 Hx1 ->%list_elem_of_singleton. rewrite elem_of_reverse in Hx1.
  rewrite Forall_forall in Hx, Hc.
  apply float_nlt_le; [by apply Hc|done|]. by apply Hx.
Qed.

(** Without a nan key [list.sort(reverse=True)] gives the stable descending
    order. *)
Lemma list_sort_reverse_stable l :
  comparable score_of l → list_sort_reverse score_of l = sort_desc score_of l.
Proof.
  intros Hc. assert (comparable score_of (reverse l)) as Hcr.
  { by eapply comparable_perm; [symmetry; apply reverse_Permutation|]. }
  destruct (list_sort_spec (reverse l) Hcr) as [Hasc Hstable].
  apply sort_desc_unique; try done.
  - by eapply comparable_perm; [symmetry; apply list_sort_reverse_perm|].
  - apply ascending_reverse; [|done].
    by eapply comparable_perm; [symmetry; apply list_sort_perm|].
  - intros q. unfold list_sort_reverse, with_score.
    rewrite filter_reverse. fold (with_score score_of q (list_sort score_of (reverse l))).
    rewrite Hstable. unfold with_score. by rewrite filter_reverse, reverse_involutive.
Qed.
End SortFacts.

(** ** The store: reading is stable under allocation *)

Lemma extends_refl s : extends s s.
Proof. by repeat split. Qed.

Lemma extends_trans s1 s2 s3 : extends s1 s2 → extends s2 s3 → extends s1 s3.
Proof.
  intros (?&?&?) (?&?&?). repeat split; by etransitivity.
Qed.

Lemma deref_prefix {A} (c c' : list A) r x :
  c `prefix_of` c' → deref c r = Ok x → deref c' r = Ok x.
Proof.
  rewrite !deref_Ok. intros Hp H. by eapply prefix_lookup_Some.
Qed.

Lemma mapM_deref_prefix {A} (c c' : list A) l v :
  c `prefix_of` c' → mapM (deref c) l = Ok v → mapM (deref c') l = Ok v.
Proof.
  rewrite !mapM_Ok. intros Hp H.
  eapply Forall2_impl; [exact H|]. intros r x. by apply deref_prefix.
Qed.

Lemma content_refs_Ok s t l :
  content_refs s t = Ok l ↔
  ∃ th, thread_objs s !! t = Some th ∧ lists s !! content th = Some l.
Proof.
  unfold content_refs. rewrite bind_Ok. setoid_rewrite deref_Ok. done.
Qed.

Lemma history_Ok s t h :
  history s t = Ok h ↔
  ∃ th l, thread_objs s !! t = Some th ∧ lists s !! content th = Some l ∧
          mapM (deref (dicts s)) l = Ok h.
Proof.
  unfold history. rewrite bind_Ok. setoid_rewrite content_refs_Ok. split.
  - intros (l & (th & Hth & Hl) & Hh). by exists th, l.
  - intros (th & l & Hth & Hl & Hh). exists l. split; [by exists th|done].
Qed.

Lemma thread_value_Ok s t v :
  thread_value s t = Ok v ↔
  ∃ th l h, thread_objs s !! t = Some th ∧ lists s !! content th = Some l ∧
            mapM (deref (dicts s)) l = Ok h ∧ v = (agent_name th, h).
Proof.
  unfold thread_value. rewrite bind_Ok. setoid_rewrite bind_Ok.
  setoid_rewrite history_Ok. setoid_rewrite deref_Ok. split.
  - intros (th & Hth & h & (th' & l & Hth' & Hl & Hh) & [= <-]).
    assert (th' = th) as -> by congruence. naive_solver.
  - intros (th & l & h & ? & ? & ? & ->). naive_solver.
Qed.

Lemma thread_value_history s t v :
  thread_value s t = Ok v → history s t = Ok v.2.
Proof.
  rewrite thread_value_Ok, history_Ok. intros (th & l & h & ? & ? & ? & ->).
  naive_solver.
Qed.

Lemma history_thread_value s t h :
  history s t = Ok h → ∃ v, thread_value s t = Ok v ∧ v.2 = h.
Proof.
  rewrite history_Ok. intros (th & l & ? & ? & ?).
  exists (agent_name th, h). split; [|done]. apply thread_value_Ok. naive_solver.
Qed.

Lemma history_len_Ok s t n :
  history_len s t = Ok n ↔ ∃ l, content_refs s t = Ok l ∧ n = Z.of_nat (length l).
Proof.
  unfold history_len. rewrite bind_Ok. split.
  - intros (l & Hl & [= <-]). by exists l.
  - intros (l & Hl & ->). by exists l.
Qed.

Lemma mapM_Ok_length {A B} (f : A → result B) l out :
  mapM f l = Ok out → length out = length l.
Proof. rewrite mapM_Ok. intros H. symmetry. by eapply Forall2_length. Qed.

Lemma history_history_len s t h :
  history s t = Ok h → history_len s t = Ok (Z.of_nat (length h)).
Proof.
  unfold history, history_len. intros H. ok_bind H as l Hl.
  rewrite Hl. simpl. by rewrite (mapM_Ok_length _ _ _ H).
Qed.

Lemma content_refs_extends s s' t l :
  extends s s' → content_refs s t = Ok l → content_refs s' t = Ok l.
Proof.
  intros (_ & Hl & Ht). rewrite !content_refs_Ok. intros (th & ? & ?).
  exists th. split; by eapply prefix_lookup_Some.
Qed.

Lemma history_len_extends s s' t n :
  extends s s' → history_len s t = Ok n → history_len s' t = Ok n.
Proof.
  intros He. rewrite !history_len_Ok. intros (l & ? & ?).
  exists l. split; [|done]. by eapply content_refs_extends.
Qed.

Lemma history_extends s s' t h :
  extends s s' → history s t = Ok h → history s' t = Ok h.
Proof.
  intros He. rewrite !history_Ok. intros (th & l & ? & ? & ?).
  destruct He as (Hd & Hl & Ht). exists th, l.
  split_and!; [by eapply prefix_lookup_Some..|by eapply mapM_deref_prefix].
Qed.

Lemma thread_value_extends s s' t v :
  extends s s' → thread_value s t = Ok v → thread_value s' t = Ok v.
Proof.
  intros He. rewrite !thread_value_Ok. intros (th & l & h & ? & ? & ? & ->).
  destruct He as (Hd & Hl & Ht). exists th, l, h.
  split_and!; [by eapply prefix_lookup_Some..|by eapply mapM_deref_prefix|done].
Qed.

Lemma latest_score_extends s s' t q :
  extends s s' → latest_score s t = Ok q → latest_score s' t = Ok q.
Proof.
  intros He H. unfold latest_score in *.
  ok_bind H as l Hl. ok_bind H as d Hd. ok_bind H as r Hr.
  rewrite (content_refs_extends _ _ _ _ He Hl). simpl. rewrite Hd. simpl.
  destruct He as (Hp & _). rewrite (deref_prefix _ _ _ _ Hp Hr). done.
Qed.

Lemma allocated_between_extends lo hi s s' t :
  extends s s' → allocated_between lo hi s t → allocated_between lo hi s' t.
Proof.
  intros (_ & Hl & Ht) (th & l & ? & ? & ?). exists th, l.
  split_and!; try tauto; by eapply prefix_lookup_Some.
Qed.

Lemma allocated_between_weaken lo hi lo' hi' s t :
  extends lo' lo → extends hi hi' →
  allocated_between lo hi s t → allocated_between lo' hi' s t.
Proof.
  intros (Hd & Hl & Ht) (Hd' & Hl' & Ht') (th & l & ? & ? & ? & ? & Hall).
  apply prefix_length in Hd, Hl, Ht, Hd', Hl', Ht'.
  exists th, l. split_and!; try done; try lia.
  eapply Forall_impl; [exact Hall|]. simpl. lia.
Qed.

(** A thread that can be read lies within the store. *)
Lemma readable_allocated s t v :
  thread_value s t = Ok v → allocated_between empty_store s s t.
Proof.
  rewrite thread_value_Ok. intros (th & l & h & Ht & Hl & Hh & _).
  exists th, l. split_and!; try done; simpl; try lia.
  - by eapply lookup_lt_Some.
  - by eapply lookup_lt_Some.
  - apply mapM_Ok in Hh. apply Forall_forall. intros d Hd.
    apply list_elem_of_lookup_1 in Hd as [i Hi].
    destruct (Forall2_lookup_l _ _ _ _ _ Hh Hi) as (r & _ & Hr%deref_Ok).
    split; [lia|]. by eapply lookup_lt_Some.
Qed.

(** Threads allocated in disjoint periods share nothing. *)
Lemma allocated_separate lo mid hi s t u :
  extends lo mid → extends mid hi →
  allocated_between lo mid s t → allocated_between mid hi s u →
  separate s t u.
Proof.
  intros _ _ (th & l & Ht & Hl & Hrt & Hrc & Hrd) (uh & k & Hu & Hk & Hru & Hrk & Hre).
  split; [lia|]. intros tht thu Ht' Hu'.
  assert (tht = th) as -> by congruence. assert (thu = uh) as -> by congruence.
  split; [lia|]. intros lt lu Hl' Hk' d Hd Hd'.
  assert (lt = l) as -> by congruence. assert (lu = k) as -> by congruence.
  rewrite Forall_forall in Hrd, Hre.
  specialize (Hrd d Hd). specialize (Hre d Hd'). lia.
Qed.

Lemma separate_sym s t u : separate s t u → separate s u t.
Proof.
  intros [Hne H]. split; [done|]. intros thu tht Hu Ht.
  destruct (H tht thu Ht Hu) as [Hc Hd]. split; [done|].
  intros lu lt Hlu Hlt d Hd1 Hd2. by eapply Hd.
Qed.

(** ** [copy.deepcopy] *)

Lemma deepcopy_items_spec (s0 : Store) l rs :
  Forall2 (λ d r, dicts s0 !! d = Some r) l rs →
  ∀ s memo s' out,
    deepcopy_items s memo (zip l rs) = (s', out) →
    dicts s0 `prefix_of` dicts s →
    (∀ k v, memo_get memo k = Some v →
       (length (dicts s0) ≤ v)%nat ∧
       ∃ r, dicts s0 !! k = Some r ∧ dicts s !! v = Some r) →
    dicts s `prefix_of` dicts s' ∧ lists s' = lists s ∧
    thread_objs s' = thread_objs s ∧
    Forall2 (λ d' r, (length (dicts s0) ≤ d')%nat ∧ dicts s' !! d' = Some r) out rs.
Proof.
  induction 1 as [|d r l rs Hd _ IH]; intros s memo s' out Hc Hp Hmemo; simpl in Hc.
  - injection Hc as <- <-. by repeat split.
  - destruct (memo_get memo d) as [d'|] eqn:Hget.
    + destruct (deepcopy_items s memo (zip l rs)) as [s'' out'] eqn:Hrec.
      injection Hc as <- <-.
      destruct (IH _ _ _ _ Hrec Hp Hmemo) as (Hp' & Hl & Ht & Hall).
      split_and!; try done. constructor; [|done].
      destruct (Hmemo _ _ Hget) as (Hfresh & r' & Hr' & Hv).
      split; [done|]. assert (r' = r) as -> by congruence.
      by eapply prefix_lookup_Some.
    + destruct (deepcopy_items _ _ (zip l rs)) as [s'' out'] eqn:Hrec.
      injection Hc as <- <-.
      apply IH in Hrec as (Hp' & Hl & Ht & Hall); simpl in *.
      * split_and!; try done.
        { etransitivity; [|exact Hp']. by apply prefix_app_r. }
        constructor; [|done]. split; [by apply prefix_length|].
        eapply prefix_lookup_Some; [|exact Hp']. by apply list_lookup_middle.
      * etransitivity; [exact Hp|]. by apply prefix_app_r.
      * intros k v. case_bool_decide as Hk.
        -- intros [= <-]. subst k. split; [by apply prefix_length|].
           exists r. split; [done|]. by apply list_lookup_middle.
        -- intros Hkv. destruct (Hmemo _ _ Hkv) as (? & r' & ? & ?).
           split; [done|]. exists r'. split; [done|].
           by apply lookup_app_l_Some.
Qed.

Lemma deepcopy_spec s t s' t' :
  deepcopy s t = Ok (s', t') →
  extends s s' ∧ allocated_between s s' s' t' ∧
  ∃ v, thread_value s t = Ok v ∧ thread_value s' t' = Ok v.
Proof.
  unfold deepcopy. intros H.
  ok_bind H as a Ha. ok_bind H as a0 Ha0. ok_bind H as a1 Ha1.
  destruct (deepcopy_items s [] (zip a0 a1)) as [s1 l'] eqn:Hitems.
  simpl in H. injection H as <- <-.
  apply deref_Ok in Ha, Ha0. pose proof Ha1 as Hread. apply mapM_Ok in Ha1.
  eapply (deepcopy_items_spec s) in Hitems as (Hp & Hl & Ht & Hall); cycle 1.
  { eapply Forall2_impl; [exact Ha1|]. intros ??. by rewrite deref_Ok. }
  { done. }
  { intros k v. simpl. done. }
  split_and!.
  - repeat split; simpl; [done|rewrite Hl|rewrite Ht]; by apply prefix_app_r.
  - eexists (mkThread (agent_name a) (length (lists s1))), l'. simpl.
    rewrite Ht, Hl. split_and!; rewrite ?length_app; simpl; try lia.
    + by apply list_lookup_middle.
    + by apply list_lookup_middle.
    + apply Forall_forall. intros d Hd.
      apply list_elem_of_lookup_1 in Hd as [i Hi].
      eapply Forall2_lookup_l in Hall as (r & _ & ? & Hr); [|exact Hi].
      split; [done|]. by eapply lookup_lt_Some.
  - exists (agent_name a, a1). split.
    + apply thread_value_Ok. by exists a, a0, a1.
    + apply thread_value_Ok.
      eexists (mkThread (agent_name a) (length (lists s1))), l', a1. simpl.
      rewrite Ht, Hl. split_and!; try done; try by apply list_lookup_middle.
      apply mapM_Ok. eapply Forall2_impl; [exact Hall|].
      intros d' r [_ Hr]. by apply deref_Ok.
Qed.

Lemma deepcopy_total s t v :
  thread_value s t = Ok v → ∃ s' t', deepcopy s t = Ok (s', t').
Proof.
  rewrite thread_value_Ok. intros (th & l & h & Ht & Hl & Hh & _).
  unfold deepcopy. apply deref_Ok in Ht, Hl. rewrite Ht. simpl. rewrite Hl. simpl.
  rewrite Hh. simpl. destruct (deepcopy_items s [] (zip l h)) as [s1 l'].
  simpl. by eexists _, _.
Qed.

(** ** Successive copies *)

Lemma copies_extends s srcs s' out : copies s srcs s' out → extends s s'.
Proof.
  induction 1 as [|s src s1 c srcs s2 out Hc _ IH]; [apply extends_refl|].
  apply deepcopy_spec in Hc as (He & _). by eapply extends_trans.
Qed.

Lemma copies_length s srcs s' out : copies s srcs s' out → length out = length srcs.
Proof. induction 1; simpl; congruence. Qed.

Lemma copies_app s1 a s2 o1 b s3 o2 :
  copies s1 a s2 o1 → copies s2 b s3 o2 → copies s1 (a ++ b) s3 (o1 ++ o2).
Proof.
  induction 1; intros Hb; simpl; [done|]. econstructor; eauto.
Qed.

(** Every copy comes from one [deepcopy] call in a store between the two. *)
Lemma copies_each s srcs s' out :
  copies s srcs s' out →
  Forall2 (λ src c, ∃ si si', extends s si ∧ deepcopy si src = Ok (si', c) ∧
                              extends si' s') srcs out.
Proof.
  induction 1 as [|s src s1 c srcs s2 out Hc Hcs IH]; constructor.
  - exists s, s1. split_and!; [apply extends_refl|done|by eapply copies_extends].
  - eapply Forall2_impl; [exact IH|]. intros src' c' (si & si' & He & Hd & He').
    exists si, si'. split_and!; try done.
    eapply extends_trans; [|exact He]. by apply deepcopy_spec in Hc as (? & _).
Qed.

(** A copy has the value of its source. *)
Lemma copies_values s srcs s' out :
  copies s srcs s' out →
  Forall (λ t, is_ok (thread_value s t) = true) srcs →
  Forall2 (λ src c, ∃ v, thread_value s src = Ok v ∧ thread_value s' c = Ok v)
    srcs out.
Proof.
  intros Hc%copies_each Hok. apply Forall2_same_length_lookup.
  split; [by eapply Forall2_length|]. intros i src c Hsrc Hout.
  destruct (Forall2_lookup_lr _ _ _ _ _ _ Hc Hsrc Hout)
    as (si & si' & He & Hd & He').
  rewrite Forall_forall in Hok.
  destruct (proj1 (is_ok_Ok _) (Hok src (list_elem_of_lookup_2 _ _ _ Hsrc))) as [v Hv].
  exists v. split; [done|].
  apply deepcopy_spec in Hd as (_ & _ & v' & Hv1 & Hv2).
  rewrite (thread_value_extends _ _ _ _ He Hv) in Hv1. injection Hv1 as <-.
  by eapply thread_value_extends.
Qed.

(** A copy has the history length of its source. *)
Lemma copies_history_len s srcs s' out k :
  copies s srcs s' out →
  Forall (λ t, history_len s t = Ok k) srcs →
  Forall (λ c, history_len s' c = Ok k) out.
Proof.
  intros Hc%copies_each Hk. apply Forall_forall. intros c Hin.
  apply list_elem_of_lookup_1 in Hin as [i Hi].
  destruct (Forall2_lookup_r _ _ _ _ _ Hc Hi) as (src & Hsrc & si & si' & He & Hd & He').
  rewrite Forall_forall in Hk.
  assert (history_len s src = Ok k) as Hlen by (eapply Hk, list_elem_of_lookup_2, Hsrc).
  apply deepcopy_spec in Hd as (_ & _ & v & Hv1 & Hv2).
  apply thread_value_history, history_history_len in Hv1, Hv2.
  rewrite (history_len_extends _ _ _ _ He Hlen) in Hv1. injection Hv1 as ->.
  by eapply history_len_extends.
Qed.

Lemma copies_allocated s srcs s' out :
  copies s srcs s' out → Forall (allocated_between s s' s') out.
Proof.
  induction 1 as [|s src s1 c srcs s2 out Hc Hcs IH]; constructor.
  - apply deepcopy_spec in Hc as (He & Ha & _).
    pose proof (copies_extends _ _ _ _ Hcs) as He'.
    eapply allocated_between_weaken; [apply extends_refl|exact He'|].
    by eapply allocated_between_extends.
  - apply deepcopy_spec in Hc as (He & _).
    eapply Forall_impl; [exact IH|]. intros c'.
    apply allocated_between_weaken; [done|apply extends_refl].
Qed.

(** Two copies share no mutable object. *)
Lemma copies_separate s srcs s' out i j ci cj :
  copies s srcs s' out → i ≠ j →
  out !! i = Some ci → out !! j = Some cj → separate s' ci cj.
Proof.
  intros Hc. revert i j. induction Hc as [|s src s1 c srcs s2 out Hc Hcs IH];
    intros i j Hij Hi Hj; [done|].
  pose proof (copies_allocated _ _ _ _ Hcs) as Hall. rewrite Forall_forall in Hall.
  pose proof (copies_extends _ _ _ _ Hcs) as He'.
  apply deepcopy_spec in Hc as (He & Ha & _).
  pose proof (allocated_between_extends _ _ _ _ _ He' Ha) as Ha'.
  destruct i as [|i], j as [|j]; simpl in *; try done.
  - injection Hi as <-. eapply allocated_separate; [exact He|exact He'|done|].
    by eapply Hall, list_elem_of_lookup_2.
  - injection Hj as <-. apply separate_sym.
    eapply allocated_separate; [exact He|exact He'|done|].
    by eapply Hall, list_elem_of_lookup_2.
  - eapply IH; [|done..]. congruence.
Qed.

(** A copy shares nothing with a thread that could be read before. *)
Lemma copies_separate_old s srcs s' out c o v :
  copies s srcs s' out → c ∈ out → thread_value s o = Ok v → separate s' c o.
Proof.
  intros Hc Hin Hv. apply separate_sym.
  pose proof (copies_extends _ _ _ _ Hc) as He.
  eapply (allocated_separate empty_store s s'); [|done|..].
  - repeat split; apply prefix_nil.
  - eapply allocated_between_extends; [exact He|]. by eapply readable_allocated.
  - apply copies_allocated in Hc. rewrite Forall_forall in Hc. by apply Hc.
Qed.

Lemma copies_total s srcs :
  Forall (λ t, is_ok (thread_value s t) = true) srcs →
  ∃ s' out, copies s srcs s' out.
Proof.
  revert s. induction srcs as [|src srcs IH]; intros s Hok.
  - eexists _, _. constructor.
  - apply Forall_cons in Hok as [[v Hv]%is_ok_Ok Hok].
    destruct (deepcopy_total _ _ _ Hv) as (s1 & c & Hd).
    destruct (IH s1) as (s2 & out & Hc).
    { eapply Forall_impl; [exact Hok|]. intros t [w Hw]%is_ok_Ok.
      apply deepcopy_spec in Hd as (He & _).
      by rewrite (thread_value_extends _ _ _ _ He Hw). }
    eexists _, _. econstructor; eauto.
Qed.

Lemma copies_functional s srcs s1 o1 s2 o2 :
  copies s srcs s1 o1 → copies s srcs s2 o2 → s1 = s2 ∧ o1 = o2.
Proof.
  intros H. revert s2 o2. induction H as [|s src sa c srcs sb out Hc _ IH];
    intros s2 o2 H2.
  - by inversion H2.
  - inversion H2 as [|? ? sa' c' ? ? out' Hc' Hrest]; subst.
    rewrite Hc in Hc'. injection Hc' as <- <-.
    by destruct (IH _ _ Hrest) as [-> ->].
Qed.

(** ** The loops of [beam_search_agent] *)

Lemma append_copy_copies s r s' out :
  append_copy s r = Ok (s', out) → copies s [r] s' out.
Proof.
  unfold append_copy. intros H. ok_bind H as p Hp. destruct p as [s1 c].
  simpl in H. injection H as <- <-. econstructor; [done|constructor].
Qed.

Lemma inner_loop_copies {X} r (xs : list X) : ∀ s s' out,
  for_each (λ s _, append_copy s r) s xs = Ok (s', out) →
  copies s (replicate (length xs) r) s' out.
Proof.
  induction xs as [|x xs IH]; intros s s' out H; simpl in H.
  - injection H as <- <-. constructor.
  - ok_bind H as p Hp. destruct p as [s1 o1]. simpl in H.
    ok_bind H as p' Hp'. destruct p' as [s2 o2]. simpl in H.
    injection H as <- <-.
    apply append_copy_copies in Hp. apply IH in Hp'.
    by apply (copies_app _ [r] _ _ _ _ _ Hp).
Qed.

Lemma outer_loop_copies threads beams best : ∀ s s' out,
  for_each (λ s response,
      n ← Py.floordiv threads beams;
      for_each (λ s _, append_copy s response) s (Py.range n)) s best
  = Ok (s', out) →
  copies s (best ≫= replicate (Z.to_nat (threads `div` beams))) s' out.
Proof.
  induction best as [|r best IH]; intros s s' out H; simpl in H.
  - injection H as <- <-. constructor.
  - ok_bind H as p Hp. destruct p as [s1 o1]. simpl in H.
    ok_bind H as p' Hp'. destruct p' as [s2 o2]. simpl in H.
    injection H as <- <-.
    ok_bind Hp as n Hn. unfold Py.floordiv in Hn.
    case_bool_decide; [done|]. injection Hn as <-.
    apply inner_loop_copies in Hp. rewrite range_length in Hp.
    apply IH in Hp'. by apply (copies_app _ _ _ _ _ _ _ Hp).
Qed.

Lemma second_loop_copies best k : ∀ a s s' out,
  for_each (λ s i, response ← Py.index best i; append_copy s response) s
    (Z.of_nat <$> seq a k) = Ok (s', out) →
  copies s (take k (drop a best)) s' out ∧ (k = 0 ∨ a + k ≤ length best)%nat.
Proof.
  induction k as [|k IH]; intros a s s' out H; simpl in H.
  - injection H as <- <-. split; [constructor|by left].
  - ok_bind H as p Hp. destruct p as [s1 o1]. simpl in H.
    ok_bind H as p' Hp'. destruct p' as [s2 o2]. simpl in H.
    injection H as <- <-.
    ok_bind Hp as r Hr. rewrite index_nonneg in Hr. apply or_raise_Ok in Hr.
    apply append_copy_copies in Hp. apply IH in Hp' as [Hc Hlen].
    rewrite (drop_S _ _ _ Hr). simpl. split.
    + by apply (copies_app _ [r] _ _ _ _ _ Hp).
    + right. apply lookup_lt_Some in Hr. lia.
Qed.

Lemma for_each_total {X} (body : Store → X → result (Store * list ref))
    (I : Store → Prop) xs :
  (∀ s x, I s → x ∈ xs → ∃ s1 out, body s x = Ok (s1, out) ∧ I s1) →
  ∀ s, I s → ∃ s' out, for_each body s xs = Ok (s', out) ∧ I s'.
Proof.
  induction xs as [|x xs IH]; intros Hbody s Hs; simpl.
  - by eexists _, _.
  - destruct (Hbody s x Hs) as (s1 & o1 & -> & Hs1); [left|]. simpl.
    destruct (IH (λ s y HI Hy, Hbody s y HI (list_elem_of_further _ _ _ Hy)) s1 Hs1)
      as (s2 & o2 & -> & Hs2).
    simpl. by eexists _, _.
Qed.

Lemma sort_keys_Ok s rs ks :
  sort_keys s rs = Ok ks ↔
  Forall2 (λ t kt, latest_score s t = Ok kt.1 ∧ kt.2 = t) rs ks.
Proof.
  unfold sort_keys. rewrite mapM_Ok.
  split; intros H; (eapply Forall2_impl; [exact H|]); intros t [q t']; simpl;
    rewrite bind_Ok.
  - intros (q' & Hq & [= <- <-]). done.
  - intros [Hq ->]. by exists q.
Qed.

Lemma sort_keys_refs s rs ks : sort_keys s rs = Ok ks → ks.*2 = rs.
Proof.
  rewrite sort_keys_Ok. induction 1 as [|t kt rs ks [_ Ht] _ IH]; [done|].
  rewrite fmap_cons. by f_equal.
Qed.

Lemma sorted_responses_perm s rs sorted :
  sorted_responses s rs = Ok sorted → sorted ≡ₚ rs.
Proof.
  unfold sorted_responses. intros H. ok_bind H as ks Hks. injection H as <-.
  rewrite list_sort_reverse_perm. by rewrite (sort_keys_refs _ _ _ Hks).
Qed.

(** What a call that returns has done. *)
Lemma beam_search_agent_Ok s state s' upd :
  beam_search_agent s state = Ok (s', upd) →
  ∃ rs sorted b n final,
    responses state = Some rs ∧ sorted_responses s rs = Ok sorted ∧
    beams state = Some b ∧ threads state = Some n ∧ b ≠ 0 ∧
    copies s (replicated n b (Py.slice_to sorted b)) s' final ∧
    (Z.to_nat (n `mod` b) ≤ length (Py.slice_to sorted b))%nat ∧
    upd = mkState None None (Some final) None None None None None None
            (Some 0) (Some (Py.slice_from sorted b)) None None.
Proof.
  unfold beam_search_agent. intros H.
  ok_bind H as rs Hrs. ok_bind H as sorted Hsorted.
  ok_bind H as b Hb. ok_bind H as n Hn.
  ok_bind H as p1 H1. destruct p1 as [s1 final1]. simpl in H.
  ok_bind H as m Hm. ok_bind H as p2 H2. destruct p2 as [s2 final2]. simpl in H.
  injection H as <- <-.
  apply key_Ok in Hrs, Hb, Hn.
  unfold Py.mod_ in Hm. case_bool_decide as Hb0; [done|]. injection Hm as <-.
  apply outer_loop_copies in H1.
  apply second_loop_copies in H2 as [H2 Hlen]. rewrite drop_0 in H2.
  exists rs, sorted, b, n, (final1 ++ final2). split_and!; try done.
  - by eapply copies_app.
  - lia.
Qed.

Lemma scored_readable s t : scored s t = true → is_ok (thread_value s t) = true.
Proof. unfold scored. by intros [? _]%andb_true_iff. Qed.

Lemma scored_latest s t : scored s t = true → ∃ q, latest_score s t = Ok q.
Proof.
  unfold scored. intros [_ H]%andb_true_iff.
  destruct (latest_score s t); [by eexists|done].
Qed.

(** A call on scored threads returns, when the remainder fits the beam. *)
Lemma beam_search_agent_total s state rs b n :
  responses state = Some rs → beams state = Some b → threads state = Some n →
  b ≠ 0 → forallb (scored s) rs = true →
  (Z.to_nat (n `mod` b) ≤ Py.bound rs b)%nat →
  ∃ s' upd, beam_search_agent s state = Ok (s', upd).
Proof.
  intros Hrs Hb Hn Hb0 Hscored Hfit.
  rewrite forallb_elem in Hscored.
  destruct (mapM_is_Ok (λ x, k ← latest_score s x; Ok (k, x)) rs) as [ks Hks].
  { apply Forall_forall. intros t Ht.
    destruct (scored_latest s t) as [q Hq]; [by apply Hscored|].
    rewrite Hq. by eexists. }
  unfold beam_search_agent, sorted_responses, sort_keys.
  rewrite Hrs. ok_simpl. rewrite Hks. ok_simpl. rewrite Hb, Hn. ok_simpl.
  set (sorted := (list_sort_reverse fst ks).*2).
  assert (sorted ≡ₚ rs) as Hperm.
  { unfold sorted. rewrite list_sort_reverse_perm. by rewrite (sort_keys_refs s rs ks). }
  assert (∀ t s1, t ∈ Py.slice_to sorted b → extends s s1 →
          ∃ s2 out, append_copy s1 t = Ok (s2, out) ∧ extends s s2) as Hcopy.
  { intros t s1 Ht He. unfold Py.slice_to in Ht. apply elem_of_take in Ht as (i & Ht & _).
    apply list_elem_of_lookup_2 in Ht. rewrite Hperm in Ht.
    destruct (proj1 (is_ok_Ok _) (scored_readable s t (Hscored t Ht))) as [v Hv].
    destruct (deepcopy_total s1 t v) as (s2 & c & Hd);
      [by eapply thread_value_extends|].
    unfold append_copy. rewrite Hd. simpl. eexists _, _. split; [done|].
    apply deepcopy_spec in Hd as (? & _). by eapply extends_trans. }
  edestruct (for_each_total
    (λ s response, n' ← Py.floordiv n b;
       for_each (λ s _, append_copy s response) s (Py.range n'))
    (extends s) (Py.slice_to sorted b)) as (s1 & final1 & -> & He1).
  { intros s0 t He Ht. unfold Py.floordiv. rewrite bool_decide_eq_false_2 by done.
    simpl. apply for_each_total; [|done]. intros s1 _ He1 _. by apply Hcopy. }
  { apply extends_refl. }
  simpl. unfold Py.mod_. rewrite bool_decide_eq_false_2 by done. simpl.
  edestruct (for_each_total
    (λ s i, response ← Py.index (Py.slice_to sorted b) i; append_copy s response)
    (extends s) (Py.range (n `mod` b))) as (s2 & final2 & -> & He2); [|exact He1|].
  { intros s0 i He Hi. unfold Py.range in Hi.
    apply list_elem_of_fmap in Hi as (k & -> & Hk%elem_of_seq).
    rewrite index_nonneg.
    assert (length (Py.slice_to sorted b) = Py.bound rs b) as Hlen.
    { rewrite slice_to_length. apply bound_length. by rewrite Hperm. }
    destruct (lookup_lt_is_Some_2 (Py.slice_to sorted b) k) as [t Ht]; [lia|].
    rewrite Ht. simpl. apply Hcopy; [|done]. by eapply list_elem_of_lookup_2. }
  simpl. by eexists _, _.
Qed.

(** ** Selection on a scored population *)

Lemma bind_replicate_length {A} (l : list A) (q : nat) :
  length (l ≫= replicate q) = (length l * q)%nat.
Proof.
  induction l as [|x l IH]; [done|].
  rewrite bind_cons, length_app, length_replicate, IH. simpl. lia.
Qed.

Lemma replicated_length threads beams (best : list ref) :
  0 < beams → 0 <= threads → Z.of_nat (length best) = beams →
  Z.of_nat (length (replicated threads beams best)) = threads.
Proof.
  intros Hb Hn Hlen. unfold replicated.
  rewrite length_app, bind_replicate_length, length_take.
  pose proof (Z.div_mod threads beams ltac:(lia)) as Hdm.
  pose proof (Z.mod_pos_bound threads beams Hb) as Hm.
  pose proof (Z.div_pos threads beams Hn Hb) as Hq.
  rewrite Nat2Z.inj_add, Nat2Z.inj_mul, Nat2Z.inj_min, Hlen, !Z2Nat.id by lia.
  lia.
Qed.

(** The threads are scored: the call returns, and the new population is made
    of copies of the replicated best threads. *)
Lemma beam_search_agent_scored s state rs n b :
  responses state = Some rs → threads state = Some n → beams state = Some b →
  b ≠ 0 → (Z.to_nat (n `mod` b) ≤ Py.bound rs b)%nat →
  forallb (scored s) rs = true →
  ∃ ks s' final,
    sort_keys s rs = Ok ks ∧
    beam_search_agent s state
    = Ok (s', mkState None None (Some final) None None None None None None (Some 0)
                (Some (Py.slice_from (list_sort_reverse fst ks).*2 b)) None None) ∧
    copies s (replicated n b (Py.slice_to (list_sort_reverse fst ks).*2 b)) s' final.
Proof.
  intros Hrs Hn Hb Hb0 Hfit Hscored.
  destruct (beam_search_agent_total s state rs b n) as (s' & upd & Hrun); try done.
  destruct (beam_search_agent_Ok _ _ _ _ Hrun)
    as (rs' & sorted & b' & n' & final & Hrs' & Hsorted & Hb' & Hn' & _ & Hc & _ & ->).
  assert (rs' = rs) as -> by congruence.
  assert (b' = b) as -> by congruence. assert (n' = n) as -> by congruence.
  unfold sorted_responses in Hsorted. ok_bind Hsorted as ks Hks.
  injection Hsorted as <-. by exists ks, s', final.
Qed.

Lemma StronglySorted_fmap_impl {A B} (R : relation A) (R' : relation B)
    (f : A → B) (l : list A) :
  (∀ x y, x ∈ l → y ∈ l → R x y → R' (f x) (f y)) →
  StronglySorted R l → StronglySorted R' (f <$> l).
Proof.
  intros HR Hl. induction Hl as [|x l Hl IH Hx]; [constructor|].
  rewrite fmap_cons. constructor.
  - apply IH. intros y z Hy Hz. apply HR; by right.
  - apply Forall_fmap, Forall_forall. intros y Hy.
    rewrite Forall_forall in Hx. apply HR; [left|by right|by apply Hx].
Qed.

Lemma sort_keys_comparable s rs ks :
  sort_keys s rs = Ok ks → forallb (latest_not_nan s) rs = true →
  comparable fst ks.
Proof.
  rewrite sort_keys_Ok, forallb_elem. intros Hks Hnan.
  apply Forall_forall. intros [q t] [i Hi]%list_elem_of_lookup_1.
  destruct (Forall2_lookup_r _ _ _ _ _ Hks Hi) as (t' & Ht' & Hq & Heq).
  simpl in Heq. subst t'.
  specialize (Hnan t (list_elem_of_lookup_2 _ _ _ Ht')).
  unfold latest_not_nan in Hnan. rewrite Hq in Hnan. simpl in *.
  by apply negb_true_iff.
Qed.

Lemma sorted_by_score s rs ks :
  sort_keys s rs = Ok ks → comparable fst ks →
  StronglySorted (scores_at_least s) (list_sort_reverse fst ks).*2.
Proof.
  intros Hks Hc. rewrite list_sort_reverse_stable by done.
  eapply StronglySorted_fmap_impl; [|by apply sort_desc_descending].
  intros [qx x] [qy y] Hx Hy Hle. simpl in *.
  rewrite sort_desc_perm in Hx, Hy.
  apply sort_keys_Ok in Hks.
  apply list_elem_of_lookup_1 in Hx as [i Hi], Hy as [j Hj].
  destruct (Forall2_lookup_r _ _ _ _ _ Hks Hi) as (? & _ & Hqx & <-).
  destruct (Forall2_lookup_r _ _ _ _ _ Hks Hj) as (? & _ & Hqy & <-).
  by exists qx, qy.
Qed.

Lemma copies_NoDup s srcs s' out : copies s srcs s' out → NoDup out.
Proof.
  intros Hc. apply NoDup_alt. intros i j c Hi Hj.
  destruct (decide (i = j)) as [|Hij]; [done|].
  by destruct (copies_separate _ _ _ _ _ _ _ _ Hc Hij Hi Hj) as [? _].
Qed.

Lemma copies_fresh s srcs s' out :
  copies s srcs s' out → Forall (λ c, (length (thread_objs s) ≤ c)%nat) out.
Proof.
  intros Hc%copies_allocated. eapply Forall_impl; [exact Hc|].
  intros c (? & ? & _ & _ & ? & _). lia.
Qed.

Lemma run_beam_search_Ok s state s' state' :
  run_beam_search s state = Ok (s', state') ↔
  ∃ upd, beam_search_agent s state = Ok (s', upd) ∧ state' = merge state upd.
Proof.
  unfold run_beam_search. rewrite bind_Ok. split.
  - intros ([s1 upd] & H & [= <- <-]). by exists upd.
  - intros (upd & H & ->). by exists (s', upd).
Qed.

(** C1: for every population whose thread list has length [threadCount] and
    every [beamWidth] with [1 <= beamWidth <= threadCount], the population
    that a beam-search selection call returns has exactly [threadCount]
    threads; and the call does return when every thread is scored. *)
Theorem beam_search_population_size (s : Store) (state : GraphState)
    (rs : list ref) (threadCount beamWidth : Z) :
  responses state = Some rs →
  threads state = Some threadCount →
  beams state = Some beamWidth →
  Z.of_nat (length rs) = threadCount →
  1 <= beamWidth <= threadCount →
  (∀ s' state', run_beam_search s state = Ok (s', state') →
     ∃ rs', responses state' = Some rs' ∧ Z.of_nat (length rs') = threadCount)
  ∧ (forallb (scored s) rs = true →
     ∃ s' state', run_beam_search s state = Ok (s', state')).
Proof.
  intros Hrs Hn Hb Hlen Hrange. split.
  - intros s' state' (upd & Hrun & ->)%run_beam_search_Ok.
    destruct (beam_search_agent_Ok _ _ _ _ Hrun)
      as (rs' & sorted & b' & n' & final & Hrs' & Hsorted & Hb' & Hn' & _ & Hc & _ & ->).
    assert (rs' = rs) as -> by congruence.
    assert (b' = beamWidth) as -> by congruence.
    assert (n' = threadCount) as -> by congruence.
    exists final. split; [done|].
    rewrite (copies_length _ _ _ _ Hc). apply replicated_length; [lia..|].
    rewrite slice_to_length, bound_in_range; [lia|].
    apply sorted_responses_perm in Hsorted. rewrite Hsorted. lia.
  - intros Hscored.
    destruct (beam_search_agent_total s state rs beamWidth threadCount)
      as (s' & upd & Hrun); try done; [lia| |].
    + rewrite bound_in_range by lia.
      pose proof (Z.mod_pos_bound threadCount beamWidth ltac:(lia)). lia.
    + exists s', (merge state upd). apply run_beam_search_Ok. by exists upd.
Qed.

Lemma beam_search_population_size_witness :
  (∀ s' state', run_beam_search ScenarioB.store ScenarioB.state = Ok (s', state') →
     ∃ rs', responses state' = Some rs' ∧ Z.of_nat (length rs') = 5)
  ∧ (forallb (scored ScenarioB.store) [0; 1; 2; 3; 4]%nat = true →
     ∃ s' state', run_beam_search ScenarioB.store ScenarioB.state = Ok (s', state')).
Proof.
  apply (beam_search_population_size ScenarioB.store ScenarioB.state
           [0; 1; 2; 3; 4]%nat 5 3); [reflexivity..|lia].
Defined.

(** The selection on a scored population of the right size, in full. *)
Lemma beam_search_scored_run s state rs n b :
  responses state = Some rs → threads state = Some n → beams state = Some b →
  Z.of_nat (length rs) = n → 1 <= b <= n → forallb (scored s) rs = true →
  ∃ ks s' state' final,
    sort_keys s rs = Ok ks ∧
    run_beam_search s state = Ok (s', state') ∧
    responses state' = Some final ∧
    discarded_responses state' = Some (drop (Z.to_nat b) (list_sort_reverse fst ks).*2) ∧
    index state' = Some 0 ∧
    copies s (replicated n b (take (Z.to_nat b) (list_sort_reverse fst ks).*2)) s' final.
Proof.
  intros Hrs Hn Hb Hlen Hrange Hscored.
  destruct (beam_search_agent_scored s state rs n b)
    as (ks & s' & final & Hks & Hrun & Hc); try done; [lia| |].
  { rewrite bound_in_range by lia.
    pose proof (Z.mod_pos_bound n b ltac:(lia)). lia. }
  assert (Py.bound (list_sort_reverse fst ks).*2 b = Z.to_nat b) as Hbound.
  { apply bound_in_range. rewrite length_fmap, list_sort_reverse_length.
    rewrite <- (length_fmap snd), (sort_keys_refs _ _ _ Hks). lia. }
  unfold Py.slice_to, Py.slice_from in *. rewrite Hbound in *.
  exists ks, s',
    (merge state
       (mkState None None (Some final) None None None None None None (Some 0)
          (Some (drop (Z.to_nat b) (list_sort_reverse fst ks).*2)) None None)), final.
  split_and!; try done.
  apply run_beam_search_Ok. eexists. split; [exact Hrun|done].
Qed.

Lemma replicated_elem threads beams k (l : list ref) t :
  t ∈ replicated threads beams (take k l) → t ∈ l.
Proof.
  unfold replicated. intros [Ht|Ht]%elem_of_app.
  - apply list_elem_of_bind in Ht as (u & Ht & Hu).
    apply elem_of_replicate in Ht as [-> _].
    by apply elem_of_take in Hu as (i & ?%list_elem_of_lookup_2 & _).
  - apply elem_of_take in Ht as (i & Ht%list_elem_of_lookup_2 & _).
    by apply elem_of_take in Ht as (j & ?%list_elem_of_lookup_2 & _).
Qed.




(** C4, as the code has it: after every beam-search selection call
    [discarded] holds exactly the threads culled by that call, the sorted
    threads after the first [beamWidth]; what [discarded] held before the
    call is replaced, not kept. *)
Theorem discarded_holds_the_last_cull (s : Store) (state : GraphState)
    (s' : Store) (state' : GraphState) :
  run_beam_search s state = Ok (s', state') →
  ∃ rs sorted beamWidth,
    responses state = Some rs ∧ beams state = Some beamWidth ∧
    sorted_responses s rs = Ok sorted ∧
    discarded_responses state' = Some (Py.slice_from sorted beamWidth).
Proof.
  intros (upd & Hrun & ->)%run_beam_search_Ok.
  destruct (beam_search_agent_Ok _ _ _ _ Hrun)
    as (rs & sorted & b & n & final & Hrs & Hsorted & Hb & Hn & _ & _ & _ & ->).
  by exists rs, sorted, b.
Qed.

Lemma discarded_holds_the_last_cull_witness :
  ∃ rs sorted beamWidth,
    responses ScenarioAudit.state = Some rs ∧
    beams ScenarioAudit.state = Some beamWidth ∧
    sorted_responses ScenarioAudit.store rs = Ok sorted ∧
    discarded_responses
      (merge ScenarioAudit.state
         (mkState None None (Some [6; 7; 8; 9; 10]%nat) None None None None None
            None (Some 0) (Some [3; 4]%nat) None None))
    = Some (Py.slice_from sorted beamWidth).
Proof.
  eapply (discarded_holds_the_last_cull ScenarioAudit.store ScenarioAudit.state).
  vm_compute. reflexivity.
Defined.

(** C4 as stated fails: thread 5 was in [discarded] before the call and is
    not in it afterwards. *)
Lemma discarded_is_not_append_only :
  discarded_responses ScenarioAudit.state = Some [5%nat] ∧
  ∃ s' state',
    run_beam_search ScenarioAudit.store ScenarioAudit.state = Ok (s', state') ∧
    discarded_responses state' = Some [3; 4]%nat ∧
    ¬ (∃ new, discarded_responses state' = Some ([5%nat] ++ new)).
Proof.
  split; [reflexivity|]. eexists _, _. split; [by vm_compute|].
  split; [reflexivity|]. intros [new Hnew]. simpl in Hnew. discriminate Hnew.
Qed.

(** C6, as the code has it: when no latest score is nan, the selection sorts
    the threads by latest score, descending, and stably: threads of equal
    latest score keep their original relative order in the sorted list, hence
    among the kept threads and in each group of copies; the sorted list is the
    only descending stable arrangement of the threads, so the selection is
    deterministic. *)
Theorem beam_search_sort_is_stable (s : Store) (state : GraphState)
    (rs : list ref) (threadCount beamWidth : Z) :
  responses state = Some rs →
  threads state = Some threadCount →
  beams state = Some beamWidth →
  Z.of_nat (length rs) = threadCount →
  1 <= beamWidth <= threadCount →
  forallb (scored s) rs = true →
  forallb (latest_not_nan s) rs = true →
  ∃ (keyed sorted : list (PyFloat * ref)) s' state' final,
    (* the threads with their latest scores, in the original order *)
    Forall2 (λ t kt, latest_score s t = Ok kt.1 ∧ kt.2 = t) rs keyed ∧
    (* sorted: descending, and stable *)
    sorted ≡ₚ keyed ∧ descending fst sorted ∧
    (∀ q, with_score fst q sorted = with_score fst q keyed) ∧
    (∀ x y, float_eq x.1 y.1 = true →
       [x; y] `sublist_of` keyed → [x; y] `sublist_of` sorted) ∧
    (∀ other, other ≡ₚ keyed → descending fst other →
       (∀ q, with_score fst q other = with_score fst q keyed) → other = sorted) ∧
    (* the selection and the copies follow the sorted order *)
    run_beam_search s state = Ok (s', state') ∧
    let kept := take (Z.to_nat beamWidth) sorted.*2 in
    discarded_responses state' = Some (drop (Z.to_nat beamWidth) sorted.*2) ∧
    responses state' = Some final ∧
    Forall2 (λ src c, ∃ v, thread_value s src = Ok v ∧ thread_value s' c = Ok v)
      ((kept ≫= replicate (Z.to_nat (threadCount `div` beamWidth)))
       ++ take (Z.to_nat (threadCount `mod` beamWidth)) kept)
      final.
Proof.
  intros Hrs Hn Hb Hlen Hrange Hscored Hnan.
  destruct (beam_search_scored_run s state rs threadCount beamWidth)
    as (ks & s' & state' & final & Hks & Hrun & Hfinal & Hdisc & _ & Hc); try done.
  pose proof (sort_keys_comparable _ _ _ Hks Hnan) as Hcomp.
  pose proof (list_sort_reverse_stable fst ks Hcomp) as Hsort.
  exists ks, (list_sort_reverse fst ks), s', state', final. split_and!; try done;
    [..|cbv zeta; split_and!; try done].
  - by apply sort_keys_Ok.
  - apply list_sort_reverse_perm.
  - rewrite Hsort. by apply sort_desc_descending.
  - intros q. rewrite Hsort. apply sort_desc_stable.
  - intros x y. rewrite Hsort. apply sort_desc_keeps_order.
  - intros other Hperm. rewrite Hsort. apply sort_desc_unique; [done|].
    by eapply comparable_perm; [symmetry; exact Hperm|].
  - eapply copies_values; [exact Hc|].
    assert ((list_sort_reverse fst ks).*2 ≡ₚ rs) as Hperm.
    { rewrite list_sort_reverse_perm. by rewrite (sort_keys_refs _ _ _ Hks). }
    apply Forall_forall. intros t Ht%replicated_elem. apply scored_readable.
    rewrite forallb_elem in Hscored. apply Hscored. by rewrite <- Hperm.
Qed.

(** C6 as stated fails when a latest score is nan: on seven scored threads
    with scores 5, 0, 5, nan, 9, 2, 1 the sort leaves the threads in the
    order 2, 3, 4, 0, 5, 6, 1, which is not descending (the nan stands in
    front of the 9) and has the two threads scored 5 swapped; with beam 3
    the later of the two is kept and the earlier one is discarded. *)
Lemma sort_with_nan_swaps_equal_scores :
  forallb (scored ScenarioNanTies.store) [0; 1; 2; 3; 4; 5; 6]%nat = true ∧
  latest_score ScenarioNanTies.store 0%nat = Ok (Finite 5) ∧
  latest_score ScenarioNanTies.store 2%nat = Ok (Finite 5) ∧
  sorted_responses ScenarioNanTies.store [0; 1; 2; 3; 4; 5; 6]%nat
  = Ok [2; 3; 4; 0; 5; 6; 1]%nat ∧
  ¬ [0; 2]%nat `sublist_of` [2; 3; 4; 0; 5; 6; 1]%nat ∧
  ¬ StronglySorted (scores_at_least ScenarioNanTies.store)
      [2; 3; 4; 0; 5; 6; 1]%nat ∧
  ∃ s' state' final,
    run_beam_search ScenarioNanTies.store ScenarioNanTies.state = Ok (s', state') ∧
    responses state' = Some final ∧
    mapM (thread_value s') final
    = Ok [("Mistral", [ScenarioB.scored "C" 5]); ("Mistral", [ScenarioB.scored "C" 5]);
          ("GPT", [ScenarioNan.unscorable "D"]); ("GPT", [ScenarioNan.unscorable "D"]);
          ("Claude", [ScenarioB.scored "E" 9]); ("Claude", [ScenarioB.scored "E" 9]);
          ("Mistral", [ScenarioB.scored "C" 5])] ∧
    discarded_responses state' = Some [0; 5; 6; 1]%nat.
Proof.
  split_and!; try (by vm_compute).
  - intros H.
    repeat match goal with
      | H : _ `sublist_of` _ |- _ => inversion H; clear H; subst
      end.
  - intros H. apply StronglySorted_inv in H as [H _].
    apply StronglySorted_inv in H as [_ H].
    apply Forall_cons in H as [(qt & qu & Ht & Hu & Hle) _].
    vm_compute in Ht, Hu. injection Ht as <-. injection Hu as <-. by vm_compute in Hle.
  - eexists _, _, _. split_and!; by vm_compute.
Qed.

(** ** Mutations through one thread leave separate threads alone *)

Lemma mapM_deref_insert (cells : list AgentResponse) x d (l : list ref) h :
  x ∉ l → mapM (deref cells) l = Ok h → mapM (deref (<[x := d]> cells)) l = Ok h.
Proof.
  rewrite !mapM_Ok. intros Hx H. induction H as [|r v l h Hr _ IH]; constructor.
  - apply deref_Ok. rewrite list_lookup_insert_ne; [by apply deref_Ok|].
    intros ->. apply Hx. left.
  - apply IH. intros Hin. apply Hx. by right.
Qed.

Lemma apply_mutation_frame s t m s' u h :
  apply_mutation s t m = Ok s' → separate s t u → history s u = Ok h →
  history s' u = Ok h ∧ separate s' t u.
Proof.
  intros Hm [Hne Hsep] Hu.
  apply history_Ok in Hu as (thu & lu & Hthu & Hlu & Hh).
  destruct m as [d|i d]; simpl in Hm.
  - ok_bind Hm as th Hth. apply deref_Ok in Hth.
    unfold list_append in Hm. simpl in Hm. ok_bind Hm as l Hl.
    apply deref_Ok in Hl. injection Hm as <-.
    destruct (Hsep _ _ Hth Hthu) as [Hc Hd].
    specialize (Hd _ _ Hl Hlu). split.
    + apply history_Ok. exists thu, lu. simpl. split_and!; [done| |].
      * by rewrite list_lookup_insert_ne.
      * eapply mapM_deref_prefix; [|exact Hh]. by apply prefix_app_r.
    + split; [done|]. simpl. intros tht' thu' Ht' Hu'.
      assert (tht' = th) as -> by congruence.
      assert (thu' = thu) as -> by congruence.
      split; [done|]. intros lt lu'.
      rewrite list_lookup_insert_eq by (by eapply lookup_lt_Some).
      rewrite list_lookup_insert_ne by done.
      intros [= <-] Hlu' x Hx Hx'. assert (lu' = lu) as -> by congruence.
      apply elem_of_app in Hx as [Hx|Hx]; [by eapply Hd|].
      apply list_elem_of_singleton in Hx as ->.
      apply mapM_Ok in Hh. apply list_elem_of_lookup_1 in Hx' as [k Hk].
      destruct (Forall2_lookup_l _ _ _ _ _ Hh Hk) as (r & _ & Hr%deref_Ok).
      apply lookup_lt_Some in Hr. lia.
  - ok_bind Hm as l Hl. ok_bind Hm as x Hx. injection Hm as <-.
    apply content_refs_Ok in Hl as (th & Hth & Hl).
    destruct (Hsep _ _ Hth Hthu) as [Hc Hd].
    specialize (Hd _ _ Hl Hlu).
    apply index_Ok_lookup in Hx as [k Hk%list_elem_of_lookup_2]. split.
    + apply history_Ok. exists thu, lu. simpl. split_and!; [done..|].
      apply mapM_deref_insert; [|done]. by apply Hd.
    + split; [done|]. simpl. done.
Qed.

Lemma apply_mutations_frame s t ms s' u h :
  apply_mutations s t ms = Ok s' → separate s t u → history s u = Ok h →
  history s' u = Ok h.
Proof.
  revert s. induction ms as [|m ms IH]; intros s Hms Hsep Hu; simpl in Hms.
  - by injection Hms as <-.
  - ok_bind Hms as s1 Hm.
    destruct (apply_mutation_frame _ _ _ _ _ _ Hm Hsep Hu) as [Hu1 Hsep1].
    by eapply IH.
Qed.

(** C7: every thread of the population after a selection is a deep copy, on
    its own: whatever is appended to the history of one of them, and however
    its entries are rewritten, the history of every other thread of that
    population stays as it was, and so does the history of every thread that
    existed before the call (the originals, kept or discarded). *)
Theorem clones_are_independent (s : Store) (state : GraphState) (s' : Store)
    (upd : GraphState) (final : list ref) (i : nat) (t : ref)
    (ms : list mutation) (s'' : Store) :
  beam_search_agent s state = Ok (s', upd) →
  responses upd = Some final →
  final !! i = Some t →
  apply_mutations s' t ms = Ok s'' →
  (∀ j u, j ≠ i → final !! j = Some u →
     ∃ h, history s' u = Ok h ∧ history s'' u = Ok h)
  ∧ (∀ o h, history s o = Ok h → history s' o = Ok h ∧ history s'' o = Ok h).
Proof.
  intros Hrun Hfinal Hi Hms.
  destruct (beam_search_agent_Ok _ _ _ _ Hrun)
    as (rs & sorted & b & n & final' & _ & _ & _ & _ & _ & Hc & _ & ->).
  simpl in Hfinal. injection Hfinal as ->. split.
  - intros j u Hij Hj.
    destruct (Forall2_lookup_r _ _ _ _ _ (copies_each _ _ _ _ Hc) Hj)
      as (src & _ & si & si' & _ & Hd & He).
    apply deepcopy_spec in Hd as (_ & _ & v & _ & Hv).
    apply (thread_value_extends _ _ _ _ He), thread_value_history in Hv.
    exists v.2. split; [done|].
    eapply apply_mutations_frame; [exact Hms| |done].
    eapply copies_separate; [exact Hc| |exact Hi|exact Hj]. done.
  - intros o h Ho.
    pose proof (history_extends _ _ _ _ (copies_extends _ _ _ _ Hc) Ho) as Ho'.
    split; [done|].
    eapply apply_mutations_frame; [exact Hms| |done].
    destruct (history_thread_value _ _ _ Ho) as (v & Hv & _).
    eapply copies_separate_old; [exact Hc| |exact Hv].
    by eapply list_elem_of_lookup_2.
Qed.

Lemma clones_are_independent_witness :
  (∀ j u, j ≠ 3%nat → [5; 6; 7; 8; 9]%nat !! j = Some u →
     ∃ h, history ScenarioB_after.selected.1 u = Ok h ∧
          history ScenarioB_after.mutated u = Ok h)
  ∧ (∀ o h, history ScenarioB.store o = Ok h →
       history ScenarioB_after.selected.1 o = Ok h ∧
       history ScenarioB_after.mutated o = Ok h).
Proof.
  apply (clones_are_independent ScenarioB.store ScenarioB.state
           ScenarioB_after.selected.1 ScenarioB_after.selected.2
           [5; 6; 7; 8; 9]%nat 3 8 ScenarioB_after.edits ScenarioB_after.mutated);
    vm_compute; reflexivity.
Defined.

(** The mutations are seen through the thread they are applied to. *)
Example mutated_copy_history :
  history ScenarioB_after.selected.1 8%nat = Ok [ScenarioB.scored "A" 9] ∧
  history ScenarioB_after.mutated 8%nat
  = Ok [ScenarioB.scored "A rewritten" 1; mkResponse "A revised" None None] ∧
  history ScenarioB_after.mutated 5%nat = Ok [ScenarioB.scored "A" 9] ∧
  history ScenarioB_after.mutated 0%nat = Ok [ScenarioB.scored "A" 9].
Proof. vm_compute. done. Qed.

(** The store does show aliasing where there is some: appending through one
    of two thread dicts that share their content list changes both. *)
Example shared_content_is_visible :
  ∃ s', apply_mutation Aliased.store 0%nat (Append (mkResponse "x" None None)) = Ok s' ∧
        history Aliased.store 1%nat = Ok [ScenarioB.scored "A" 9] ∧
        history s' 1%nat = Ok [ScenarioB.scored "A" 9; mkResponse "x" None None].
Proof. eexists. vm_compute. done. Qed.

Lemma beam_search_sort_is_stable_witness :
  ∃ (keyed sorted : list (PyFloat * ref)) s' state' final,
    Forall2 (λ t kt, latest_score ScenarioTies.store t = Ok kt.1 ∧ kt.2 = t)
      [0; 1; 2; 3; 4]%nat keyed ∧
    sorted ≡ₚ keyed ∧ descending fst sorted ∧
    (∀ q, with_score fst q sorted = with_score fst q keyed) ∧
    (∀ x y, float_eq x.1 y.1 = true →
       [x; y] `sublist_of` keyed → [x; y] `sublist_of` sorted) ∧
    (∀ other, other ≡ₚ keyed → descending fst other →
       (∀ q, with_score fst q other = with_score fst q keyed) → other = sorted) ∧
    run_beam_search ScenarioTies.store ScenarioTies.state = Ok (s', state') ∧
    let kept := take (Z.to_nat 3) sorted.*2 in
    discarded_responses state' = Some (drop (Z.to_nat 3) sorted.*2) ∧
    responses state' = Some final ∧
    Forall2 (λ src c, ∃ v, thread_value ScenarioTies.store src = Ok v ∧
                          thread_value s' c = Ok v)
      ((kept ≫= replicate (Z.to_nat (5 `div` 3))) ++ take (Z.to_nat (5 `mod` 3)) kept)
      final.
Proof.
  apply (beam_search_sort_is_stable ScenarioTies.store ScenarioTies.state
           [0; 1; 2; 3; 4]%nat 5 3); [reflexivity..|lia|reflexivity|reflexivity].
Defined.

(** With scores 7, 9, 7, 9, 5 the two 9s come first and the two 7s next, each
    pair in its original order; the second 7 is discarded with the 5. *)
Example scenario_ties_selection :
  sorted_responses ScenarioTies.store [0; 1; 2; 3; 4]%nat = Ok [1; 3; 0; 2; 4]%nat ∧
  ∃ s' state',
    run_beam_search ScenarioTies.store ScenarioTies.state = Ok (s', state') ∧
    discarded_responses state' = Some [2; 4]%nat ∧
    mapM (history s') (default [] (responses state'))
    = Ok [[ScenarioB.scored "B" 9]; [ScenarioB.scored "D" 9]; [ScenarioB.scored "A" 7];
          [ScenarioB.scored "B" 9]; [ScenarioB.scored "D" 9]].
Proof. split; [by vm_compute|]. eexists _, _. by vm_compute. Qed.

(** ** The difficulty assessment *)

Lemma create_difficulty_agent_row s state llm upd :
  create_difficulty_agent s state llm = Ok upd →
  upd = difficulty_row 1 3 3 0 4 ∨ upd = difficulty_row 2 5 3 0 3 ∨
  upd = difficulty_row 3 7 3 0 2 ∨ upd = difficulty_row 4 9 3 0 1.
Proof.
  intros H. unfold create_difficulty_agent in H.
  repeat match type of H with _ ≫= _ = Ok _ =>
    let x := fresh "x" in let Hx := fresh "Hx" in ok_bind H as x Hx end.
  apply key_Ok in H. unfold difficulty_dict in H.
  repeat case_bool_decide; try discriminate H; injection H as <-; tauto.
Qed.

(** C5: the mapping from the classifier's reply to the run parameters is
    defined on the tiers 1 to 4 and gives (threadCount, beamWidth,
    revisionBudget) = (3,3,4), (5,3,3), (7,3,2), (9,3,1), each with
    [beamWidth <= threadCount]; any other reply raises [KeyError], and no
    call returns parameters outside the table. *)
Theorem difficulty_mapping_is_total_on_tiers (s : Store) (state : GraphState)
    (llm : LLM) :
  (assessable s state = true →
   ∃ reply,
     (∃ prompt, reply = llm prompt) ∧
     (reply = "1" → ∃ upd, create_difficulty_agent s state llm = Ok upd ∧
                           difficulty upd = Some 1 ∧ has_config upd 3 3 4) ∧
     (reply = "2" → ∃ upd, create_difficulty_agent s state llm = Ok upd ∧
                           difficulty upd = Some 2 ∧ has_config upd 5 3 3) ∧
     (reply = "3" → ∃ upd, create_difficulty_agent s state llm = Ok upd ∧
                           difficulty upd = Some 3 ∧ has_config upd 7 3 2) ∧
     (reply = "4" → ∃ upd, create_difficulty_agent s state llm = Ok upd ∧
                           difficulty upd = Some 4 ∧ has_config upd 9 3 1) ∧
     (reply ≠ "1" → reply ≠ "2" → reply ≠ "3" → reply ≠ "4" →
      create_difficulty_agent s state llm = Raise KeyError))
  ∧ (∀ upd, create_difficulty_agent s state llm = Ok upd →
       (difficulty upd = Some 1 ∧ has_config upd 3 3 4) ∨
       (difficulty upd = Some 2 ∧ has_config upd 5 3 3) ∨
       (difficulty upd = Some 3 ∧ has_config upd 7 3 2) ∨
       (difficulty upd = Some 4 ∧ has_config upd 9 3 1)).
Proof.
  split.
  - unfold assessable. intros Hok.
    destruct (question state) as [q|] eqn:Hq; [|done].
    destruct (responses state) as [rs|] eqn:Hrs; [|done].
    apply andb_true_iff in Hok as [Hlen%bool_decide_eq_true Hall].
    rewrite forallb_elem in Hall.
    assert (∀ (f : AgentResponse → result string),
              (∀ t r, t ∈ rs → first_response s t = Ok r → ∃ x, f r = Ok x) →
              ∃ out, mapM (λ t, r ← first_response s t; f r) rs = Ok out
                     ∧ length out = length rs) as Hmap.
    { intros f Hf. destruct (mapM_is_Ok (λ t, r ← first_response s t; f r) rs)
        as [out Hout].
      - apply Forall_forall. intros t Ht. specialize (Hall t Ht).
        destruct (first_response s t) as [r|] eqn:Hr; [|done].
        destruct (Hf t r Ht Hr) as [x Hx]. simpl. rewrite Hx. by eexists.
      - exists out. split; [done|]. by eapply mapM_Ok_length. }
    destruct (Hmap (λ r, Ok (text r))) as (texts & Htexts & Hl1); [by eexists|].
    destruct (Hmap (λ r, key (comments r))) as (cs & Hcs & Hl2).
    { intros t r Ht Hr. specialize (Hall t Ht). rewrite Hr in Hall.
      apply andb_true_iff in Hall as [[c Hc]%bool_decide_eq_true _].
      rewrite Hc. by eexists. }
    assert (∃ gs, mapM (λ t, r ← first_response s t; key (score r)) rs = Ok gs
                  ∧ length gs = length rs) as (gs & Hgs & Hl3).
    { destruct (mapM_is_Ok (λ t, r ← first_response s t; key (score r)) rs)
        as [out Hout].
      - apply Forall_forall. intros t Ht. specialize (Hall t Ht).
        destruct (first_response s t) as [r|] eqn:Hr; [|done].
        apply andb_true_iff in Hall as [_ [g Hg]%bool_decide_eq_true].
        simpl. rewrite Hg. by eexists.
      - exists out. split; [done|]. by eapply mapM_Ok_length. }
    destruct texts as [|t1 [|t2 [|t3 texts]]]; simpl in Hl1; try lia.
    destruct cs as [|c1 [|c2 [|c3 cs]]]; simpl in Hl2; try lia.
    destruct gs as [|g1 [|g2 [|g3 gs]]]; simpl in Hl3; try lia.
    unfold create_difficulty_agent. rewrite Hq, Hrs. ok_simpl.
    rewrite Htexts. ok_simpl. rewrite Hcs. ok_simpl. rewrite Hgs. ok_simpl.
    rewrite !(index_nonneg _ 0), !(index_nonneg _ 1), !(index_nonneg _ 2).
    simpl. eexists. split; [by eexists|].
    split_and!; try (intros ->; eexists; split; [reflexivity|];
                     split; [reflexivity|]; repeat split; lia).
    intros H1 H2 H3 H4. unfold difficulty_dict.
    by rewrite !bool_decide_eq_false_2.
  - intros upd [-> | [-> | [-> | ->]]]%create_difficulty_agent_row;
      [left|right; left|right; right; left|right; right; right];
      (split; [reflexivity|]; repeat split; lia).
Qed.

Lemma difficulty_mapping_is_total_on_tiers_witness :
  (assessable ScenarioA.store ScenarioA.state = true →
   ∃ reply,
     (∃ prompt, reply = (λ _ : Prompt, "2") prompt) ∧
     (reply = "1" → ∃ upd, create_difficulty_agent ScenarioA.store ScenarioA.state
                             (λ _, "2") = Ok upd ∧
                           difficulty upd = Some 1 ∧ has_config upd 3 3 4) ∧
     (reply = "2" → ∃ upd, create_difficulty_agent ScenarioA.store ScenarioA.state
                             (λ _, "2") = Ok upd ∧
                           difficulty upd = Some 2 ∧ has_config upd 5 3 3) ∧
     (reply = "3" → ∃ upd, create_difficulty_agent ScenarioA.store ScenarioA.state
                             (λ _, "2") = Ok upd ∧
                           difficulty upd = Some 3 ∧ has_config upd 7 3 2) ∧
     (reply = "4" → ∃ upd, create_difficulty_agent ScenarioA.store ScenarioA.state
                             (λ _, "2") = Ok upd ∧
                           difficulty upd = Some 4 ∧ has_config upd 9 3 1) ∧
     (reply ≠ "1" → reply ≠ "2" → reply ≠ "3" → reply ≠ "4" →
      create_difficulty_agent ScenarioA.store ScenarioA.state (λ _, "2")
      = Raise KeyError))
  ∧ assessable ScenarioA.store ScenarioA.state = true.
Proof.
  split; [|reflexivity].
  exact (proj1 (difficulty_mapping_is_total_on_tiers ScenarioA.store
                  ScenarioA.state (λ _, "2"))).
Defined.

(** The four tiers and two replies outside the table, run. *)
Example difficulty_replies :
  create_difficulty_agent ScenarioA.store ScenarioA.state (λ _, "1")
  = Ok (difficulty_row 1 3 3 0 4) ∧
  create_difficulty_agent ScenarioA.store ScenarioA.state (λ _, "2")
  = Ok (difficulty_row 2 5 3 0 3) ∧
  create_difficulty_agent ScenarioA.store ScenarioA.state (λ _, "3")
  = Ok (difficulty_row 3 7 3 0 2) ∧
  create_difficulty_agent ScenarioA.store ScenarioA.state (λ _, "4")
  = Ok (difficulty_row 4 9 3 0 1) ∧
  create_difficulty_agent ScenarioA.store ScenarioA.state (λ _, "5")
  = Raise KeyError ∧
  create_difficulty_agent ScenarioA.store ScenarioA.state (λ _, "2 ")
  = Raise KeyError.
Proof. by vm_compute. Qed.

(** ** The final summary *)

(** C9, as the code has it: the aggregator hands the question and the whole
    history of every thread, every entry of it, to the model (the prompt asks
    the model to attend to the final entries) and returns the model's reply
    as [final_response]; that reply is a function of the question and of the
    full histories; nothing else is updated and no object is mutated, so the
    population is as before. *)
Theorem final_summary_reads_whole_histories (py_float : string → option PyFloat)
    (s : Store) (state : GraphState) (reply : string) (s' : Store)
    (upd : GraphState) :
  exec_node py_float N_final_summary s state reply = Ok (s', upd) →
  s' = s ∧
  responses (merge state upd) = responses state ∧
  discarded_responses (merge state upd) = discarded_responses state ∧
  ∃ q rs hs,
    question state = Some q ∧ responses state = Some rs ∧
    mapM (history s) rs = Ok hs ∧
    ∀ llm : LLM,
      create_final_summary_agent s state llm
      = Ok (mkState None None None None None None None None None None None None
              (Some (llm (final_summary_prompt q hs)))).
Proof.
  simpl. intros H. ok_bind H as u Hu. injection H as <- <-.
  unfold create_final_summary_agent in *.
  ok_bind Hu as q Hq. ok_bind Hu as rs Hrs. ok_bind Hu as hs Hhs.
  injection Hu as <-. apply key_Ok in Hq, Hrs.
  split_and!; [done|by destruct state|by destruct state|].
  exists q, rs, hs. split_and!; try done.
  intros llm. rewrite Hq, Hrs. ok_simpl. unfold chains in *. by rewrite Hhs.
Qed.

Lemma final_summary_reads_whole_histories_witness :
  ScenarioSummary.store1 = ScenarioSummary.store1 ∧
  responses (merge ScenarioSummary.state
               (mkState None None None None None None None None None None None
                  None (Some "done")))
  = responses ScenarioSummary.state ∧
  discarded_responses (merge ScenarioSummary.state
               (mkState None None None None None None None None None None None
                  None (Some "done")))
  = discarded_responses ScenarioSummary.state ∧
  ∃ q rs hs,
    question ScenarioSummary.state = Some q ∧
    responses ScenarioSummary.state = Some rs ∧
    mapM (history ScenarioSummary.store1) rs = Ok hs ∧
    ∀ llm : LLM,
      create_final_summary_agent ScenarioSummary.store1 ScenarioSummary.state llm
      = Ok (mkState None None None None None None None None None None None None
              (Some (llm (final_summary_prompt q hs)))).
Proof.
  apply (final_summary_reads_whole_histories (λ _, None) ScenarioSummary.store1
           ScenarioSummary.state "done").
  reflexivity.
Defined.

(** C9 as stated fails: two populations with the same question and the same
    final entry in every thread, and a model whose answers differ on them. *)
Lemma final_summary_depends_on_earlier_entries :
  final_entries ScenarioSummary.store1 ScenarioSummary.state
  = final_entries ScenarioSummary.store2 ScenarioSummary.state ∧
  create_final_summary_agent ScenarioSummary.store1 ScenarioSummary.state echo_first
  = Ok (mkState None None None None None None None None None None None None
          (Some "first draft")) ∧
  create_final_summary_agent ScenarioSummary.store2 ScenarioSummary.state echo_first
  = Ok (mkState None None None None None None None None None None None None
          (Some "another draft")) ∧
  create_final_summary_agent ScenarioSummary.store1 ScenarioSummary.state echo_first
  ≠ create_final_summary_agent ScenarioSummary.store2 ScenarioSummary.state echo_first.
Proof. by vm_compute. Qed.

(** ** The revision router *)

(** The node that follows a revision, in terms of the state it is chosen on. *)
Lemma next_after_revision s state n' :
  next_node N_revised_response_handler s state = Ok n' ↔
  ∃ rs last len r i n,
    responses state = Some rs ∧ Py.index rs (-1) = Ok last ∧
    history_len s last = Ok len ∧ revisions state = Some r ∧
    index state = Some i ∧ threads state = Some n ∧
    n' = (if bool_decide (len = r + 1) then N_final_summary
          else if bool_decide (i = n) then N_check_done
          else N_get_revision_response).
Proof.
  cbn [next_node]. unfold revision_router. split.
  - intros H. ok_bind H as label Hlabel.
    ok_bind Hlabel as i Hi. ok_bind Hlabel as n Hn. ok_bind Hlabel as r Hr.
    ok_bind Hlabel as rs Hrs. ok_bind Hlabel as last Hlast.
    ok_bind Hlabel as len Hlen. apply key_Ok in Hi, Hn, Hr, Hrs.
    exists rs, last, len, r, i, n. split_and!; try done.
    repeat case_bool_decide; injection Hlabel as <-; vm_compute in H; congruence.
  - intros (rs & last & len & r & i & n & Hrs & Hlast & Hlen & Hr & Hi & Hn & ->).
    rewrite Hi, Hn, Hr, Hrs. ok_simpl. rewrite Hlast. ok_simpl. rewrite Hlen.
    ok_simpl. repeat case_bool_decide; reflexivity.
Qed.

(** After the final summary the run is over. *)
Lemma run_from_END py_float replies s state c :
  run py_float replies (N_END, s, state) = Ok c → c.1.1 = N_END.
Proof.
  revert s state. induction replies as [|r replies IH]; intros s state H.
  - by injection H as <-.
  - simpl in H. by eapply IH.
Qed.

Lemma run_from_final_summary py_float replies s state c :
  run py_float replies (N_final_summary, s, state) = Ok c →
  c.1.1 = N_final_summary ∨ c.1.1 = N_END.
Proof.
  destruct replies as [|r replies]; intros H.
  - injection H as <-. by left.
  - right. cbn [run] in H. ok_bind H as c' Hc'.
    unfold step in Hc'. ok_bind Hc' as p Hp. destruct p as [s' upd].
    cbn [next_node] in Hc'. simpl in Hc'. injection Hc' as <-.
    by eapply run_from_END.
Qed.

(** C10: the router tests the revision budget before it tests the end of the
    round.  When the last thread's history has [revisions + 1] entries at a
    round boundary ([index = threads]) the router answers "summary", the
    graph goes to the final summary, and the run never comes to the
    convergence check afterwards. *)
Theorem budget_check_precedes_round_check (py_float : string → option PyFloat)
    (s : Store) (state : GraphState) (rs : list ref) (last : ref)
    (revisionBudget threadCount : Z) :
  responses state = Some rs →
  Py.index rs (-1) = Ok last →
  history_len s last = Ok (revisionBudget + 1) →
  revisions state = Some revisionBudget →
  index state = Some threadCount →
  threads state = Some threadCount →
  revision_router s state = Ok "summary" ∧
  next_node N_revised_response_handler s state = Ok N_final_summary ∧
  ∀ replies c,
    run py_float replies (N_final_summary, s, state) = Ok c → c.1.1 ≠ N_check_done.
Proof.
  intros Hrs Hlast Hlen Hr Hi Hn. split_and!.
  - unfold revision_router. rewrite Hi, Hn, Hr, Hrs. ok_simpl.
    rewrite Hlast. ok_simpl. rewrite Hlen. ok_simpl.
    by rewrite bool_decide_eq_true_2.
  - apply next_after_revision.
    exists rs, last, (revisionBudget + 1), revisionBudget, threadCount, threadCount.
    split_and!; try done. by rewrite bool_decide_eq_true_2.
  - intros replies c [-> | ->]%run_from_final_summary; done.
Qed.

(** C3, as the code has it: after a revision the router looks at the last
    thread of the population, not at the thread just revised.  The run goes
    to the Aggregator exactly when the last thread's history has
    [revisionBudget + 1] entries; otherwise it goes to the convergence check
    when the cursor has reached [threadCount], and to the next revision when
    it has not.  With [revisionBudget = 1] and five threads, the thread at
    cursor 2 reaching two entries does not end the run: the threads at 3 and
    4 are revised, and the run goes to the Aggregator after the one at 4. *)
Theorem revision_ends_on_last_thread :
  (∀ (py_float : string → option PyFloat) (reply : string) (s : Store)
     (state : GraphState) (n' : Node) (s' : Store) (state' : GraphState),
     step py_float reply (N_revised_response_handler, s, state)
     = Ok (n', s', state') →
     ∃ rs last len revisionBudget cursor threadCount,
       responses state' = Some rs ∧ Py.index rs (-1) = Ok last ∧
       history_len s' last = Ok len ∧
       revisions state' = Some revisionBudget ∧
       index state' = Some cursor ∧ threads state' = Some threadCount ∧
       (n' = N_final_summary ↔ len = revisionBudget + 1) ∧
       (n' = N_check_done ↔ len ≠ revisionBudget + 1 ∧ cursor = threadCount) ∧
       (n' = N_get_revision_response ↔
          len ≠ revisionBudget + 1 ∧ cursor ≠ threadCount))
  ∧ (∃ s1 st1 s2 st2 s3 st3,
       run ScenarioC.py_float [""]
         (N_revised_response_handler, ScenarioC.store, ScenarioC.state)
       = Ok (N_get_revision_response, s1, st1) ∧
       index st1 = Some 3 ∧ history_len s1 2%nat = Ok 2 ∧
       run ScenarioC.py_float ScenarioC.one_revision (N_get_revision_response, s1, st1)
       = Ok (N_get_revision_response, s2, st2) ∧
       index st2 = Some 4 ∧ history_len s2 3%nat = Ok 2 ∧
       run ScenarioC.py_float ScenarioC.one_revision (N_get_revision_response, s2, st2)
       = Ok (N_final_summary, s3, st3) ∧
       index st3 = Some 5 ∧ history_len s3 4%nat = Ok 2).
Proof.
  split.
  - intros py_float reply s state n' s' state' H. unfold step in H.
    ok_bind H as p Hp. destruct p as [s1 upd]. ok_bind H as n1 Hn1.
    injection H as <- <- <-.
    apply next_after_revision in Hn1
      as (rs & last & len & r & i & n & Hrs & Hlast & Hlen & Hr & Hi & Hn & ->).
    exists rs, last, len, r, i, n. split_and!; try done;
      repeat case_bool_decide; split; (done || tauto || intros [? ?]; done).
  - vm_compute. by eexists _, _, _, _, _, _.
Qed.

Lemma revision_ends_on_last_thread_witness :
  ∃ rs last len revisionBudget cursor threadCount,
    responses ScenarioC.after_round.2 = Some rs ∧ Py.index rs (-1) = Ok last ∧
    history_len ScenarioC.after_round.1.2 last = Ok len ∧
    revisions ScenarioC.after_round.2 = Some revisionBudget ∧
    index ScenarioC.after_round.2 = Some cursor ∧
    threads ScenarioC.after_round.2 = Some threadCount ∧
    (N_final_summary = N_final_summary ↔ len = revisionBudget + 1) ∧
    (N_final_summary = N_check_done ↔
       len ≠ revisionBudget + 1 ∧ cursor = threadCount) ∧
    (N_final_summary = N_get_revision_response ↔
       len ≠ revisionBudget + 1 ∧ cursor ≠ threadCount).
Proof.
  apply (proj1 revision_ends_on_last_thread ScenarioC.py_float ""
           ScenarioC.before_last.1.2 ScenarioC.before_last.2 N_final_summary
           ScenarioC.after_round.1.2 ScenarioC.after_round.2).
  vm_compute. reflexivity.
Defined.

(** C3 as stated fails: with [revisions = 1] the thread at index 2 now has
    two entries, and the next node is another revision. *)
Lemma no_exit_when_cursor_thread_reaches_budget :
  ∃ s' state',
    step ScenarioC.py_float ""
      (N_revised_response_handler, ScenarioC.store, ScenarioC.state)
    = Ok (N_get_revision_response, s', state') ∧
    index ScenarioC.state = Some 2 ∧
    revisions state' = Some 1 ∧
    history_len s' 2%nat = Ok (1 + 1) ∧
    N_get_revision_response ≠ N_final_summary.
Proof. vm_compute. by eexists _, _. Qed.

Lemma budget_check_precedes_round_check_witness :
  revision_router ScenarioC.after_round.1.2 ScenarioC.after_round.2 = Ok "summary" ∧
  next_node N_revised_response_handler ScenarioC.after_round.1.2
    ScenarioC.after_round.2 = Ok N_final_summary ∧
  ∀ replies c,
    run ScenarioC.py_float replies
      (N_final_summary, ScenarioC.after_round.1.2, ScenarioC.after_round.2) = Ok c →
    c.1.1 ≠ N_check_done.
Proof.
  apply (budget_check_precedes_round_check ScenarioC.py_float
           ScenarioC.after_round.1.2 ScenarioC.after_round.2
           [0; 1; 2; 3; 4]%nat 4%nat 1 5); reflexivity.
Defined.

(** ** The invariant of the workflow *)

Lemma history_len_same_shape s s' t :
  same_shape s s' → history_len s' t = history_len s t.
Proof. intros [Hl Ht]. unfold history_len, content_refs. by rewrite Hl, Ht. Qed.

Lemma content_of_same_threads s s' t :
  thread_objs s' = thread_objs s → content_of s' t = content_of s t.
Proof. intros Ht. unfold content_of. by rewrite Ht. Qed.

Lemma lens_same_shape s s' rs ks : same_shape s s' → lens s rs ks → lens s' rs ks.
Proof.
  intros Hs H. eapply Forall2_impl; [exact H|]. intros t k.
  by rewrite (history_len_same_shape _ _ _ Hs).
Qed.

Lemma distinct_same_threads s s' rs :
  thread_objs s' = thread_objs s → distinct_contents s rs → distinct_contents s' rs.
Proof.
  intros Hs (cs & H & Hnd). exists cs. split; [|done].
  eapply Forall2_impl; [exact H|]. intros t c.
  by rewrite (content_of_same_threads _ _ _ Hs).
Qed.

Lemma initial_phase_same room s s' state state' :
  same_shape s s' → same_config state state' →
  initial_phase room s state → initial_phase room s' state'.
Proof.
  intros Hs (Hr & Hn & Hst & Hb & _) (rs & n & st & ? & ? & ? & ? & ? & ? & ?).
  exists rs, n, st. rewrite Hr, Hn, Hst, Hb. split_and!; try done.
  - by eapply lens_same_shape.
  - eapply distinct_same_threads; [|done]. by destruct Hs.
Qed.

Lemma revising_same at_end s s' state state' :
  same_shape s s' → same_config state state' →
  revising at_end s state → revising at_end s' state'.
Proof.
  intros Hs (Hr & Hn & Hst & Hb & Hi)
    (rs & n & i & k & ? & ? & ? & ? & ? & ? & ? & ? & ? & ?).
  exists rs, n, i, k. rewrite Hr, Hn, Hst, Hb, Hi. split_and!; try done.
  - by eapply lens_same_shape.
  - eapply distinct_same_threads; [|done]. by destruct Hs.
Qed.

Lemma merge_same_config state upd :
  responses upd = None → threads upd = None → start upd = None →
  beams upd = None → index upd = None → same_config state (merge state upd).
Proof.
  intros H1 H2 H3 H4 H5. unfold same_config, merge. simpl.
  by rewrite H1, H2, H3, H4, H5.
Qed.

(** The nodes that touch response dicts only. *)
Lemma join_graph_same s state reply :
  same_shape s (join_graph s reply).1 ∧
  same_config state (merge state (join_graph s reply).2).
Proof. split; [done|]. by apply merge_same_config. Qed.

Lemma commenter_same s state llm s' upd :
  create_commenter_agent s state llm = Ok (s', upd) →
  same_shape s s' ∧ same_config state (merge state upd).
Proof.
  unfold create_commenter_agent. intros H.
  ok_bind H as q Hq. ok_bind H as a Ha. ok_bind H as r Hr.
  injection H as <- <-. split; [done|]. by apply merge_same_config.
Qed.

Lemma scorer_same py_float s state llm s' upd :
  create_scorer_agent py_float s state llm = Ok (s', upd) →
  same_shape s s' ∧ same_config state (merge state upd).
Proof.
  unfold create_scorer_agent. intros H.
  ok_bind H as q Hq. ok_bind H as a Ha. ok_bind H as r Hr.
  ok_bind H as c Hc. ok_bind H as x Hx.
  injection H as <- <-. split; [done|]. by apply merge_same_config.
Qed.

(** The length of the histories in a round. *)
Lemma round_lens_length i n k : (i ≤ n)%nat → length (round_lens i n k) = n.
Proof. intros H. unfold round_lens. rewrite length_app, !length_replicate. lia. Qed.

Lemma round_lens_lookup i n k j :
  (i ≤ n)%nat → (j < n)%nat →
  round_lens i n k !! j = Some (if decide (j < i)%nat then k + 1 else k).
Proof.
  intros Hi Hj. unfold round_lens. destruct (decide (j < i)%nat).
  - rewrite lookup_app_l by (rewrite length_replicate; lia).
    by apply lookup_replicate_2.
  - rewrite lookup_app_r by (rewrite length_replicate; lia).
    apply lookup_replicate_2. rewrite length_replicate. lia.
Qed.

Lemma round_lens_start n k : round_lens 0 n k = replicate n k.
Proof. unfold round_lens. simpl. by rewrite Nat.sub_0_r. Qed.

Lemma round_lens_end n k : round_lens n n k = replicate n (k + 1).
Proof. unfold round_lens. by rewrite Nat.sub_diag, app_nil_r. Qed.

Lemma lens_replicate_elem s rs n k t :
  lens s rs (replicate n k) → t ∈ rs → history_len s t = Ok k.
Proof.
  intros H [i Hi]%list_elem_of_lookup_1.
  destruct (Forall2_lookup_l _ _ _ _ _ H Hi) as (k' & Hk & Hlen).
  by apply lookup_replicate_1 in Hk as [-> _].
Qed.

(** The content list of a thread with a history lies in the store. *)
Lemma content_in_store s t c k :
  content_of s t = Ok c → history_len s t = Ok k → (c < length (lists s))%nat.
Proof.
  unfold content_of. intros Hc Hk. ok_bind Hc as th Hth. injection Hc as <-.
  apply history_len_Ok in Hk as (l & (th' & Hth' & Hl)%content_refs_Ok & _).
  apply deref_Ok in Hth. assert (th' = th) as -> by congruence.
  by eapply lookup_lt_Some.
Qed.

Lemma copies_distinct_contents s srcs s' out :
  copies s srcs s' out → distinct_contents s' out.
Proof.
  intros Hc. pose proof (copies_allocated _ _ _ _ Hc) as Hall.
  assert (∃ cs, Forall2 (λ t c, content_of s' t = Ok c) out cs) as [cs Hcs].
  { clear Hc. induction Hall as [|c out (th & l & Hth & _) _ [cs IH]].
    - by exists [].
    - exists (content th :: cs). constructor; [|done].
      unfold content_of. apply deref_Ok in Hth. by rewrite Hth. }
  exists cs. split; [done|]. apply NoDup_alt. intros i j c Hi Hj.
  destruct (decide (i = j)) as [|Hij]; [done|]. exfalso.
  destruct (Forall2_lookup_r _ _ _ _ _ Hcs Hi) as (ti & Hti & Hci).
  destruct (Forall2_lookup_r _ _ _ _ _ Hcs Hj) as (tj & Htj & Hcj).
  destruct (copies_separate _ _ _ _ _ _ _ _ Hc Hij Hti Htj) as [_ Hsep].
  unfold content_of in Hci, Hcj.
  ok_bind Hci as thi Hthi. ok_bind Hcj as thj Hthj.
  injection Hci as <-. injection Hcj as Heq.
  apply deref_Ok in Hthi, Hthj.
  destruct (Hsep _ _ Hthi Hthj) as [Hne _]. by apply Hne.
Qed.

(** *** What the routers answer *)

Lemma next_after_scorer s state n' :
  next_node N_scorer s state = Ok n' →
  ∃ st n rs,
    start state = Some st ∧ threads state = Some n ∧ responses state = Some rs ∧
    n' = (if bool_decide (st ≠ 0) || bool_decide (Z.of_nat (length rs) < n)
          then N_initial_response_handler else N_revised_response_handler).
Proof.
  cbn [next_node]. unfold scorer_router. intros H. ok_bind H as label Hlabel.
  ok_bind Hlabel as st Hst. ok_bind Hlabel as n Hn. ok_bind Hlabel as rs Hrs.
  apply key_Ok in Hst, Hn, Hrs. exists st, n, rs. split_and!; try done.
  destruct (_ || _); injection Hlabel as <-; vm_compute in H; congruence.
Qed.

Lemma next_after_initial s state n' :
  next_node N_initial_response_handler s state = Ok n' →
  ∃ st rs n,
    start state = Some st ∧ responses state = Some rs ∧ threads state = Some n ∧
    n' = (if bool_decide (Z.of_nat (length rs) < n) then N_get_initial_response
          else if bool_decide (st ≠ 0) then N_difficulty_assessment
          else N_beam_search_agent).
Proof.
  cbn [next_node]. unfold initial_response_router. intros H.
  ok_bind H as label Hlabel.
  ok_bind Hlabel as st Hst. ok_bind Hlabel as rs Hrs. ok_bind Hlabel as n Hn.
  apply key_Ok in Hst, Hn, Hrs. exists st, rs, n. split_and!; try done.
  repeat case_bool_decide; injection Hlabel as <-; vm_compute in H; congruence.
Qed.

Lemma next_after_difficulty s state n' :
  next_node N_difficulty_assessment s state = Ok n' →
  ∃ rs n,
    responses state = Some rs ∧ threads state = Some n ∧
    n' = (if bool_decide (Z.of_nat (length rs) < n) then N_get_initial_response
          else N_beam_search_agent).
Proof.
  cbn [next_node]. unfold difficulty_router. intros H.
  ok_bind H as label Hlabel. ok_bind Hlabel as rs Hrs. ok_bind Hlabel as n Hn.
  apply key_Ok in Hn, Hrs. exists rs, n. split_and!; try done.
  repeat case_bool_decide; injection Hlabel as <-; vm_compute in H; congruence.
Qed.

Lemma next_after_check_done s state n' :
  next_node N_check_done s state = Ok n' →
  n' = N_beam_search_agent ∨ n' = N_final_summary.
Proof.
  cbn [next_node]. unfold done_router. intros H.
  ok_bind H as label Hlabel. ok_bind Hlabel as d Hd.
  destruct d; injection Hlabel as <-; vm_compute in H; injection H as <-; tauto.
Qed.

(** *** The nodes that change the population *)

Lemma initial_response_handler_phase s state s' upd :
  initial_phase 1 s state →
  initial_response_handler s state = Ok (s', upd) →
  ∃ rs t n st,
    responses state = Some rs ∧ responses (merge state upd) = Some (rs ++ [t]) ∧
    threads (merge state upd) = Some n ∧ start (merge state upd) = Some st ∧
    beams (merge state upd) = beams state ∧
    Z.of_nat (length rs + 1) <= n ∧
    ((st = 1 ∧ n = 3) ∨ (st = 0 ∧ beams state = Some 3 ∧ 3 <= n)) ∧
    lens s' (rs ++ [t]) (replicate (length (rs ++ [t])) 1) ∧
    distinct_contents s' (rs ++ [t]).
Proof.
  intros (rs & n & st & Hrs & Hn & Hst & Hlens & (cs & Hcs & Hnd) & Hroom & Hmode) H.
  unfold initial_response_handler in H.
  ok_bind H as ar Har. ok_bind H as name Hname. ok_bind H as rs' Hrs'.
  apply key_Ok in Hrs'. assert (rs' = rs) as -> by congruence.
  simpl in H. ok_bind H as next Hnext. injection H as <- <-.
  set (s' := mkStore (dicts s) (lists s ++ [[ar]])
               (thread_objs s ++ [mkThread name (length (lists s))])).
  assert (extends s s') as He.
  { repeat split; simpl; [done|by apply prefix_app_r..]. }
  assert (history_len s' (length (thread_objs s)) = Ok 1) as Hnew.
  { unfold history_len, content_refs, deref, s'. simpl.
    rewrite list_lookup_middle by done. simpl.
    rewrite list_lookup_middle by done. done. }
  exists rs, (length (thread_objs s)), n, st. simpl.
  rewrite Hn, Hst. split_and!; try done.
  - rewrite length_app, replicate_add. simpl. apply Forall2_app.
    + eapply Forall2_impl; [exact Hlens|]. intros t k. by apply history_len_extends.
    + by repeat constructor.
  - exists (cs ++ [length (lists s)]). split.
    + apply Forall2_app.
      * eapply Forall2_impl; [exact Hcs|]. intros t c.
        unfold content_of. intros Hc. ok_bind Hc as th Hth. injection Hc as <-.
        destruct He as (_ & _ & Hp). by rewrite (deref_prefix _ _ _ _ Hp Hth).
      * repeat constructor. unfold content_of, deref, s'. simpl.
        by rewrite list_lookup_middle.
    + apply NoDup_app. split_and!; [done| |apply NoDup_singleton].
      intros c [i Hi]%list_elem_of_lookup_1 ->%list_elem_of_singleton.
      destruct (Forall2_lookup_r _ _ _ _ _ Hcs Hi) as (t & Ht & Hc).
      destruct (Forall2_lookup_l _ _ _ _ _ Hlens Ht) as (k & _ & Hk).
      pose proof (content_in_store _ _ _ _ Hc Hk). lia.
Qed.

Lemma revised_response_handler_phase s state s' upd :
  revising false s state →
  revised_response_handler s state = Ok (s', upd) →
  ∃ rs n (i : nat) k,
    responses (merge state upd) = Some rs ∧ threads (merge state upd) = Some n ∧
    start (merge state upd) = Some 0 ∧ beams (merge state upd) = Some 3 ∧
    3 <= n ∧ Z.of_nat (length rs) = n ∧
    index (merge state upd) = Some (Z.of_nat (S i)) ∧ (S i ≤ length rs)%nat ∧
    lens s' rs (round_lens (S i) (length rs) k) ∧ distinct_contents s' rs.
Proof.
  intros (rs & n & i & k & Hrs & Hn & Hst & Hb & Hn3 & Hlen & Hi & Hlens
          & (cs & Hcs & Hnd) & Hlt) H.
  unfold revised_response_handler in H.
  ok_bind H as ar Har. ok_bind H as i' Hi'. ok_bind H as rs' Hrs'.
  apply key_Ok in Hi', Hrs'. assert (rs' = rs) as -> by congruence.
  assert (i' = Z.of_nat i) as -> by congruence.
  ok_bind H as t Ht. rewrite index_nonneg in Ht. apply or_raise_Ok in Ht.
  ok_bind H as th Hth. ok_bind H as s1 Hs1. injection H as <- <-.
  unfold list_append in Hs1. ok_bind Hs1 as l Hl. injection Hs1 as <-.
  apply deref_Ok in Hth, Hl.
  exists rs, n, i, k. simpl. rewrite Hn, Hst, Hb.
  split_and!; try done.
  - f_equal. lia.
  - apply Forall2_same_length_lookup. split.
    { rewrite round_lens_length; [done|lia]. }
    intros j u kj Hu Hkj.
    assert (j < length rs)%nat as Hj by (by eapply lookup_lt_Some).
    rewrite round_lens_lookup in Hkj by lia. injection Hkj as <-.
    destruct (Forall2_lookup_l _ _ _ _ _ Hlens Hu) as (ku & Hku & Hlenu).
    rewrite round_lens_lookup in Hku by lia. injection Hku as <-.
    apply history_len_Ok in Hlenu as (lu & (thu & Hthu & Hlu)%content_refs_Ok & Hk).
    apply history_len_Ok.
    destruct (decide (j = i)) as [->|Hji].
    + assert (u = t) as -> by congruence. assert (thu = th) as -> by congruence.
      assert (lu = l) as -> by congruence.
      exists (l ++ [ar]). split.
      * apply content_refs_Ok. exists th. simpl. split; [done|].
        apply list_lookup_insert_eq. by eapply lookup_lt_Some.
      * rewrite length_app. simpl.
        destruct (decide (i < S i)%nat); [|lia].
        destruct (decide (i < i)%nat); lia.
    + exists lu. split.
      * apply content_refs_Ok. exists thu. simpl. split; [done|].
        rewrite list_lookup_insert_ne; [done|]. intros Heq. apply Hji.
        destruct (Forall2_lookup_l _ _ _ _ _ Hcs Hu) as (cu & Hcu & Hcontu).
        destruct (Forall2_lookup_l _ _ _ _ _ Hcs Ht) as (ct & Hct & Hcontt).
        unfold content_of, deref in Hcontu, Hcontt.
        rewrite Hthu in Hcontu. rewrite Hth in Hcontt. simpl in *.
        injection Hcontu as <-. injection Hcontt as <-.
        rewrite <- Heq in Hcu. by eapply NoDup_lookup.
      * destruct (decide (j < S i)%nat), (decide (j < i)%nat); lia.
  - exists cs. split; [|done]. eapply Forall2_impl; [exact Hcs|]. done.
Qed.

Lemma beam_search_agent_phase s state s' upd :
  selection_ready s state →
  beam_search_agent s state = Ok (s', upd) →
  revising false s' (merge state upd).
Proof.
  intros (rs & n & k & Hrs & Hn & Hst & Hb & Hn3 & Hlen & Hlens) H.
  destruct (beam_search_agent_Ok _ _ _ _ H)
    as (rs' & sorted & b' & n' & final & Hrs' & Hsorted & Hb' & Hn' & _ & Hc & _ & ->).
  assert (rs' = rs) as -> by congruence. assert (b' = 3) as -> by congruence.
  assert (n' = n) as -> by congruence.
  pose proof (sorted_responses_perm _ _ _ Hsorted) as Hperm.
  assert (Z.of_nat (length final) = n) as Hfinal.
  { rewrite (copies_length _ _ _ _ Hc). apply replicated_length; [lia..|].
    rewrite slice_to_length, bound_in_range; [lia|]. rewrite Hperm. lia. }
  exists final, n, 0%nat, k. simpl. rewrite Hn, Hst, Hb.
  split_and!; try done; [| |lia].
  - rewrite round_lens_start. apply Forall2_replicate_r; [done|].
    eapply copies_history_len; [exact Hc|].
    apply Forall_forall. intros t Ht%replicated_elem.
    eapply lens_replicate_elem; [exact Hlens|]. by rewrite <- Hperm.
  - by eapply copies_distinct_contents.
Qed.

(** *** Every step keeps the invariant *)

Lemma step_invariant py_float reply c c' :
  invariant c → step py_float reply c = Ok c' → invariant c'.
Proof.
  destruct c as [[n s] state], c' as [[n' s'] state']. intros Hinv H.
  unfold step in H. ok_bind H as p Hexec. destruct p as [s1 upd].
  ok_bind H as n1 Hnext. injection H as <- <- <-.
  destruct n; cbn [exec_node] in Hexec; cbn [invariant] in Hinv.
  - (* ask_question *)
    injection Hexec as <- <-. cbn [next_node] in Hnext. injection Hnext as <-.
    exists [], 3, 1. simpl. split_and!; try done; try (by left).
    exists []. split; constructor.
  - (* get_initial_response *)
    ok_bind Hexec as x Hx. injection Hexec as <- <-.
    cbn [next_node] in Hnext. injection Hnext as <-. left.
    destruct (join_graph_same s state reply). by eapply initial_phase_same.
  - (* get_revision_response *)
    ok_bind Hexec as x Hx. injection Hexec as <- <-.
    cbn [next_node] in Hnext. injection Hnext as <-. right.
    destruct (join_graph_same s state reply). by eapply revising_same.
  - (* difficulty_assessment *)
    ok_bind Hexec as u Hu. injection Hexec as <- <-.
    destruct Hinv as [(rs & n & st & Hrs & Hn & Hst & Hlens & Hdist & Hroom & Hmode) Hst1].
    assert (st = 1) as -> by congruence.
    destruct Hmode as [[_ ->]|[? _]]; [|done].
    apply next_after_difficulty in Hnext as (rs' & n' & Hrs' & Hn' & ->).
    apply create_difficulty_agent_row in Hu.
    assert (responses (merge state u) = Some rs ∧ start (merge state u) = Some 0
            ∧ beams (merge state u) = Some 3 ∧ 3 <= n'
            ∧ threads (merge state u) = Some n') as (Hr2 & Hs2 & Hb2 & Hn3 & Hn2).
    { destruct Hu as [-> | [-> | [-> | ->]]]; simpl in *; rewrite ?Hrs;
        injection Hn' as <-; split_and!; try done. }
    assert (rs' = rs) as -> by congruence.
    case_bool_decide as Hlt; cbn [invariant].
    + exists rs, n', 0. split_and!; try done; [lia|by right].
    + exists rs, n', 1. split_and!; try done. lia.
  - (* commenter *)
    apply commenter_same in Hexec as [Hs Hc].
    cbn [next_node] in Hnext. injection Hnext as <-.
    destruct Hinv; [left; by eapply initial_phase_same
                   |right; by eapply revising_same].
  - (* scorer *)
    apply scorer_same in Hexec as [Hs Hc].
    apply next_after_scorer in Hnext as (st & n & rs & Hst & Hn & Hrs & ->).
    destruct Hinv as [Hinit|Hrev].
    + pose proof (initial_phase_same _ _ _ _ _ Hs Hc Hinit) as Hinit'.
      destruct Hinit' as (rs' & n' & st' & Hrs' & Hn' & Hst' & ? & ? & Hroom & ?).
      assert (rs' = rs) as -> by congruence. assert (n' = n) as -> by congruence.
      rewrite (bool_decide_eq_true_2 (Z.of_nat (length rs) < n)) by lia.
      rewrite orb_true_r. cbn [invariant]. by exists rs, n, st'.
    + pose proof (revising_same _ _ _ _ _ Hs Hc Hrev) as Hrev'.
      destruct Hrev' as (rs' & n' & i & k & Hrs' & Hn' & Hst' & ? & ? & Hlen & ?).
      assert (rs' = rs) as -> by congruence. assert (n' = n) as -> by congruence.
      assert (st = 0) as -> by congruence.
      rewrite (bool_decide_eq_false_2 (0 ≠ 0)) by lia.
      rewrite bool_decide_eq_false_2 by lia.
      cbn [orb invariant]. by exists rs, n, i, k.
  - (* check_done *)
    ok_bind Hexec as u Hu. injection Hexec as <- <-.
    unfold create_check_done_agent in Hu.
    ok_bind Hu as q Hq. ok_bind Hu as rs0 Hrs0. ok_bind Hu as hs Hhs.
    injection Hu as <-.
    apply next_after_check_done in Hnext as [-> | ->]; cbn [invariant]; [|done].
    destruct Hinv as (rs & n & i & k & Hrs & Hn & Hst & Hb & Hn3 & Hlen & Hi
                      & Hlens & _ & ->).
    exists rs, n, (k + 1). simpl. rewrite Hrs, Hn, Hst, Hb.
    split_and!; try done. by rewrite round_lens_end in Hlens.
  - (* final_summary *)
    cbn [next_node] in Hnext. by injection Hnext as <-.
  - (* beam_search_agent *)
    cbn [next_node] in Hnext. injection Hnext as <-. cbn [invariant].
    by eapply beam_search_agent_phase.
  - (* initial_response_handler *)
    destruct (initial_response_handler_phase _ _ _ _ Hinv Hexec)
      as (rs & t & n & st & Hrs & Hrs' & Hn & Hst & Hb & Hroom & Hmode & Hlens & Hdist).
    apply next_after_initial in Hnext as (st' & rs' & n' & Hst' & Hrs'' & Hn' & ->).
    assert (rs' = rs ++ [t]) as -> by congruence.
    assert (n' = n) as -> by congruence. assert (st' = st) as -> by congruence.
    pose proof (length_app rs [t]) as Hla. simpl in Hla.
    repeat case_bool_decide; cbn [invariant].
    + exists (rs ++ [t]), n, st. rewrite Hb. split_and!; try done. lia.
    + destruct Hmode as [[-> ->]|[-> _]]; [|done]. split; [|done].
      exists (rs ++ [t]), 3, 1. split_and!; try done; [lia|by left].
    + destruct Hmode as [[-> _]|(-> & Hb3 & Hn3)]; [done|].
      exists (rs ++ [t]), n, 1. rewrite Hb. split_and!; try done. lia.
  - (* revised_response_handler *)
    destruct (revised_response_handler_phase _ _ _ _ Hinv Hexec)
      as (rs & n & i & k & Hrs & Hn & Hst & Hb & Hn3 & Hlen & Hi & Hle & Hlens & Hdist).
    apply next_after_revision in Hnext
      as (rs' & last & len & r & i' & n' & Hrs' & _ & _ & _ & Hi' & Hn' & ->).
    assert (i' = Z.of_nat (S i)) as -> by congruence.
    assert (n' = n) as -> by congruence.
    repeat case_bool_decide; cbn [invariant]; [done| |].
    + exists rs, n, (S i), k. split_and!; try done. lia.
    + exists rs, n, (S i), k. split_and!; try done. lia.
  - (* END *)
    cbn [next_node] in Hnext. by injection Hnext as <-.
Qed.

Lemma run_invariant py_float replies : ∀ c c',
  invariant c → run py_float replies c = Ok c' → invariant c'.
Proof.
  induction replies as [|r replies IH]; intros c c' Hinv H; simpl in H.
  - by injection H as <-.
  - ok_bind H as c1 Hc1. eapply IH; [|exact H]. by eapply step_invariant.
Qed.

(** C8: in every reachable state of the workflow in which the check-done
    node (the convergence gate) is about to run, all threads of the
    population have histories of the same length. *)
Theorem check_done_sees_equal_lengths (py_float : string → option PyFloat)
    (s : Store) (state : GraphState) :
  reachable py_float (N_check_done, s, state) →
  ∃ rs k, responses state = Some rs ∧ ∀ t, t ∈ rs → history_len s t = Ok k.
Proof.
  intros (s0 & state0 & replies & Hrun).
  apply run_invariant in Hrun; [|done]. cbn [invariant] in Hrun.
  destruct Hrun as (rs & n & i & k & Hrs & _ & _ & _ & _ & _ & _ & Hlens & _ & ->).
  rewrite round_lens_end in Hlens. exists rs, (k + 1). split; [done|].
  intros t Ht. by eapply lens_replicate_elem.
Qed.

Lemma check_done_sees_equal_lengths_witness :
  ∃ rs k,
    responses ScenarioRun.at_check_done.2 = Some rs ∧
    ∀ t, t ∈ rs → history_len ScenarioRun.at_check_done.1.2 t = Ok k.
Proof.
  apply (check_done_sees_equal_lengths ScenarioRun.py_float
           ScenarioRun.at_check_done.1.2 ScenarioRun.at_check_done.2).
  exists empty_store, ScenarioRun.input, ScenarioRun.replies.
  vm_compute. reflexivity.
Defined.

(** The run of [ScenarioRun] does stop in front of the convergence check,
    with three threads of two entries each. *)
Example scenario_run_reaches_check_done :
  ScenarioRun.at_check_done.1.1 = N_check_done ∧
  responses ScenarioRun.at_check_done.2 = Some [3; 4; 5]%nat ∧
  history_len ScenarioRun.at_check_done.1.2 <$> [3; 4; 5]%nat = [Ok 2; Ok 2; Ok 2].
Proof. by vm_compute. Qed.

(** * Further properties of the nodes *)

(** ** The selection outside its usual parameters *)

Lemma scored_sort_keys s rs :
  forallb (scored s) rs = true → ∃ ks, sort_keys s rs = Ok ks.
Proof.
  rewrite forallb_elem. intros Hscored. apply mapM_is_Ok, Forall_forall.
  intros t Ht. destruct (scored_latest s t (Hscored t Ht)) as [q Hq].
  rewrite Hq. by eexists.
Qed.

(** [beams = 0]: nothing is kept, no copy is made, and the remainder
    [threads % beams] raises. *)
Theorem beam_search_zero_beams (s : Store) (state : GraphState) (rs : list ref)
    (threadCount : Z) :
  responses state = Some rs →
  beams state = Some 0 →
  threads state = Some threadCount →
  forallb (scored s) rs = true →
  beam_search_agent s state = Raise ZeroDivisionError.
Proof.
  intros Hrs Hb Hn Hscored. destruct (scored_sort_keys _ _ Hscored) as [ks Hks].
  unfold beam_search_agent, sorted_responses.
  rewrite Hrs. ok_simpl. rewrite Hks. ok_simpl. rewrite Hb, Hn. ok_simpl.
  unfold Py.slice_to, Py.bound. rewrite bool_decide_eq_false_2 by lia.
  replace (Z.to_nat (0 `min` _)) with 0%nat by lia. rewrite take_0. done.
Qed.

Lemma beam_search_zero_beams_witness :
  beam_search_agent ScenarioB.store (scenario_with 5 0) = Raise ZeroDivisionError.
Proof.
  apply (beam_search_zero_beams ScenarioB.store (scenario_with 5 0)
           [0; 1; 2; 3; 4]%nat 5); reflexivity.
Defined.

(** The size of the new population is fixed by the parameters and by how many
    threads the slice [responses[:beams]] holds, whatever the old size: with
    at least [beams] threads and [threads >= 0] it is [threads]. *)
Theorem beam_search_resizes (s : Store) (state : GraphState) (rs : list ref)
    (threadCount beamWidth : Z) (s' : Store) (upd : GraphState) :
  responses state = Some rs →
  threads state = Some threadCount →
  beams state = Some beamWidth →
  beam_search_agent s state = Ok (s', upd) →
  ∃ final,
    responses upd = Some final ∧
    length final
    = (Py.bound rs beamWidth * Z.to_nat (threadCount `div` beamWidth)
       + Z.to_nat (threadCount `mod` beamWidth))%nat ∧
    (1 <= beamWidth <= Z.of_nat (length rs) → 0 <= threadCount →
     Z.of_nat (length final) = threadCount).
Proof.
  intros Hrs Hn Hb Hrun.
  destruct (beam_search_agent_Ok _ _ _ _ Hrun)
    as (rs' & sorted & b' & n' & final & Hrs' & Hsorted & Hb' & Hn' & Hb0 & Hc
        & Hfit & ->).
  assert (rs' = rs) as -> by congruence.
  assert (b' = beamWidth) as -> by congruence.
  assert (n' = threadCount) as -> by congruence.
  pose proof (sorted_responses_perm _ _ _ Hsorted) as Hperm.
  assert (length (Py.slice_to sorted beamWidth) = Py.bound rs beamWidth) as Hbest.
  { rewrite slice_to_length. apply bound_length. by rewrite Hperm. }
  exists final. split; [done|].
  assert (length final
          = (Py.bound rs beamWidth * Z.to_nat (threadCount `div` beamWidth)
             + Z.to_nat (threadCount `mod` beamWidth))%nat) as Hlen.
  { rewrite (copies_length _ _ _ _ Hc). unfold replicated.
    rewrite length_app, bind_replicate_length, length_take, Hbest. lia. }
  split; [done|]. intros Hrange Hpos. rewrite Hlen.
  rewrite bound_in_range by lia.
  pose proof (Z.div_mod threadCount beamWidth ltac:(lia)).
  pose proof (Z.mod_pos_bound threadCount beamWidth ltac:(lia)).
  pose proof (Z.div_pos threadCount beamWidth Hpos ltac:(lia)).
  rewrite Nat2Z.inj_add, Nat2Z.inj_mul, !Z2Nat.id by lia. lia.
Qed.

Lemma beam_search_resizes_witness :
  ∃ final,
    responses (match beam_search_agent ScenarioB.store (scenario_with 7 2) with
               | Ok p => p.2 | Raise _ => no_keys end) = Some final ∧
    length final
    = (Py.bound [0; 1; 2; 3; 4]%nat 2 * Z.to_nat (7 `div` 2) + Z.to_nat (7 `mod` 2))%nat ∧
    (1 <= 2 <= Z.of_nat (length [0; 1; 2; 3; 4]%nat) → 0 <= 7 →
     Z.of_nat (length final) = 7).
Proof.
  destruct (beam_search_agent ScenarioB.store (scenario_with 7 2)) as [[s' upd]|e] eqn:Hrun;
    [|by vm_compute in Hrun].
  exact (beam_search_resizes ScenarioB.store (scenario_with 7 2)
           [0; 1; 2; 3; 4]%nat 7 2 s' upd eq_refl eq_refl eq_refl Hrun).
Defined.

Lemma bind_replicate_1 {A} (l : list A) : l ≫= replicate 1 = l.
Proof. induction l as [|x l IH]; [done|]. rewrite bind_cons, IH. done. Qed.

(** [beams = threads]: nobody is discarded and nobody is duplicated; the new
    population is one fresh copy of every thread, in the order the sort
    leaves: thread dicts that did not exist before the call, no two of them
    the same object, each with the value of its source. *)
Theorem beam_search_full_beam (s : Store) (state : GraphState) (rs : list ref)
    (threadCount : Z) :
  responses state = Some rs →
  threads state = Some threadCount →
  beams state = Some threadCount →
  Z.of_nat (length rs) = threadCount →
  1 <= threadCount →
  forallb (scored s) rs = true →
  ∃ s' state' sorted final,
    run_beam_search s state = Ok (s', state') ∧
    sorted_responses s rs = Ok sorted ∧
    discarded_responses state' = Some [] ∧
    responses state' = Some final ∧
    NoDup final ∧ Forall (λ c, (length (thread_objs s) ≤ c)%nat) final ∧
    Forall2 (λ src c, ∃ v, thread_value s src = Ok v ∧ thread_value s' c = Ok v)
      sorted final.
Proof.
  intros Hrs Hn Hb Hlen Hpos Hscored.
  destruct (beam_search_scored_run s state rs threadCount threadCount)
    as (ks & s' & state' & final & Hks & Hrun & Hfinal & Hdisc & _ & Hc);
    [done..|lia|done|].
  assert (length (list_sort_reverse fst ks).*2 = Z.to_nat threadCount) as Hl.
  { rewrite length_fmap, list_sort_reverse_length, <- (length_fmap snd),
      (sort_keys_refs _ _ _ Hks). lia. }
  assert ((list_sort_reverse fst ks).*2 ≡ₚ rs) as Hperm.
  { rewrite list_sort_reverse_perm. by rewrite (sort_keys_refs _ _ _ Hks). }
  exists s', state', (list_sort_reverse fst ks).*2, final. split_and!; try done.
  - unfold sorted_responses. by rewrite Hks.
  - rewrite Hdisc. f_equal. apply drop_ge. lia.
  - by eapply copies_NoDup.
  - by eapply copies_fresh.
  - unfold replicated in Hc. rewrite Z_div_same, Z_mod_same in Hc by lia.
    rewrite take_0, app_nil_r, bind_replicate_1, take_ge in Hc by lia.
    eapply copies_values; [exact Hc|].
    apply Forall_forall. intros t Ht. apply scored_readable.
    rewrite forallb_elem in Hscored. apply Hscored. by rewrite <- Hperm.
Qed.

Lemma beam_search_full_beam_witness :
  ∃ s' state' sorted final,
    run_beam_search ScenarioB.store (scenario_with 5 5) = Ok (s', state') ∧
    sorted_responses ScenarioB.store [0; 1; 2; 3; 4]%nat = Ok sorted ∧
    discarded_responses state' = Some [] ∧
    responses state' = Some final ∧
    NoDup final ∧
    Forall (λ c, (length (thread_objs ScenarioB.store) ≤ c)%nat) final ∧
    Forall2 (λ src c, ∃ v, thread_value ScenarioB.store src = Ok v ∧
                          thread_value s' c = Ok v)
      sorted final.
Proof.
  apply (beam_search_full_beam ScenarioB.store (scenario_with 5 5)
           [0; 1; 2; 3; 4]%nat 5); [reflexivity..|lia|reflexivity].
Defined.

(** [beams = 1], no latest score nan: the whole new population consists of
    fresh copies of one thread (thread dicts that did not exist before the
    call, no two of them the same object), which scores at least as much as
    every thread of the old population; all the others are discarded. *)
Theorem beam_search_single_beam (s : Store) (state : GraphState) (rs : list ref)
    (threadCount : Z) :
  responses state = Some rs →
  threads state = Some threadCount →
  beams state = Some 1 →
  Z.of_nat (length rs) = threadCount →
  1 <= threadCount →
  forallb (scored s) rs = true →
  forallb (latest_not_nan s) rs = true →
  ∃ s' state' top rest final v,
    run_beam_search s state = Ok (s', state') ∧
    top :: rest ≡ₚ rs ∧
    (∀ t, t ∈ rs → scores_at_least s top t) ∧
    discarded_responses state' = Some rest ∧
    responses state' = Some final ∧
    Z.of_nat (length final) = threadCount ∧
    NoDup final ∧ Forall (λ c, (length (thread_objs s) ≤ c)%nat) final ∧
    thread_value s top = Ok v ∧
    Forall (λ c, thread_value s' c = Ok v) final.
Proof.
  intros Hrs Hn Hb Hlen Hpos Hscored Hnan.
  destruct (beam_search_scored_run s state rs threadCount 1)
    as (ks & s' & state' & final & Hks & Hrun & Hfinal & Hdisc & _ & Hc);
    [done..|lia|done|].
  assert ((list_sort_reverse fst ks).*2 ≡ₚ rs) as Hperm.
  { rewrite list_sort_reverse_perm. by rewrite (sort_keys_refs _ _ _ Hks). }
  pose proof (sorted_by_score _ _ _ Hks (sort_keys_comparable _ _ _ Hks Hnan))
    as Hsorted.
  destruct ((list_sort_reverse fst ks).*2) as [|top rest] eqn:Hs.
  { apply Permutation_length in Hperm. simpl in Hperm. lia. }
  assert (∃ v, thread_value s top = Ok v) as [v Hv].
  { apply is_ok_Ok, scored_readable. rewrite forallb_elem in Hscored.
    apply Hscored. rewrite <- Hperm. left. }
  change (Z.to_nat 1) with 1%nat in *. simpl in Hc, Hdisc. rewrite drop_0 in Hdisc.
  exists s', state', top, rest, final, v. split_and!; try done.
  - intros t Ht. rewrite <- Hperm in Ht.
    apply StronglySorted_inv in Hsorted as [_ Hall].
    apply elem_of_cons in Ht as [->|Ht].
    + destruct (scored_latest s top) as [q Hq].
      { rewrite forallb_elem in Hscored. apply Hscored. rewrite <- Hperm. left. }
      exists q, q. split_and!; try done.
      rewrite forallb_elem in Hnan. specialize (Hnan top).
      unfold latest_not_nan in Hnan. rewrite Hq in Hnan.
      unfold float_le. rewrite float_eq_refl; [by rewrite orb_true_r|].
      apply negb_true_iff, Hnan. rewrite <- Hperm. left.
    + rewrite Forall_forall in Hall. by apply Hall.
  - rewrite (copies_length _ _ _ _ Hc). apply replicated_length; [lia..|done].
  - by eapply copies_NoDup.
  - by eapply copies_fresh.
  - assert (Forall (λ t, is_ok (thread_value s t) = true)
              (replicated threadCount 1 [top])) as Hok.
    { apply Forall_forall. intros t Ht. unfold replicated in Ht.
      assert (t = top) as ->.
      { apply elem_of_app in Ht as [Ht|Ht].
        - apply list_elem_of_bind in Ht as (u & Ht & ->%list_elem_of_singleton).
          by apply elem_of_replicate in Ht as [-> _].
        - apply elem_of_take in Ht as (i & Ht%list_elem_of_lookup_2 & _).
          by apply list_elem_of_singleton in Ht. }
      by rewrite Hv. }
    pose proof (copies_values _ _ _ _ Hc Hok) as Hvals.
    apply Forall_forall. intros c [i Hi]%list_elem_of_lookup_1.
    destruct (Forall2_lookup_r _ _ _ _ _ Hvals Hi) as (src & Hsrc & v' & Hv1 & Hv2).
    assert (src = top) as ->.
    { apply list_elem_of_lookup_2 in Hsrc. unfold replicated in Hsrc.
      apply elem_of_app in Hsrc as [Ht|Ht].
      - apply list_elem_of_bind in Ht as (u & Ht & ->%list_elem_of_singleton).
        by apply elem_of_replicate in Ht as [-> _].
      - apply elem_of_take in Ht as (j & Ht%list_elem_of_lookup_2 & _).
        by apply list_elem_of_singleton in Ht. }
    congruence.
Qed.

Lemma beam_search_single_beam_witness :
  ∃ s' state' top rest final v,
    run_beam_search ScenarioB.store (scenario_with 5 1) = Ok (s', state') ∧
    top :: rest ≡ₚ [0; 1; 2; 3; 4]%nat ∧
    (∀ t, t ∈ [0; 1; 2; 3; 4]%nat → scores_at_least ScenarioB.store top t) ∧
    discarded_responses state' = Some rest ∧
    responses state' = Some final ∧
    Z.of_nat (length final) = 5 ∧
    NoDup final ∧
    Forall (λ c, (length (thread_objs ScenarioB.store) ≤ c)%nat) final ∧
    thread_value ScenarioB.store top = Ok v ∧
    Forall (λ c, thread_value s' c = Ok v) final.
Proof.
  apply (beam_search_single_beam ScenarioB.store (scenario_with 5 1)
           [0; 1; 2; 3; 4]%nat 5); [reflexivity..|lia|reflexivity|reflexivity].
Defined.

(** ** What the sort key reads *)

Lemma latest_score_of_history s t h r :
  history s t = Ok h → last h = Some r → latest_score s t = key (score r).
Proof.
  intros (th & l & Hth & Hl & Hh)%history_Ok Hlast.
  unfold latest_score.
  rewrite (proj2 (content_refs_Ok s t l)) by (by exists th). ok_simpl.
  apply mapM_Ok in Hh.
  destruct h as [|x h _] using rev_ind; [done|].
  rewrite last_snoc in Hlast. injection Hlast as ->.
  apply Forall2_app_inv_r in Hh as (l1 & l2 & _ & Hl2 & ->).
  inversion Hl2 as [|d ? l2' ? Hd Hnil]; subst. inversion Hnil; subst.
  rewrite index_last. ok_simpl. rewrite Hd. done.
Qed.

(** The selection reads the score of the latest response of every thread and
    nothing else of the responses: when all histories can be read and are not
    empty, and the latest response of some thread has no score, it raises
    [KeyError]. *)
Theorem beam_search_needs_latest_scores (s : Store) (state : GraphState)
    (rs : list ref) :
  responses state = Some rs →
  Forall (λ t, ∃ h, history s t = Ok h ∧ h ≠ []) rs →
  Exists (λ t, ∃ h r, history s t = Ok h ∧ last h = Some r ∧ score r = None) rs →
  beam_search_agent s state = Raise KeyError.
Proof.
  intros Hrs Hall Hex. unfold beam_search_agent, sorted_responses, sort_keys.
  rewrite Hrs. ok_simpl.
  assert (mapM (λ x, k ← latest_score s x; Ok (k, x)) rs = Raise KeyError) as ->;
    [|done].
  clear Hrs. induction Hall as [|t rs (h & Hh & Hne) Hall IH].
  - by apply Exists_nil in Hex.
  - cbn [mapM].
    destruct (last h) as [r|] eqn:Hlast; [|by apply last_None in Hlast].
    rewrite (latest_score_of_history _ _ _ _ Hh Hlast).
    destruct (score r) as [q|] eqn:Hq; [|done]. ok_simpl.
    apply Exists_cons in Hex as [(h' & r' & Hh' & Hlast' & Hnone)|Hex].
    + congruence.
    + by rewrite (IH Hex).
Qed.

Lemma beam_search_needs_latest_scores_witness :
  beam_search_agent ScenarioDraft.store ScenarioDraft.state = Raise KeyError.
Proof.
  apply (beam_search_needs_latest_scores ScenarioDraft.store ScenarioDraft.state
           [0; 1; 2]%nat).
  - reflexivity.
  - repeat constructor; eexists; (split; [by vm_compute|done]).
  - do 2 apply Exists_cons_tl. apply Exists_cons_hd.
    eexists _, _. split_and!; [by vm_compute|reflexivity|reflexivity].
Defined.

(** ** The handlers *)

Lemma revised_response_handler_Ok s state s' upd :
  revised_response_handler s state = Ok (s', upd) ↔
  ∃ a i rs t th l,
    agent_response state = Some a ∧ index state = Some i ∧
    responses state = Some rs ∧ Py.index rs i = Ok t ∧
    thread_objs s !! t = Some th ∧ lists s !! content th = Some l ∧
    s' = mkStore (dicts s) (<[content th := l ++ [a]]> (lists s)) (thread_objs s) ∧
    upd = mkState None None (Some rs) None None None None None None
            (Some (i + 1)) None None None.
Proof.
  unfold revised_response_handler, list_append. split.
  - intros H. ok_bind H as a Ha. ok_bind H as i Hi. ok_bind H as rs Hrs.
    ok_bind H as t Ht. ok_bind H as th Hth. ok_bind H as s1 Hs1.
    ok_bind Hs1 as l Hl. injection Hs1 as <-. injection H as <- <-.
    apply key_Ok in Ha, Hi, Hrs. apply deref_Ok in Hth, Hl.
    by exists a, i, rs, t, th, l.
  - intros (a & i & rs & t & th & l & Ha & Hi & Hrs & Ht & Hth & Hl & -> & ->).
    rewrite Ha, Hi, Hrs. ok_simpl. rewrite Ht. ok_simpl.
    apply deref_Ok in Hth, Hl. rewrite Hth. ok_simpl. rewrite Hl. done.
Qed.

(** Appending to one content list: the threads that hold another list read
    as before, the threads that hold this list have one more entry. *)
Lemma append_elsewhere s c l a u cu :
  content_of s u = Ok cu → cu ≠ c →
  history (mkStore (dicts s) (<[c := l ++ [a]]> (lists s)) (thread_objs s)) u
  = history s u.
Proof.
  unfold content_of, history, content_refs. cbn [thread_objs lists dicts].
  intros Hcu Hne. destruct (deref (thread_objs s) u) as [th|]; [|done].
  ok_simpl. injection Hcu as <-. unfold deref.
  by rewrite list_lookup_insert_ne.
Qed.

Lemma append_here s c l a ra u h :
  content_of s u = Ok c → lists s !! c = Some l → dicts s !! a = Some ra →
  history s u = Ok h →
  history (mkStore (dicts s) (<[c := l ++ [a]]> (lists s)) (thread_objs s)) u
  = Ok (h ++ [ra]).
Proof.
  intros Hc Hl Ha (th & l' & Hth & Hl' & Hh)%history_Ok.
  unfold content_of in Hc. apply deref_Ok in Hth. rewrite Hth in Hc.
  injection Hc as <-. assert (l' = l) as -> by congruence.
  apply history_Ok. exists th, (l ++ [a]). cbn [thread_objs lists dicts].
  apply deref_Ok in Hth. split_and!; [done| |].
  - apply list_lookup_insert_eq. by eapply lookup_lt_Some.
  - apply mapM_Ok, Forall2_app; [by apply mapM_Ok|].
    repeat constructor. by apply deref_Ok.
Qed.

(** The revised response handler appends the response under [agent_response]
    to the history of the thread at the cursor, moves the cursor to the next
    thread, and leaves the history of every thread with another content list
    as it was. *)
Theorem revised_response_handler_appends (s : Store) (state : GraphState)
    (rs : list ref) (cursor : Z) (t a : ref) (ra : AgentResponse)
    (h : list AgentResponse) :
  responses state = Some rs →
  index state = Some cursor →
  Py.index rs cursor = Ok t →
  agent_response state = Some a →
  dicts s !! a = Some ra →
  history s t = Ok h →
  ∃ s' upd,
    revised_response_handler s state = Ok (s', upd) ∧
    history s' t = Ok (h ++ [ra]) ∧
    upd = mkState None None (Some rs) None None None None None None
            (Some (cursor + 1)) None None None ∧
    ∀ u cu ct, content_of s u = Ok cu → content_of s t = Ok ct → cu ≠ ct →
               history s' u = history s u.
Proof.
  intros Hrs Hi Ht Ha Hra Hh.
  pose proof Hh as (th & l & Hth & Hl & _)%history_Ok.
  eexists _, _. split_and!.
  - apply revised_response_handler_Ok. by exists a, cursor, rs, t, th, l.
  - eapply append_here; try done. unfold content_of, deref. by rewrite Hth.
  - done.
  - intros u cu ct Hcu Hct Hne. eapply append_elsewhere; [done|].
    unfold content_of, deref in Hct. rewrite Hth in Hct. by injection Hct as <-.
Qed.

Lemma revised_response_handler_appends_witness :
  ∃ s' upd,
    revised_response_handler ScenarioC.store ScenarioC.state = Ok (s', upd) ∧
    history s' 2%nat = Ok ([ScenarioB.scored "C" 7] ++ [ScenarioB.scored "C2" 8]) ∧
    upd = mkState None None (Some [0; 1; 2; 3; 4]%nat) None None None None None None
            (Some (2 + 1)) None None None ∧
    ∀ u cu ct, content_of ScenarioC.store u = Ok cu →
               content_of ScenarioC.store 2%nat = Ok ct → cu ≠ ct →
               history s' u = history ScenarioC.store u.
Proof.
  apply (revised_response_handler_appends ScenarioC.store ScenarioC.state
           [0; 1; 2; 3; 4]%nat 2 2%nat 7%nat (ScenarioB.scored "C2" 8)
           [ScenarioB.scored "C" 7]); reflexivity.
Defined.

(** A cursor outside the population raises [IndexError]. *)
Theorem revised_response_handler_out_of_range (s : Store) (state : GraphState)
    (rs : list ref) (cursor : Z) (a : ref) :
  responses state = Some rs →
  index state = Some cursor →
  agent_response state = Some a →
  Z.of_nat (length rs) <= cursor ∨ cursor < - Z.of_nat (length rs) →
  revised_response_handler s state = Raise IndexError.
Proof.
  intros Hrs Hi Ha Hout. unfold revised_response_handler.
  rewrite Ha, Hi, Hrs. ok_simpl. unfold Py.index.
  rewrite !bool_decide_eq_false_2 by lia. done.
Qed.

Lemma revised_response_handler_out_of_range_witness :
  revised_response_handler ScenarioC.after_round.1.2 ScenarioC.after_round.2
  = Raise IndexError.
Proof.
  apply (revised_response_handler_out_of_range ScenarioC.after_round.1.2
           ScenarioC.after_round.2 [0; 1; 2; 3; 4]%nat 5 9%nat);
    [reflexivity..|left; simpl; lia].
Defined.

Lemma initial_response_handler_Ok s state s' upd :
  initial_response_handler s state = Ok (s', upd) ↔
  ∃ a name rs next,
    agent_response state = Some a ∧ initial_response_agent state = Some name ∧
    responses state = Some rs ∧ agent_name_dict name = Some next ∧
    s' = mkStore (dicts s) (lists s ++ [[a]])
           (thread_objs s ++ [mkThread name (length (lists s))]) ∧
    upd = mkState None (Some next) (Some (rs ++ [length (thread_objs s)])) None None
            None None None None None None None None.
Proof.
  unfold initial_response_handler. split.
  - intros H. ok_bind H as a Ha. ok_bind H as name Hname. ok_bind H as rs Hrs.
    simpl in H. ok_bind H as next Hnext. injection H as <- <-.
    apply key_Ok in Ha, Hname, Hrs, Hnext. by exists a, name, rs, next.
  - intros (a & name & rs & next & Ha & Hname & Hrs & Hnext & -> & ->).
    rewrite Ha, Hname, Hrs. ok_simpl. simpl. rewrite Hnext. done.
Qed.

Lemma agent_name_dict_Some name next :
  agent_name_dict name = Some next ↔
  (name = "GPT" ∧ next = "Claude") ∨ (name = "Claude" ∧ next = "Mistral")
  ∨ (name = "Mistral" ∧ next = "GPT").
Proof.
  unfold agent_name_dict. split.
  - repeat case_bool_decide; intros [= <-]; tauto.
  - intros [[-> ->]|[[-> ->]|[-> ->]]]; reflexivity.
Qed.

(** The initial response handler starts a new thread: a fresh thread dict
    named after the current agent whose history is the response under
    [agent_response]; it is added at the end of the population, the histories
    of all other threads stay as they were, and the next agent of the rotation
    GPT, Claude, Mistral is selected.  An agent outside the rotation raises
    [KeyError]. *)
Theorem initial_response_handler_adds_thread (s : Store) (state : GraphState)
    (rs : list ref) (name : string) (a : ref) (ra : AgentResponse) :
  responses state = Some rs →
  initial_response_agent state = Some name →
  agent_response state = Some a →
  dicts s !! a = Some ra →
  (∀ next, agent_name_dict name = Some next →
     ∃ s' t,
       initial_response_handler s state
       = Ok (s', mkState None (Some next) (Some (rs ++ [t])) None None
                   None None None None None None None None) ∧
       thread_value s' t = Ok (name, [ra]) ∧
       thread_value s t = Raise Dangling ∧
       ∀ u hu, history s u = Ok hu → history s' u = Ok hu)
  ∧ (agent_name_dict name = None →
     initial_response_handler s state = Raise KeyError).
Proof.
  intros Hrs Hname Ha Hra. split.
  - intros next Hnext.
    set (s' := mkStore (dicts s) (lists s ++ [[a]])
                 (thread_objs s ++ [mkThread name (length (lists s))])).
    exists s', (length (thread_objs s)). split_and!.
    + apply initial_response_handler_Ok. by exists a, name, rs, next.
    + apply thread_value_Ok.
      exists (mkThread name (length (lists s))), [a], [ra]. cbn [thread_objs lists dicts s' content agent_name].
      split_and!; try done; try by apply list_lookup_middle.
      apply mapM_Ok. repeat constructor. by apply deref_Ok.
    + unfold thread_value, deref. by rewrite lookup_ge_None_2.
    + intros u hu. apply history_extends.
      repeat split; simpl; [done|by apply prefix_app_r..].
  - intros Hnone. unfold initial_response_handler.
    rewrite Ha, Hname, Hrs. ok_simpl. simpl. by rewrite Hnone.
Qed.

Lemma initial_response_handler_adds_thread_witness :
  (∀ next, agent_name_dict "GPT" = Some next →
     ∃ s' t,
       initial_response_handler ScenarioA.store ScenarioA.state
       = Ok (s', mkState None (Some next) (Some ([0; 1; 2]%nat ++ [t])) None None
                   None None None None None None None None) ∧
       thread_value s' t = Ok ("GPT", [ScenarioB.scored "C" 9]) ∧
       thread_value ScenarioA.store t = Raise Dangling ∧
       ∀ u hu, history ScenarioA.store u = Ok hu → history s' u = Ok hu)
  ∧ (agent_name_dict "GPT" = None →
     initial_response_handler ScenarioA.store ScenarioA.state = Raise KeyError).
Proof.
  apply (initial_response_handler_adds_thread ScenarioA.store ScenarioA.state
           [0; 1; 2]%nat "GPT" 2%nat (ScenarioB.scored "C" 9)); reflexivity.
Defined.

(** ** Commenting and scoring *)

Lemma create_commenter_agent_Ok s state llm s' upd :
  create_commenter_agent s state llm = Ok (s', upd) →
  ∃ q a r c,
    question state = Some q ∧ agent_response state = Some a ∧
    dicts s !! a = Some r ∧
    s' = set_dict s a (mkResponse (text r) (Some c) (score r)) ∧
    upd = mkState None None None None None (Some a) None None None None None
            None None.
Proof.
  unfold create_commenter_agent. intros H.
  ok_bind H as q Hq. ok_bind H as a Ha. ok_bind H as r Hr.
  injection H as <- <-. apply key_Ok in Hq, Ha. apply deref_Ok in Hr.
  by eexists q, a, r, _.
Qed.

Lemma create_scorer_agent_Ok py_float s state llm s' upd :
  create_scorer_agent py_float s state llm = Ok (s', upd) →
  ∃ q a r c x,
    question state = Some q ∧ agent_response state = Some a ∧
    dicts s !! a = Some r ∧ comments r = Some c ∧
    s' = set_dict s a (mkResponse (text r) (Some c) (Some x)) ∧
    upd = mkState None None None None None (Some a) None None None None None
            None None.
Proof.
  unfold create_scorer_agent. intros H.
  ok_bind H as q Hq. ok_bind H as a Ha. ok_bind H as r Hr.
  ok_bind H as c Hc. ok_bind H as x Hx.
  injection H as <- <-. apply key_Ok in Hq, Ha, Hc. apply deref_Ok in Hr.
  by exists q, a, r, c, x.
Qed.

(** Commenting and then scoring fills in the response under [agent_response]
    in place: its text stays, its comments are the commenter's reply and its
    score is the parsed reply of the scorer; every other response dict, every
    content list and every thread dict is untouched.  A scorer reply that
    [float] rejects raises [ValueError]. *)
Theorem comment_then_score (py_float : string → option PyFloat) (s : Store)
    (state : GraphState) (q : string) (a : ref) (r : AgentResponse)
    (comment grade : string) :
  question state = Some q →
  agent_response state = Some a →
  dicts s !! a = Some r →
  ∃ s1 upd1,
    create_commenter_agent s state (λ _, comment) = Ok (s1, upd1) ∧
    (∀ x, py_float grade = Some x →
       ∃ s2 upd2,
         create_scorer_agent py_float s1 (merge state upd1) (λ _, grade)
         = Ok (s2, upd2) ∧
         dicts s2 !! a = Some (mkResponse (text r) (Some comment) (Some x)) ∧
         (∀ d, d ≠ a → dicts s2 !! d = dicts s !! d) ∧
         lists s2 = lists s ∧ thread_objs s2 = thread_objs s) ∧
    (py_float grade = None →
     create_scorer_agent py_float s1 (merge state upd1) (λ _, grade)
     = Raise ValueError).
Proof.
  intros Hq Ha Hr. pose proof (lookup_lt_Some _ _ _ Hr) as Hlt.
  unfold create_commenter_agent, create_scorer_agent.
  rewrite Hq, Ha. ok_simpl. unfold deref at 1. rewrite Hr. ok_simpl.
  eexists _, _. split; [done|]. cbn [merge question agent_response overwrite].
  rewrite Hq. ok_simpl. unfold deref, set_dict. cbn [dicts].
  rewrite list_lookup_insert_eq by done. ok_simpl. cbn [comments text].
  split.
  - intros x ->. ok_simpl. eexists _, _. split; [done|]. cbn [dicts lists thread_objs].
    split_and!; try done.
    + rewrite list_lookup_insert_eq; [done|]. by rewrite length_insert.
    + intros d Hd. by rewrite !list_lookup_insert_ne.
  - by intros ->.
Qed.

Lemma comment_then_score_witness :
  ∃ s1 upd1,
    create_commenter_agent ScenarioDraft.store ScenarioDraft.state (λ _, "fine")
    = Ok (s1, upd1) ∧
    (∀ x, ScenarioRun.py_float "7.5" = Some x →
       ∃ s2 upd2,
         create_scorer_agent ScenarioRun.py_float s1
           (merge ScenarioDraft.state upd1) (λ _, "7.5") = Ok (s2, upd2) ∧
         dicts s2 !! 3%nat
         = Some (mkResponse (text (mkResponse "D" None None)) (Some "fine") (Some x)) ∧
         (∀ d, d ≠ 3%nat → dicts s2 !! d = dicts ScenarioDraft.store !! d) ∧
         lists s2 = lists ScenarioDraft.store ∧
         thread_objs s2 = thread_objs ScenarioDraft.store) ∧
    (ScenarioRun.py_float "7.5" = None →
     create_scorer_agent ScenarioRun.py_float s1
       (merge ScenarioDraft.state upd1) (λ _, "7.5") = Raise ValueError).
Proof.
  apply (comment_then_score ScenarioRun.py_float ScenarioDraft.store
           ScenarioDraft.state "q" 3%nat (mkResponse "D" None None) "fine" "7.5");
    reflexivity.
Defined.

(** A response that has not been commented cannot be scored: the scorer
    raises [KeyError] whatever the model answers. *)
Theorem score_before_comment (py_float : string → option PyFloat) (s : Store)
    (state : GraphState) (q : string) (a : ref) (r : AgentResponse) (llm : LLM) :
  question state = Some q →
  agent_response state = Some a →
  dicts s !! a = Some r →
  comments r = None →
  create_scorer_agent py_float s state llm = Raise KeyError.
Proof.
  intros Hq Ha Hr Hc. unfold create_scorer_agent.
  rewrite Hq, Ha. ok_simpl. unfold deref. rewrite Hr. ok_simpl. by rewrite Hc.
Qed.

Lemma score_before_comment_witness :
  create_scorer_agent ScenarioRun.py_float ScenarioDraft.store ScenarioDraft.state
    (λ _, "7.5") = Raise KeyError.
Proof.
  apply (score_before_comment ScenarioRun.py_float ScenarioDraft.store
           ScenarioDraft.state "q" 3%nat (mkResponse "D" None None));
    reflexivity.
Defined.

(** ** The convergence check *)

(** The convergence check stops the loop only on the exact reply
    ["PROCESS DONE"]: then the graph goes to the final summary; on any other
    reply it goes back to the selection.  Neither the store nor the
    population changes. *)
Theorem check_done_routes_on_exact_reply (py_float : string → option PyFloat)
    (reply : string) (s : Store) (state : GraphState) (n' : Node) (s' : Store)
    (state' : GraphState) :
  step py_float reply (N_check_done, s, state) = Ok (n', s', state') →
  s' = s ∧ responses state' = responses state ∧
  (reply = "PROCESS DONE" → n' = N_final_summary) ∧
  (reply ≠ "PROCESS DONE" → n' = N_beam_search_agent).
Proof.
  unfold step. intros H. ok_bind H as p Hp. destruct p as [s1 upd].
  ok_bind H as n1 Hn1. injection H as <- <- <-.
  cbn [exec_node] in Hp. ok_bind Hp as u Hu. injection Hp as <- <-.
  unfold create_check_done_agent in Hu.
  ok_bind Hu as q Hq. ok_bind Hu as rs Hrs. ok_bind Hu as hs Hhs.
  injection Hu as <-. cbn [next_node] in Hn1. unfold done_router in Hn1.
  cbn [merge done overwrite] in Hn1. ok_simpl.
  split_and!; [done|by destruct state|..]; intros Hreply.
  - rewrite bool_decide_eq_true_2 in Hn1 by done. by injection Hn1 as <-.
  - rewrite bool_decide_eq_false_2 in Hn1 by done. by injection Hn1 as <-.
Qed.

Lemma check_done_routes_on_exact_reply_witness :
  ScenarioRun.at_check_done.1.2 = ScenarioRun.at_check_done.1.2 ∧
  responses (merge ScenarioRun.at_check_done.2
               (mkState None None None None None None None None None None None
                  (Some false) None))
  = responses ScenarioRun.at_check_done.2 ∧
  ("PROCESS DONE." = "PROCESS DONE" → N_beam_search_agent = N_final_summary) ∧
  ("PROCESS DONE." ≠ "PROCESS DONE" → N_beam_search_agent = N_beam_search_agent).
Proof.
  apply (check_done_routes_on_exact_reply ScenarioRun.py_float "PROCESS DONE."
           ScenarioRun.at_check_done.1.2 ScenarioRun.at_check_done.2
           N_beam_search_agent ScenarioRun.at_check_done.1.2).
  vm_compute. reflexivity.
Defined.

(** * Runs from a proper input *)

(** ** The store stays closed *)

Lemma closed_lookup_list s c l d :
  closed s → lists s !! c = Some l → d ∈ l → (d < length (dicts s))%nat.
Proof.
  intros [Hl _] Hc Hd. rewrite Forall_forall in Hl.
  specialize (Hl l (list_elem_of_lookup_2 _ _ _ Hc)).
  rewrite Forall_forall in Hl. by apply Hl.
Qed.

Lemma closed_new_dict s d : closed s → closed (new_dict s d).1.
Proof.
  intros [Hl Ht]. split; simpl; [|done].
  eapply Forall_impl; [exact Hl|]. intros l Hall.
  eapply Forall_impl; [exact Hall|]. intros x. rewrite length_app. simpl. lia.
Qed.

Lemma closed_set_dict s a d : closed s → closed (set_dict s a d).
Proof.
  intros [Hl Ht]. split; simpl; [|done].
  eapply Forall_impl; [exact Hl|]. intros l Hall.
  eapply Forall_impl; [exact Hall|]. intros x. by rewrite length_insert.
Qed.

Lemma closed_new_thread s name (l : list ref) :
  closed s → Forall (λ d, (d < length (dicts s))%nat) l →
  closed (mkStore (dicts s) (lists s ++ [l])
            (thread_objs s ++ [mkThread name (length (lists s))])).
Proof.
  intros [Hl Ht] Hnew. split; simpl.
  - apply Forall_app. split; [done|]. by repeat constructor.
  - apply Forall_app. split.
    + eapply Forall_impl; [exact Ht|]. intros th. rewrite length_app. simpl. lia.
    + repeat constructor. simpl. rewrite length_app. simpl. lia.
Qed.

Lemma closed_append s c l a :
  closed s → lists s !! c = Some l → (a < length (dicts s))%nat →
  closed (mkStore (dicts s) (<[c := l ++ [a]]> (lists s)) (thread_objs s)).
Proof.
  intros [Hl Ht] Hc Ha. split; simpl.
  - apply Forall_insert; [done|]. apply Forall_app. split; [|by repeat constructor].
    rewrite Forall_forall in Hl. by eapply Hl, list_elem_of_lookup_2.
  - eapply Forall_impl; [exact Ht|]. intros th. by rewrite length_insert.
Qed.

Lemma closed_fresh s : closed s → fresh_dict s (length (dicts s)).
Proof.
  intros [Hl _]. eapply Forall_impl; [exact Hl|]. intros l Hall Hin.
  rewrite Forall_forall in Hall. specialize (Hall _ Hin). lia.
Qed.

(** What a deep copy adds to the store. *)
Lemma deepcopy_shape s t s' t' :
  deepcopy s t = Ok (s', t') →
  ∃ added l' name,
    dicts s' = dicts s ++ added ∧ lists s' = lists s ++ [l'] ∧
    thread_objs s' = thread_objs s ++ [mkThread name (length (lists s))] ∧
    Forall (λ d, (d < length (dicts s'))%nat) l'.
Proof.
  intros H. pose proof (deepcopy_spec _ _ _ _ H) as ((Hd & _ & _) & Halloc & _).
  unfold deepcopy in H.
  ok_bind H as th Hth. ok_bind H as l Hl. ok_bind H as vs Hvs.
  destruct (deepcopy_items s [] (zip l vs)) as [s1 l'] eqn:Hitems.
  simpl in H. injection H as <- <-. simpl in *.
  apply mapM_Ok in Hvs.
  eapply (deepcopy_items_spec s) in Hitems as (Hp & Hl1 & Ht1 & Hall); cycle 1.
  { eapply Forall2_impl; [exact Hvs|]. intros ??. by rewrite deref_Ok. }
  { done. }
  { intros k v. simpl. done. }
  destruct Hp as [added Hadded].
  exists added, l', (agent_name th). rewrite Hl1, Ht1. split_and!; try done.
  apply Forall_forall. intros d [i Hi]%list_elem_of_lookup_1.
  destruct (Forall2_lookup_l _ _ _ _ _ Hall Hi) as (r & _ & _ & Hr).
  by eapply lookup_lt_Some.
Qed.

Lemma closed_deepcopy s t s' t' : closed s → deepcopy s t = Ok (s', t') → closed s'.
Proof.
  intros [Hl Ht] (added & l' & name & Hd & Hl' & Ht' & Hall)%deepcopy_shape.
  split.
  - rewrite Hl'. apply Forall_app. split; [|by repeat constructor].
    eapply Forall_impl; [exact Hl|]. intros l Hin.
    eapply Forall_impl; [exact Hin|]. intros x. rewrite Hd, length_app. lia.
  - rewrite Ht', Hl'. apply Forall_app. split.
    + eapply Forall_impl; [exact Ht|]. intros th. rewrite length_app. simpl. lia.
    + repeat constructor. simpl. rewrite length_app. simpl. lia.
Qed.

Lemma closed_copies s srcs s' out : copies s srcs s' out → closed s → closed s'.
Proof.
  induction 1 as [|s src s1 c srcs s2 out Hc _ IH]; [done|].
  intros Hs. apply IH. by eapply closed_deepcopy.
Qed.

(** ** Histories under the updates of the nodes *)

Lemma history_set_dict s a d t h :
  fresh_dict s a → history s t = Ok h → history (set_dict s a d) t = Ok h.
Proof.
  intros Hfresh (th & l & Hth & Hl & Hh)%history_Ok.
  apply history_Ok. exists th, l. simpl. split_and!; try done.
  apply mapM_deref_insert; [|done].
  unfold fresh_dict in Hfresh. rewrite Forall_forall in Hfresh.
  by eapply Hfresh, list_elem_of_lookup_2.
Qed.

Lemma history_content_of s t h : history s t = Ok h → ∃ c, content_of s t = Ok c.
Proof.
  intros (th & l & Hth & _)%history_Ok. exists (content th).
  unfold content_of, deref. by rewrite Hth.
Qed.

Lemma history_len_of_history s t h m :
  history s t = Ok h → history_len s t = Ok m → m = Z.of_nat (length h).
Proof. intros Hh%history_history_len Hm. congruence. Qed.

(** ** The predicates under the updates of the nodes *)

Lemma complete_population_impl s s' rs :
  (∀ t h, history s t = Ok h → history s' t = Ok h) →
  complete_population s rs → complete_population s' rs.
Proof.
  intros Himpl Hc. eapply Forall_impl; [exact Hc|].
  intros t (h & Hh & Hne & Hall). exists h. split_and!; try done. by apply Himpl.
Qed.

Lemma rotation_same_threads s s' rs :
  thread_objs s `prefix_of` thread_objs s' → rotation s rs → rotation s' rs.
Proof.
  intros Hp Hrot i t Hi. destruct (Hrot i t Hi) as (th & Hth & Hname).
  exists th. split; [|done]. by eapply prefix_lookup_Some.
Qed.

Lemma within_budget_same_shape i s s' rs r :
  same_shape s s' → within_budget i s rs r → within_budget i s' rs r.
Proof.
  intros Hs Hb j t m Hj Hm. rewrite (history_len_same_shape _ _ _ Hs) in Hm.
  by eapply Hb.
Qed.

Lemma within_budget_weaken i s rs r : within_budget 0 s rs r → within_budget i s rs r.
Proof.
  intros Hb j t m Hj Hm. destruct (Hb j t m Hj Hm) as [? Hr]. split; [done|].
  intros _. apply Hr. lia.
Qed.

Lemma configured_same state state' n r :
  difficulty state' = difficulty state → threads state' = threads state →
  beams state' = beams state → revisions state' = revisions state →
  start state' = start state →
  configured state n r → configured state' n r.
Proof.
  intros H1 H2 H3 H4 H5 (d & ? & ? & ? & ? & ? & ? & ? & ?).
  exists d. rewrite H1, H2, H3, H4, H5. done.
Qed.

Lemma configured_budget state n r : configured state n r → 1 <= r ∧ 3 <= n.
Proof. intros (d & ? & _ & _ & -> & _ & _ & -> & _). lia. Qed.

Lemma nth_agent_next i : agent_name_dict (nth_agent i) = Some (nth_agent (S i)).
Proof.
  unfold nth_agent.
  pose proof (Nat.mod_upper_bound i 3 ltac:(lia)) as Hi.
  replace (S i mod 3)%nat with ((S (i mod 3)) mod 3)%nat
    by (rewrite <- Nat.add_1_r, <- (Nat.add_1_r i), Nat.Div0.add_mod_idemp_l; done).
  destruct (i mod 3)%nat as [|[|[|k]]]; try done; lia.
Qed.

Lemma complete_scored s t h :
  history s t = Ok h → h ≠ [] → Forall complete h → scored s t = true.
Proof.
  intros Hh Hne Hall. unfold scored.
  destruct (history_thread_value _ _ _ Hh) as (v & -> & _). simpl.
  destruct (last h) as [r|] eqn:Hlast; [|by apply last_None in Hlast].
  rewrite (latest_score_of_history _ _ _ _ Hh Hlast).
  rewrite Forall_forall in Hall.
  destruct (Hall r) as [_ [q ->]]; [|done].
  apply last_Some in Hlast as [h' ->]. apply elem_of_app. right. left.
Qed.

Lemma complete_population_scored s rs :
  complete_population s rs → forallb (scored s) rs = true.
Proof.
  intros Hc. apply forallb_elem. intros t Ht.
  unfold complete_population in Hc. rewrite Forall_forall in Hc.
  destruct (Hc t Ht) as (h & Hh & Hne & Hall). by eapply complete_scored.
Qed.

Lemma same_keys_configured state state' n r :
  same_keys state state' → configured state n r → configured state' n r.
Proof.
  intros (_ & _ & ? & ? & ? & ? & ?). by apply configured_same.
Qed.

Lemma collecting_same s s' state state' rs :
  thread_objs s `prefix_of` thread_objs s' → same_keys state state' →
  collecting s state rs → collecting s' state' rs.
Proof.
  intros Hp Hk (Hrot & Hagent & Hmode).
  pose proof Hk as (_ & Ha & _ & Hst & _). split_and!.
  - by eapply rotation_same_threads.
  - by rewrite Ha.
  - destruct Hmode as [?|(n & r & ?)]; [left; by rewrite Hst|right].
    exists n, r. by eapply same_keys_configured.
Qed.

Lemma budgeted_same i s s' state state' rs :
  same_shape s s' → same_keys state state' →
  budgeted i s state rs → budgeted i s' state' rs.
Proof.
  intros Hs Hk (n & r & Hc & Hlen & Hb). exists n, r. split_and!; try done.
  - by eapply same_keys_configured.
  - by eapply within_budget_same_shape.
Qed.

Lemma at_cursor_same s s' state state' rs :
  same_shape s s' → same_keys state state' → index state' = index state →
  at_cursor s state rs → at_cursor s' state' rs.
Proof.
  intros Hs Hk Hi (i & Hidx & Hb). exists i. rewrite Hi. split; [done|].
  by eapply budgeted_same.
Qed.

Lemma in_critique_same s s' state state' rs :
  same_shape s s' → same_config state state' → same_keys state state' →
  in_critique s state rs → in_critique s' state' rs.
Proof.
  intros Hs Hc Hk [[Hinit Hcol]|[Hrev Hcur]]; [left|right]; split.
  - by eapply initial_phase_same.
  - eapply collecting_same; [|done..]. destruct Hs as [_ ->]. done.
  - by eapply revising_same.
  - eapply at_cursor_same; try done. by destruct Hc as (_ & _ & _ & _ & ?).
Qed.

Lemma scorer_route_initial s state n' :
  initial_phase 1 s state → next_node N_scorer s state = Ok n' →
  n' = N_initial_response_handler.
Proof.
  intros (rs & n & st & Hrs & Hn & Hst & _ & _ & Hroom & _)
    (st' & n0 & rs' & Hst' & Hn' & Hrs' & ->)%next_after_scorer.
  assert (rs' = rs) as -> by congruence. assert (n0 = n) as -> by congruence.
  rewrite (bool_decide_eq_true_2 (Z.of_nat (length rs) < n)) by lia.
  by rewrite orb_true_r.
Qed.

Lemma scorer_route_revising s state n' :
  revising false s state → next_node N_scorer s state = Ok n' →
  n' = N_revised_response_handler.
Proof.
  intros (rs & n & i & k & Hrs & Hn & Hst & _ & _ & Hlen & _)
    (st' & n0 & rs' & Hst' & Hn' & Hrs' & ->)%next_after_scorer.
  assert (rs' = rs) as -> by congruence. assert (n0 = n) as -> by congruence.
  assert (st' = 0) as -> by congruence.
  rewrite (bool_decide_eq_false_2 (0 ≠ 0)) by lia.
  by rewrite bool_decide_eq_false_2 by lia.
Qed.

Lemma lens_one_within_budget s rs r :
  lens s rs (replicate (length rs) 1) → 1 <= r → within_budget 0 s rs r.
Proof.
  intros Hlens Hr j t m Hj Hm.
  destruct (Forall2_lookup_l _ _ _ _ _ Hlens Hj) as (k & Hk & Hlen).
  apply lookup_replicate_1 in Hk as [-> _].
  assert (m = 1) as -> by congruence. lia.
Qed.

Lemma lens_equal s rs k :
  lens s rs (replicate (length rs) k) → Forall (λ t, history_len s t = Ok k) rs.
Proof.
  intros Hlens. apply Forall_forall. intros t Ht. by eapply lens_replicate_elem.
Qed.

Lemma index_last_lookup {A} (l : list A) (x : A) :
  Py.index l (-1) = Ok x → l !! (length l - 1)%nat = Some x.
Proof.
  rewrite index_last_Ok, last_lookup. by replace (pred (length l)) with (length l - 1)%nat by lia.
Qed.

Lemma extends_same_shape_dicts s added :
  extends s (mkStore (dicts s ++ added) (lists s) (thread_objs s)).
Proof. repeat split; simpl; [by apply prefix_app_r|done..]. Qed.

(** The copies made by a selection are as complete and as long as their
    sources. *)
Lemma copies_complete s srcs s' out :
  copies s srcs s' out → complete_population s srcs → complete_population s' out.
Proof.
  intros Hc Hcp.
  assert (Forall (λ t, is_ok (thread_value s t) = true) srcs) as Hok.
  { eapply Forall_impl; [exact Hcp|]. intros t (h & Hh & _).
    by destruct (history_thread_value _ _ _ Hh) as (v & -> & _). }
  pose proof (copies_values _ _ _ _ Hc Hok) as Hvals.
  apply Forall_forall. intros c [i Hi]%list_elem_of_lookup_1.
  destruct (Forall2_lookup_r _ _ _ _ _ Hvals Hi) as (src & Hsrc & v & Hv1 & Hv2).
  unfold complete_population in Hcp. rewrite Forall_forall in Hcp.
  destruct (Hcp src (list_elem_of_lookup_2 _ _ _ Hsrc)) as (h & Hh & Hne & Hall).
  apply thread_value_history in Hv1, Hv2.
  assert (v.2 = h) as <- by congruence. by exists v.2.
Qed.

Lemma copies_within_budget s srcs s' out rs r :
  copies s srcs s' out → (∀ t, t ∈ srcs → t ∈ rs) →
  complete_population s rs → within_budget 0 s rs r → within_budget 0 s' out r.
Proof.
  intros Hc Hsub Hcp Hb j c m Hj Hm.
  assert (complete_population s srcs) as Hcp'.
  { apply Forall_forall. intros t Ht.
    unfold complete_population in Hcp. rewrite Forall_forall in Hcp.
    by apply Hcp, Hsub. }
  assert (Forall (λ t, is_ok (thread_value s t) = true) srcs) as Hok.
  { eapply Forall_impl; [exact Hcp'|]. intros t (h & Hh & _).
    by destruct (history_thread_value _ _ _ Hh) as (v & -> & _). }
  pose proof (copies_values _ _ _ _ Hc Hok) as Hvals.
  destruct (Forall2_lookup_r _ _ _ _ _ Hvals Hj) as (src & Hsrc & v & Hv1 & Hv2).
  apply thread_value_history, history_history_len in Hv1, Hv2.
  assert (m = Z.of_nat (length v.2)) as -> by congruence.
  apply list_elem_of_lookup_2, Hsub, list_elem_of_lookup_1 in Hsrc as [j' Hj'].
  destruct (Hb j' src _ Hj' Hv1) as [? Hr]. split; [done|]. intros _. apply Hr. lia.
Qed.

(** *** Every step of a started run keeps the population well formed *)

Lemma merge_same_keys state upd :
  question upd = None → initial_response_agent upd = None → threads upd = None →
  start upd = None → difficulty upd = None → beams upd = None →
  revisions upd = None → same_keys state (merge state upd).
Proof.
  intros H1 H2 H3 H4 H5 H6 H7. unfold same_keys, merge. simpl.
  by rewrite H1, H2, H3, H4, H5, H6, H7.
Qed.

Lemma step_Ok py_float reply n s state c' :
  step py_float reply (n, s, state) = Ok c' →
  ∃ s1 upd n1,
    exec_node py_float n s state reply = Ok (s1, upd) ∧
    next_node n s1 (merge state upd) = Ok n1 ∧ c' = (n1, s1, merge state upd).
Proof.
  intros H. unfold step in H. ok_bind H as p Hexec. destruct p as [s1 upd].
  ok_bind H as n1 Hnext. injection H as <-. by exists s1, upd, n1.
Qed.

Ltac open_step Hsound Hstep :=
  destruct Hsound as (Hinv & Hq & Hcl & Hfacts);
  pose proof (step_invariant _ _ _ _ Hinv Hstep) as Hinv';
  apply step_Ok in Hstep as (s1 & upd & n1 & Hexec & Hnext & ->);
  cbn [exec_node] in Hexec.

Ltac node_facts_of Hfacts rs Hrs Hcp Hnf :=
  destruct Hfacts as [?|[?|(rs & Hrs & Hcp & Hnf)]]; [done|done|];
  cbn [node_facts] in Hnf.

Lemma sound_ask_question py_float reply s state c' :
  sound (N_ask_question, s, state) →
  step py_float reply (N_ask_question, s, state) = Ok c' → sound c'.
Proof.
  intros Hsound Hstep. open_step Hsound Hstep.
  injection Hexec as <- <-. cbn [next_node] in Hnext. injection Hnext as <-.
  split_and!; try done. right; right. exists []. split_and!; try done.
  - constructor.
  - cbn [node_facts]. split_and!; [|done|by left]. by intros i t Hi.
Qed.

Lemma sound_get_initial_response py_float reply s state c' :
  sound (N_get_initial_response, s, state) →
  step py_float reply (N_get_initial_response, s, state) = Ok c' → sound c'.
Proof.
  intros Hsound Hstep. open_step Hsound Hstep.
  ok_bind Hexec as x Hx. injection Hexec as <- <-.
  cbn [next_node] in Hnext. injection Hnext as <-.
  node_facts_of Hfacts rs Hrs Hcp Hnf.
  destruct (join_graph_same s state reply) as [Hs Hc].
  assert (same_keys state (merge state (join_graph s reply).2)) as Hk
    by by apply merge_same_keys.
  split_and!; try done; [by apply closed_new_dict|].
  right; right. exists rs. split_and!; try done.
  - eapply complete_population_impl; [|done]. intros t h Hh.
    eapply history_extends; [|done]. apply extends_same_shape_dicts.
  - cbn [node_facts]. split.
    + exists (length (dicts s)), (mkResponse reply None None). split_and!; try done.
      * simpl. by apply list_lookup_middle.
      * exact (closed_fresh s Hcl).
    + cbn [invariant] in Hinv. eapply in_critique_same; try done. left. by destruct Hnf.
Qed.

Lemma sound_get_revision_response py_float reply s state c' :
  sound (N_get_revision_response, s, state) →
  step py_float reply (N_get_revision_response, s, state) = Ok c' → sound c'.
Proof.
  intros Hsound Hstep. open_step Hsound Hstep.
  ok_bind Hexec as x Hx. injection Hexec as <- <-.
  cbn [next_node] in Hnext. injection Hnext as <-.
  node_facts_of Hfacts rs Hrs Hcp Hnf.
  destruct (join_graph_same s state reply) as [Hs Hc].
  assert (same_keys state (merge state (join_graph s reply).2)) as Hk
    by by apply merge_same_keys.
  split_and!; try done; [by apply closed_new_dict|].
  right; right. exists rs. split_and!; try done.
  - eapply complete_population_impl; [|done]. intros t h Hh.
    eapply history_extends; [|done]. apply extends_same_shape_dicts.
  - cbn [node_facts]. split.
    + exists (length (dicts s)), (mkResponse reply None None). split_and!; try done.
      * simpl. by apply list_lookup_middle.
      * exact (closed_fresh s Hcl).
    + cbn [invariant] in Hinv. eapply in_critique_same; try done. by right.
Qed.

Lemma pending_new_is s state P a :
  pending_new P s state → agent_response state = Some a →
  ∃ r, dicts s !! a = Some r ∧ P r ∧ fresh_dict s a.
Proof.
  intros (a' & r & Ha & Hr & HP & Hf) Ha'. assert (a' = a) as -> by congruence.
  by exists r.
Qed.

Lemma sound_commenter py_float reply s state c' :
  sound (N_commenter, s, state) →
  step py_float reply (N_commenter, s, state) = Ok c' → sound c'.
Proof.
  intros Hsound Hstep. open_step Hsound Hstep.
  cbn [next_node] in Hnext. injection Hnext as <-.
  node_facts_of Hfacts rs Hrs Hcp Hnf. destruct Hnf as [Hpend Hcrit].
  pose proof (commenter_same _ _ _ _ _ Hexec) as [Hs Hc].
  apply create_commenter_agent_Ok in Hexec as (q & a & r & c & Hq' & Ha & Hr & -> & ->).
  destruct (pending_new_is _ _ _ _ Hpend Ha) as (r' & Hr' & _ & Hfresh).
  assert (same_keys state (merge state (mkState None None None None None (Some a)
            None None None None None None None))) as Hk by by apply merge_same_keys.
  split_and!; try done; [by apply closed_set_dict|].
  right; right. exists rs. split_and!; try done.
  - eapply complete_population_impl; [|done]. intros t h Hh.
    by apply history_set_dict.
  - cbn [node_facts]. split.
    + exists a, (mkResponse (text r) (Some c) (score r)). split_and!; try done.
      simpl. apply list_lookup_insert_eq. by eapply lookup_lt_Some.
    + by eapply in_critique_same.
Qed.

Lemma sound_scorer py_float reply s state c' :
  sound (N_scorer, s, state) →
  step py_float reply (N_scorer, s, state) = Ok c' → sound c'.
Proof.
  intros Hsound Hstep. open_step Hsound Hstep.
  node_facts_of Hfacts rs Hrs Hcp Hnf. destruct Hnf as [Hpend Hcrit].
  pose proof (scorer_same _ _ _ _ _ _ Hexec) as [Hs Hc].
  apply create_scorer_agent_Ok in Hexec
    as (q & a & r & c & x & Hq' & Ha & Hr & Hcom & -> & ->).
  destruct (pending_new_is _ _ _ _ Hpend Ha) as (r' & Hr' & _ & Hfresh).
  set (upd := mkState None None None None None (Some a)
                None None None None None None None) in *.
  set (s1 := set_dict s a (mkResponse (text r) (Some c) (Some x))) in *.
  assert (same_keys state (merge state upd)) as Hk by by apply merge_same_keys.
  assert (pending complete s1 (merge state upd)) as Hpend'.
  { exists a, (mkResponse (text r) (Some c) (Some x)). split_and!; try done.
    simpl. apply list_lookup_insert_eq. by eapply lookup_lt_Some. }
  assert (complete_population s1 rs) as Hcp'.
  { eapply complete_population_impl; [|done]. intros t h Hh.
    by apply history_set_dict. }
  pose proof (in_critique_same _ _ _ _ _ Hs Hc Hk Hcrit) as [[Hinit Hcol]|[Hrev Hcur]].
  - apply (scorer_route_initial _ _ _ Hinit) in Hnext as ->.
    split_and!; try done; [by apply closed_set_dict|].
    right; right. exists rs. split_and!; try done.
  - apply (scorer_route_revising _ _ _ Hrev) in Hnext as ->.
    split_and!; try done; [by apply closed_set_dict|].
    right; right. exists rs. split_and!; try done.
Qed.

Lemma sound_initial_response_handler py_float reply s state c' :
  sound (N_initial_response_handler, s, state) →
  step py_float reply (N_initial_response_handler, s, state) = Ok c' → sound c'.
Proof.
  intros Hsound Hstep. open_step Hsound Hstep.
  node_facts_of Hfacts rs Hrs Hcp Hnf.
  destruct Hnf as [(Hrot & Hagent & Hmode) (a' & ra & Ha' & Hra & Hcomp)].
  cbn [invariant] in Hinv.
  pose proof (initial_response_handler_phase _ _ _ _ Hinv Hexec)
    as (rs0 & t0 & n & st & Hrs0 & Hrs0' & Hn & Hst & Hb & Hroom & Hmode0 & Hlens & Hdist).
  apply initial_response_handler_Ok in Hexec
    as (a & name & rs' & next & Ha & Hname & Hrs' & Hnextn & -> & ->).
  assert (rs' = rs) as -> by congruence. assert (rs0 = rs) as -> by congruence.
  assert (a' = a) as -> by congruence.
  assert (name = nth_agent (length rs)) as -> by congruence.
  rewrite nth_agent_next in Hnextn. injection Hnextn as <-.
  simpl in Hrs0'. injection Hrs0' as [= <-]%app_inv_head.
  set (t := length (thread_objs s)) in *.
  set (s1 := mkStore (dicts s) (lists s ++ [[a]])
               (thread_objs s ++ [mkThread (nth_agent (length rs)) (length (lists s))])) in *.
  set (state1 := merge state _) in *.
  assert (extends s s1) as Hext.
  { repeat split; simpl; [done|by apply prefix_app_r..]. }
  assert (complete_population s1 (rs ++ [t])) as Hcp1.
  { apply Forall_app. split.
    - eapply complete_population_impl; [|done]. intros; by eapply history_extends.
    - constructor; [|constructor]. exists [ra]. split_and!; [|done|by constructor].
      apply history_Ok. exists (mkThread (nth_agent (length rs)) (length (lists s))), [a].
      split_and!.
      + simpl. by apply list_lookup_middle.
      + simpl. by apply list_lookup_middle.
      + apply mapM_Ok. repeat constructor. simpl. by apply deref_Ok. }
  assert (closed s1) as Hcl1.
  { apply closed_new_thread; [done|]. repeat constructor. by eapply lookup_lt_Some. }
  assert (collecting s1 state1 (rs ++ [t])) as Hcol1.
  { split_and!.
    - intros i u [Hi|[Hge Hi]]%lookup_app_Some.
      + destruct (Hrot i u Hi) as (th & Hth & Hnm). exists th. split; [|done].
        simpl. by apply lookup_app_l_Some.
      + apply list_lookup_singleton_Some in Hi as [Hi <-].
        exists (mkThread (nth_agent (length rs)) (length (lists s))). split.
        * simpl. by apply list_lookup_middle.
        * simpl. f_equal. lia.
    - simpl. rewrite length_app. simpl. by rewrite Nat.add_1_r.
    - destruct Hmode as [?|(nc & rc & Hconf)]; [by left|right].
      exists nc, rc. eapply configured_same; [..|exact Hconf]; done. }
  apply next_after_initial in Hnext as (st' & rs'' & n'' & Hst' & Hrs'' & Hn'' & ->).
  assert (rs'' = rs ++ [t]) as -> by (subst state1; simpl in Hrs''; congruence).
  assert (n'' = n) as -> by congruence. assert (st' = st) as -> by congruence.
  repeat case_bool_decide; (split_and!; try done; right; right; exists (rs ++ [t]);
    split_and!; try done; cbn [node_facts]).
  - split; [done|]. cbn [invariant] in Hinv'.
    destruct Hinv' as [(rs2 & n2 & st2 & Hrs2 & Hn2 & Hst2 & _ & _ & Hroom2 & Hmode2) Hone].
    assert (rs2 = rs ++ [t]) as -> by (subst state1; simpl in Hrs2; congruence).
    assert (n2 = n) as -> by congruence.
    destruct Hmode0 as [[-> ->]|[-> _]]; [|done].
    rewrite length_app in *. simpl in *. lia.
  - assert (st = 0) as -> by lia.
    destruct Hmode as [Hone|(nc & rc & Hconf)]; [subst state1; simpl in Hst; congruence|].
    assert (configured state1 nc rc) as Hconf1
      by (eapply configured_same; [..|exact Hconf]; done).
    exists nc, rc. split_and!; try done.
    + cbn [invariant] in Hinv'.
      destruct Hinv' as (rs2 & n2 & k2 & Hrs2 & Hn2 & _ & _ & _ & Hlen2 & _).
      assert (rs2 = rs ++ [t]) as -> by (subst state1; simpl in Hrs2; congruence).
      destruct Hconf1 as (d & _ & _ & Hthreads & _). congruence.
    + apply lens_one_within_budget; [done|]. by destruct (configured_budget _ _ _ Hconf).
Qed.

Lemma difficulty_row_configured state u :
  u = difficulty_row 1 3 3 0 4 ∨ u = difficulty_row 2 5 3 0 3 ∨
  u = difficulty_row 3 7 3 0 2 ∨ u = difficulty_row 4 9 3 0 1 →
  ∃ n r, configured (merge state u) n r ∧
         responses (merge state u) = responses state ∧
         initial_response_agent (merge state u) = initial_response_agent state ∧
         question (merge state u) = question state.
Proof.
  intros [-> | [-> | [-> | ->]]];
    [exists 3, 4|exists 5, 3|exists 7, 2|exists 9, 1]; (split; [|done]);
    [exists 1|exists 2|exists 3|exists 4]; simpl; split_and!; try done; lia.
Qed.

Lemma sound_difficulty_assessment py_float reply s state c' :
  sound (N_difficulty_assessment, s, state) →
  step py_float reply (N_difficulty_assessment, s, state) = Ok c' → sound c'.
Proof.
  intros Hsound Hstep. open_step Hsound Hstep.
  node_facts_of Hfacts rs Hrs Hcp Hnf. destruct Hnf as [(Hrot & Hagent & _) Hthree].
  ok_bind Hexec as u Hu. injection Hexec as <- <-.
  apply create_difficulty_agent_row in Hu.
  destruct (difficulty_row_configured state _ Hu) as (n & r & Hconf & Hrs1 & Hag1 & Hq1).
  cbn [invariant] in Hinv. destruct Hinv as [(rs0 & n0 & st0 & Hrs0 & _ & _ & Hlens & _) _].
  assert (rs0 = rs) as -> by congruence.
  apply next_after_difficulty in Hnext as (rs' & n' & Hrs' & Hn' & ->).
  assert (rs' = rs) as -> by congruence.
  assert (n' = n) as ->.
  { destruct Hconf as (d & _ & _ & Hthreads & _). congruence. }
  case_bool_decide as Hlt; (split_and!; [done|by rewrite Hq1|done|];
    right; right; exists rs; split_and!; try congruence; cbn [node_facts]).
  - split_and!; [done|congruence|right; by exists n, r].
  - exists n, r. split_and!; try done.
    + destruct Hconf as (d & Hd & _ & _ & -> & _). lia.
    + apply lens_one_within_budget; [done|]. by destruct (configured_budget _ _ _ Hconf).
Qed.

Lemma sound_beam_search_agent py_float reply s state c' :
  sound (N_beam_search_agent, s, state) →
  step py_float reply (N_beam_search_agent, s, state) = Ok c' → sound c'.
Proof.
  intros Hsound Hstep. open_step Hsound Hstep.
  node_facts_of Hfacts rs Hrs Hcp Hnf. destruct Hnf as (n & r & Hconf & Hlen & Hbud).
  cbn [next_node] in Hnext. injection Hnext as <-. cbn [invariant] in Hinv'.
  destruct (beam_search_agent_Ok _ _ _ _ Hexec)
    as (rs' & sorted & b & n' & final & Hrs' & Hsorted & Hb & Hn' & _ & Hc & _ & ->).
  assert (rs' = rs) as -> by congruence.
  pose proof (sorted_responses_perm _ _ _ Hsorted) as Hperm.
  assert (∀ t, t ∈ replicated n' b (Py.slice_to sorted b) → t ∈ rs) as Hsub.
  { intros t Ht%replicated_elem. by rewrite <- Hperm. }
  assert (complete_population s (replicated n' b (Py.slice_to sorted b))) as Hcps.
  { apply Forall_forall. intros t Ht. unfold complete_population in Hcp.
    rewrite Forall_forall in Hcp. by apply Hcp, Hsub. }
  set (state1 := merge state _) in *.
  assert (configured state1 n r) as Hconf1
    by (eapply configured_same; [..|exact Hconf]; done).
  split_and!; try done; [by eapply closed_copies|].
  right; right. exists final. split_and!; try done.
  - by eapply copies_complete.
  - cbn [node_facts]. exists 0%nat. split; [done|]. exists n, r. split_and!; try done.
    + destruct Hinv' as (rs2 & n2 & i2 & k2 & Hrs2 & Hn2 & _ & _ & _ & Hlen2 & _).
      assert (rs2 = final) as -> by (subst state1; simpl in Hrs2; congruence).
      destruct Hconf1 as (d & _ & _ & Hthreads & _). congruence.
    + by eapply copies_within_budget.
Qed.

(** Appending to the thread at the cursor changes that thread only, because
    the threads of the population do not share content lists. *)
Lemma append_history s rs cs i t th l a ra j u h :
  Forall2 (λ t c, content_of s t = Ok c) rs cs → NoDup cs →
  rs !! i = Some t → thread_objs s !! t = Some th →
  lists s !! content th = Some l → dicts s !! a = Some ra →
  rs !! j = Some u → history s u = Ok h →
  history (mkStore (dicts s) (<[content th := l ++ [a]]> (lists s)) (thread_objs s)) u
  = Ok (if decide (j = i) then h ++ [ra] else h).
Proof.
  intros Hcs Hnd Ht Hth Hl Hra Hu Hh.
  destruct (Forall2_lookup_l _ _ _ _ _ Hcs Hu) as (cu & Hcu & Hcontu).
  destruct (Forall2_lookup_l _ _ _ _ _ Hcs Ht) as (ct & Hct & Hcontt).
  assert (ct = content th) as ->.
  { unfold content_of in Hcontt. ok_bind Hcontt as th' Hth'.
    apply deref_Ok in Hth'. injection Hcontt as <-. congruence. }
  destruct (decide (j = i)) as [->|Hji].
  - assert (u = t) as -> by congruence. by eapply append_here.
  - rewrite <- Hh. eapply append_elsewhere; [done|]. intros ->.
    apply Hji. by eapply NoDup_lookup.
Qed.

Lemma sound_revised_response_handler py_float reply s state c' :
  sound (N_revised_response_handler, s, state) →
  step py_float reply (N_revised_response_handler, s, state) = Ok c' → sound c'.
Proof.
  intros Hsound Hstep. open_step Hsound Hstep.
  node_facts_of Hfacts rs Hrs Hcp Hnf.
  destruct Hnf as [(i & Hidx & n & r & Hconf & Hlen & Hbud) (a' & ra & Ha' & Hra & Hcomp)].
  cbn [invariant] in Hinv.
  pose proof (revised_response_handler_phase _ _ _ _ Hinv Hexec)
    as (rs1 & m1 & i1 & k & Hrs1 & _ & _ & _ & _ & _ & Hidx1 & Hle1 & Hlens1 & _).
  destruct Hinv as (rs0 & n0 & i0 & k0 & Hrs0 & _ & _ & _ & _ & _ & Hidx0 & _
                    & (cs & Hcs & Hnd) & Hlt).
  apply revised_response_handler_Ok in Hexec
    as (a & iz & rs' & t & th & l & Ha & Hiz & Hrs' & Ht & Hth & Hl & -> & ->).
  assert (a' = a) as -> by congruence. assert (rs' = rs) as -> by congruence.
  assert (rs0 = rs) as -> by congruence.
  assert (iz = Z.of_nat i) as -> by congruence.
  assert (i0 = i) as -> by (apply Nat2Z.inj; congruence).
  rewrite index_nonneg in Ht. apply or_raise_Ok in Ht.
  set (s1 := mkStore (dicts s) _ (thread_objs s)) in *.
  set (state1 := merge state _) in *.
  assert (rs1 = rs) as -> by (subst state1; simpl in Hrs1; congruence).
  assert (i1 = i) as ->.
  { subst state1. simpl in Hidx1. injection Hidx1 as Hi1. lia. }
  assert (configured state1 n r) as Hconf1
    by (eapply configured_same; [..|exact Hconf]; done).
  assert (∀ j u h, rs !! j = Some u → history s u = Ok h →
            history s1 u = Ok (if decide (j = i) then h ++ [ra] else h)) as Happ.
  { intros j u h Hu Hh. by eapply append_history. }
  unfold complete_population in Hcp. rewrite Forall_forall in Hcp.
  assert (complete_population s1 rs) as Hcp1.
  { apply Forall_forall. intros u Hu. pose proof Hu as [j Hj]%list_elem_of_lookup_1.
    destruct (Hcp u Hu) as (h & Hh & Hne & Hall).
    exists (if decide (j = i) then h ++ [ra] else h).
    split; [by apply Happ|]. destruct (decide (j = i)); [|done]. split.
    - by destruct h.
    - apply Forall_app. split; [done|]. by constructor. }
  assert (within_budget (S i) s1 rs r) as Hbud1.
  { intros j u m Hj Hm.
    destruct (Hcp u (list_elem_of_lookup_2 _ _ _ Hj)) as (h & Hh & _).
    pose proof (Happ _ _ _ Hj Hh) as Hh1.
    pose proof (history_len_of_history _ _ _ _ Hh1 Hm) as ->.
    destruct (Hbud j u _ Hj (history_history_len _ _ _ Hh)) as [Hrange Hr].
    destruct (decide (j = i)) as [->|Hji].
    - rewrite length_app. cbn [length]. lia.
    - lia. }
  assert (closed s1) as Hcl1.
  { apply closed_append; [done..|]. by eapply lookup_lt_Some. }
  apply next_after_revision in Hnext
    as (rs2 & last & len & r2 & i2 & n2 & Hrs2 & Hlast & Hlen2 & Hr2 & Hi2 & Hn2 & ->).
  assert (rs2 = rs) as -> by (subst state1; simpl in Hrs2; congruence).
  assert (r2 = r ∧ n2 = n) as [-> ->].
  { destruct Hconf1 as (d & _ & _ & ? & _ & _ & ? & _). split; congruence. }
  assert (i2 = Z.of_nat (S i)) as ->.
  { subst state1. simpl in Hi2. injection Hi2 as <-. lia. }
  apply index_last_lookup in Hlast.
  destruct (Hbud1 _ _ _ Hlast Hlen2) as [Hrange Hr].
  assert (len = (if decide (length rs - 1 < S i)%nat then k + 1 else k)) as Hk.
  { destruct (Forall2_lookup_l _ _ _ _ _ Hlens1 Hlast) as (kl & Hkl & Hlenl).
    rewrite round_lens_lookup in Hkl by lia. congruence. }
  repeat case_bool_decide; (split_and!; try done; right; right; exists rs;
    split_and!; try done; cbn [node_facts]).
  - assert (S i = length rs) as Hend by lia. exists (k + 1).
    apply lens_equal. by rewrite Hend, round_lens_end in Hlens1.
  - assert (S i = length rs) as Hend by lia.
    rewrite Hend, round_lens_end in Hlens1. exists n, r. split_and!; try done.
    intros j u m Hj Hm.
    pose proof (lens_replicate_elem _ _ _ _ _ Hlens1 (list_elem_of_lookup_2 _ _ _ Hj)).
    assert (m = k + 1) as -> by congruence.
    destruct (decide (length rs - 1 < S i)%nat); lia.
  - exists (S i). split; [done|]. by exists n, r.
Qed.

Lemma sound_check_done py_float reply s state c' :
  sound (N_check_done, s, state) →
  step py_float reply (N_check_done, s, state) = Ok c' → sound c'.
Proof.
  intros Hsound Hstep. open_step Hsound Hstep.
  node_facts_of Hfacts rs Hrs Hcp Hnf.
  ok_bind Hexec as u Hu. injection Hexec as <- <-.
  unfold create_check_done_agent in Hu.
  ok_bind Hu as q Hq'. ok_bind Hu as rs0 Hrs0. ok_bind Hu as hs Hhs.
  injection Hu as <-.
  apply next_after_check_done in Hnext as [-> | ->];
    (split_and!; try done; right; right; exists rs; split_and!; try done;
     cbn [node_facts]).
  cbn [invariant] in Hinv.
  destruct Hinv as (rs1 & n & i & k & Hrs1 & _ & _ & _ & _ & _ & _ & Hlens & _ & ->).
  assert (rs1 = rs) as -> by congruence. exists (k + 1).
  apply lens_equal. by rewrite round_lens_end in Hlens.
Qed.

Lemma sound_final_summary py_float reply s state c' :
  sound (N_final_summary, s, state) →
  step py_float reply (N_final_summary, s, state) = Ok c' → sound c'.
Proof.
  intros Hsound Hstep. open_step Hsound Hstep.
  ok_bind Hexec as u Hu. injection Hexec as <- <-.
  unfold create_final_summary_agent in Hu.
  ok_bind Hu as q Hq'. ok_bind Hu as rs0 Hrs0. ok_bind Hu as hs Hhs.
  injection Hu as <-.
  cbn [next_node] in Hnext. injection Hnext as <-.
  split_and!; try done. right. by left.
Qed.

Lemma sound_END py_float reply s state c' :
  sound (N_END, s, state) → step py_float reply (N_END, s, state) = Ok c' → sound c'.
Proof.
  intros Hsound Hstep. open_step Hsound Hstep.
  injection Hexec as <- <-. cbn [next_node] in Hnext. injection Hnext as <-.
  by split_and!.
Qed.

(** Every step keeps [sound]. *)
Lemma sound_step py_float reply c c' :
  sound c → step py_float reply c = Ok c' → sound c'.
Proof.
  destruct c as [[n s] state]. destruct n.
  - apply sound_ask_question.
  - apply sound_get_initial_response.
  - apply sound_get_revision_response.
  - apply sound_difficulty_assessment.
  - apply sound_commenter.
  - apply sound_scorer.
  - apply sound_check_done.
  - apply sound_final_summary.
  - apply sound_beam_search_agent.
  - apply sound_initial_response_handler.
  - apply sound_revised_response_handler.
  - apply sound_END.
Qed.

Lemma sound_run py_float replies c c' :
  sound c → run py_float replies c = Ok c' → sound c'.
Proof.
  revert c. induction replies as [|r replies IH]; intros c Hs H; simpl in H.
  - by injection H as <-.
  - ok_bind H as c1 Hc1. eapply IH; [|exact H]. by eapply sound_step.
Qed.

Lemma started_sound py_float c : started py_float c → sound c.
Proof.
  intros (s0 & state0 & replies & Hcl & Hq & Hrun).
  eapply sound_run; [|exact Hrun]. split_and!; try done. by left.
Qed.

(** *** A started run raises only on a reply that cannot be read *)

Lemma step_intro py_float reply n s state s1 upd n1 :
  exec_node py_float n s state reply = Ok (s1, upd) →
  next_node n s1 (merge state upd) = Ok n1 →
  step py_float reply (n, s, state) = Ok (n1, s1, merge state upd).
Proof. intros Hexec Hnext. unfold step. rewrite Hexec. ok_simpl. by rewrite Hnext. Qed.

Lemma scorer_next_ok s state st n rs :
  start state = Some st → threads state = Some n → responses state = Some rs →
  ∃ n', next_node N_scorer s state = Ok n'.
Proof.
  intros Hst Hn Hrs. cbn [next_node]. unfold scorer_router.
  rewrite Hst, Hn, Hrs. ok_simpl.
  destruct (_ || _); ok_simpl; eexists; reflexivity.
Qed.

Lemma initial_next_ok s state st n rs :
  start state = Some st → threads state = Some n → responses state = Some rs →
  ∃ n', next_node N_initial_response_handler s state = Ok n'.
Proof.
  intros Hst Hn Hrs. cbn [next_node]. unfold initial_response_router.
  rewrite Hst, Hn, Hrs. ok_simpl.
  repeat case_bool_decide; ok_simpl; eexists; reflexivity.
Qed.

Lemma difficulty_next_ok s state n rs :
  threads state = Some n → responses state = Some rs →
  ∃ n', next_node N_difficulty_assessment s state = Ok n'.
Proof.
  intros Hn Hrs. cbn [next_node]. unfold difficulty_router.
  rewrite Hn, Hrs. ok_simpl.
  repeat case_bool_decide; ok_simpl; eexists; reflexivity.
Qed.

Lemma revision_next_ok s state i n r rs last m :
  index state = Some i → threads state = Some n → revisions state = Some r →
  responses state = Some rs → Py.index rs (-1) = Ok last →
  history_len s last = Ok m →
  ∃ n', next_node N_revised_response_handler s state = Ok n'.
Proof.
  intros Hi Hn Hr Hrs Hlast Hm. cbn [next_node]. unfold revision_router.
  rewrite Hi, Hn, Hr, Hrs. ok_simpl. rewrite Hlast. ok_simpl. rewrite Hm. ok_simpl.
  repeat case_bool_decide; ok_simpl; eexists; reflexivity.
Qed.

Lemma check_done_next_ok s state d :
  done state = Some d → ∃ n', next_node N_check_done s state = Ok n'.
Proof.
  intros Hd. cbn [next_node]. unfold done_router. rewrite Hd. ok_simpl.
  destruct d; ok_simpl; eexists; reflexivity.
Qed.

(** What the nodes read of a non-empty history. *)
Lemma history_first s t h :
  history s t = Ok h → h ≠ [] → ∃ r, first_response s t = Ok r ∧ head h = Some r.
Proof.
  intros (th & l & Hth & Hl & Hh)%history_Ok Hne. apply mapM_Ok in Hh.
  destruct Hh as [|d r l' h' Hd _]; [done|]. exists r. split; [|done].
  unfold first_response.
  rewrite (proj2 (content_refs_Ok s t (d :: l'))) by (by exists th). ok_simpl.
  rewrite (index_nonneg _ 0). simpl. by rewrite Hd.
Qed.

Lemma history_last s t h :
  history s t = Ok h → h ≠ [] →
  ∃ th l d r, thread_objs s !! t = Some th ∧ lists s !! content th = Some l ∧
              Py.index l (-1) = Ok d ∧ dicts s !! d = Some r ∧ last h = Some r.
Proof.
  intros (th & l & Hth & Hl & Hh)%history_Ok Hne. apply mapM_Ok in Hh.
  destruct h as [|r h _] using rev_ind; [done|].
  apply Forall2_app_inv_r in Hh as (l1 & l2 & _ & Hl2 & ->).
  inversion Hl2 as [|d ? l2' ? Hd Hnil]; subst. inversion Hnil; subst.
  exists th, (l1 ++ [d]), d, r. split_and!; try done.
  - apply index_last.
  - by apply deref_Ok.
  - by rewrite last_snoc.
Qed.

Lemma complete_population_chains s rs :
  complete_population s rs → ∃ hs, chains s rs = Ok hs.
Proof.
  intros Hcp. apply mapM_is_Ok. eapply Forall_impl; [exact Hcp|].
  intros t (h & Hh & _). by exists h.
Qed.

(** With three complete threads the assessment depends on the reply only. *)
Lemma create_difficulty_agent_reply s state rs reply :
  is_Some (question state) → responses state = Some rs →
  complete_population s rs → length rs = 3%nat →
  create_difficulty_agent s state (λ _, reply) = key (difficulty_dict reply).
Proof.
  intros [q Hq] Hrs Hcp Hlen.
  unfold complete_population in Hcp. rewrite Forall_forall in Hcp.
  assert (∀ {B} (f : AgentResponse → result B),
            (∀ r, complete r → ∃ x, f r = Ok x) →
            ∃ out, mapM (λ t, r ← first_response s t; f r) rs = Ok out
                   ∧ length out = 3%nat) as Hmap.
  { intros B f Hf.
    destruct (mapM_is_Ok (λ t, r ← first_response s t; f r) rs) as [out Hout].
    - apply Forall_forall. intros t Ht. destruct (Hcp t Ht) as (h & Hh & Hne & Hall).
      destruct (history_first _ _ _ Hh Hne) as (r & Hr & Hhead).
      destruct (Hf r) as [x Hx].
      { rewrite Forall_forall in Hall. apply Hall. by apply head_Some_elem_of. }
      rewrite Hr. ok_simpl. rewrite Hx. by eexists.
    - exists out. split; [done|]. rewrite <- Hlen. by eapply mapM_Ok_length. }
  destruct (Hmap _ (λ r, Ok (text r))) as (texts & Htexts & Hl1); [by eexists|].
  destruct (Hmap _ (λ r, key (comments r))) as (cs & Hcs & Hl2).
  { intros r [[c Hc] _]. rewrite Hc. by eexists. }
  destruct (Hmap _ (λ r, key (score r))) as (gs & Hgs & Hl3).
  { intros r [_ [g Hg]]. rewrite Hg. by eexists. }
  destruct texts as [|t1 [|t2 [|t3 texts]]]; simpl in Hl1; try lia.
  destruct cs as [|c1 [|c2 [|c3 cs]]]; simpl in Hl2; try lia.
  destruct gs as [|g1 [|g2 [|g3 gs]]]; simpl in Hl3; try lia.
  unfold create_difficulty_agent. rewrite Hq, Hrs. ok_simpl.
  rewrite Htexts. ok_simpl. rewrite Hcs. ok_simpl. rewrite Hgs. ok_simpl.
  rewrite !(index_nonneg _ 0), !(index_nonneg _ 1), !(index_nonneg _ 2).
  reflexivity.
Qed.

Lemma difficulty_dict_threads k row :
  difficulty_dict k = Some row → ∃ n, threads row = Some n.
Proof.
  unfold difficulty_dict. repeat case_bool_decide; intros [= <-]; by eexists.
Qed.

Section Progress.
Variable py_float : string → option PyFloat.
Variable reply : string.

Local Abbreviation steps n s state := (returns py_float reply (n, s, state)).

Lemma progress_get_initial_response s state :
  sound (N_get_initial_response, s, state) → steps N_get_initial_response s state.
Proof.
  intros (Hinv & [q Hq] & Hcl & Hfacts). node_facts_of Hfacts rs Hrs Hcp Hnf.
  destruct Hnf as (_ & Hagent & _). unfold returns, step. cbn [exec_node].
  unfold get_info_for_initial_response. rewrite Hagent, Hq. ok_simpl.
  simpl. by eexists.
Qed.

Lemma progress_get_revision_response s state :
  sound (N_get_revision_response, s, state) → steps N_get_revision_response s state.
Proof.
  intros (Hinv & [q Hq] & Hcl & Hfacts). node_facts_of Hfacts rs Hrs Hcp Hnf.
  destruct Hnf as (i & Hidx & _). cbn [invariant] in Hinv.
  destruct Hinv as (rs0 & n0 & i0 & k0 & Hrs0 & _ & _ & _ & _ & _ & Hidx0 & _ & _ & Hlt).
  assert (rs0 = rs) as -> by congruence.
  assert (i0 = i) as -> by (apply Nat2Z.inj; congruence).
  destruct (lookup_lt_is_Some_2 rs i Hlt) as [t Ht].
  unfold complete_population in Hcp. rewrite Forall_forall in Hcp.
  destruct (Hcp t (list_elem_of_lookup_2 _ _ _ Ht)) as (h & Hh & Hne & Hall).
  destruct (history_last _ _ _ Hh Hne) as (th & l & d & r & Hth & Hl & Hd & Hr & Hlast).
  assert (complete r) as [[c Hc] _].
  { rewrite Forall_forall in Hall. apply Hall.
    rewrite last_lookup in Hlast. by eapply list_elem_of_lookup_2. }
  unfold returns, step. cbn [exec_node]. unfold get_info_for_revision_response, deref.
  rewrite Hrs, Hidx. ok_simpl. rewrite index_nonneg, Ht, Hq. ok_simpl.
  rewrite Hth. ok_simpl. rewrite Hl. ok_simpl. rewrite Hd. ok_simpl.
  rewrite Hr. ok_simpl. rewrite Hc. ok_simpl. simpl. by eexists.
Qed.

Lemma progress_commenter s state :
  sound (N_commenter, s, state) → steps N_commenter s state.
Proof.
  intros (Hinv & [q Hq] & Hcl & Hfacts). node_facts_of Hfacts rs Hrs Hcp Hnf.
  destruct Hnf as [(a & r & Ha & Hr & _) _].
  unfold returns, step. cbn [exec_node]. unfold create_commenter_agent, deref.
  rewrite Hq, Ha. ok_simpl. rewrite Hr. ok_simpl. simpl. by eexists.
Qed.

Lemma progress_scorer s state :
  sound (N_scorer, s, state) →
  match py_float reply with
  | Some _ => steps N_scorer s state
  | None => step py_float reply (N_scorer, s, state) = Raise ValueError
  end.
Proof.
  intros (Hinv & [q Hq] & Hcl & Hfacts). node_facts_of Hfacts rs Hrs Hcp Hnf.
  destruct Hnf as [(a & r & Ha & Hr & [c Hc] & _) _].
  assert (∃ st n, start state = Some st ∧ threads state = Some n) as (st & n & Hst & Hn).
  { cbn [invariant] in Hinv.
    destruct Hinv as [(? & n & st & _ & ? & ? & _)|(? & n & ? & ? & _ & ? & ? & _)];
      by eexists _, _. }
  destruct (py_float reply) as [x|] eqn:Hx.
  - edestruct (scorer_next_ok
      (set_dict s a (mkResponse (text r) (Some c) (Some x)))
      (merge state (mkState None None None None None (Some a) None None None None None
                      None None))) as [n' Hn']; [exact Hst|exact Hn|exact Hrs|].
    eexists. apply step_intro; [|exact Hn']. cbn [exec_node].
    unfold create_scorer_agent, deref.
    rewrite Hq, Ha. ok_simpl. rewrite Hr. ok_simpl. rewrite Hc. ok_simpl.
    by rewrite Hx.
  - unfold step. cbn [exec_node]. unfold create_scorer_agent, deref.
    rewrite Hq, Ha. ok_simpl. rewrite Hr. ok_simpl. rewrite Hc. ok_simpl.
    by rewrite Hx.
Qed.

Lemma progress_difficulty_assessment s state :
  sound (N_difficulty_assessment, s, state) →
  match difficulty_dict reply with
  | Some _ => steps N_difficulty_assessment s state
  | None => step py_float reply (N_difficulty_assessment, s, state) = Raise KeyError
  end.
Proof.
  intros (Hinv & Hq & Hcl & Hfacts). node_facts_of Hfacts rs Hrs Hcp Hnf.
  destruct Hnf as [_ Hthree].
  pose proof (create_difficulty_agent_reply s state rs reply Hq Hrs Hcp Hthree) as Hexec.
  destruct (difficulty_dict reply) as [row|] eqn:Hrow.
  - destruct (difficulty_dict_threads _ _ Hrow) as [n Hn].
    apply create_difficulty_agent_row in Hexec as Hrows.
    edestruct (difficulty_next_ok s (merge state row) n rs) as [n' Hn'].
    { simpl. by rewrite Hn. }
    { destruct Hrows as [-> | [-> | [-> | ->]]]; done. }
    eexists. apply step_intro; [|exact Hn']. cbn [exec_node]. by rewrite Hexec.
  - unfold step. cbn [exec_node]. by rewrite Hexec.
Qed.

Lemma progress_check_done s state :
  sound (N_check_done, s, state) → steps N_check_done s state.
Proof.
  intros (Hinv & [q Hq] & Hcl & Hfacts). node_facts_of Hfacts rs Hrs Hcp Hnf.
  destruct (complete_population_chains _ _ Hcp) as [hs Hhs].
  edestruct (check_done_next_ok s) as [n' Hn']; [|eexists; apply step_intro; [|exact Hn']].
  2: { cbn [exec_node]. unfold create_check_done_agent.
       rewrite Hq, Hrs. ok_simpl. rewrite Hhs. ok_simpl. reflexivity. }
  reflexivity.
Qed.

Lemma progress_final_summary s state :
  sound (N_final_summary, s, state) → steps N_final_summary s state.
Proof.
  intros (Hinv & [q Hq] & Hcl & Hfacts). node_facts_of Hfacts rs Hrs Hcp Hnf.
  destruct (complete_population_chains _ _ Hcp) as [hs Hhs].
  unfold returns, step. cbn [exec_node]. unfold create_final_summary_agent.
  rewrite Hq, Hrs. ok_simpl. rewrite Hhs. ok_simpl. simpl. by eexists.
Qed.

Lemma progress_beam_search_agent s state :
  sound (N_beam_search_agent, s, state) → steps N_beam_search_agent s state.
Proof.
  intros (Hinv & Hq & Hcl & Hfacts). node_facts_of Hfacts rs Hrs Hcp Hnf.
  cbn [invariant] in Hinv.
  destruct Hinv as (rs0 & n & k & Hrs0 & Hn & _ & Hb & Hn3 & Hlen & _).
  assert (rs0 = rs) as -> by congruence.
  destruct (beam_search_agent_total s state rs 3 n) as (s1 & upd & Hexec);
    try done.
  { apply complete_population_scored, Hcp. }
  { rewrite bound_in_range by lia. pose proof (Z.mod_pos_bound n 3). lia. }
  eexists. by apply step_intro.
Qed.

Lemma progress_initial_response_handler s state :
  sound (N_initial_response_handler, s, state) →
  steps N_initial_response_handler s state.
Proof.
  intros (Hinv & Hq & Hcl & Hfacts). node_facts_of Hfacts rs Hrs Hcp Hnf.
  destruct Hnf as [(_ & Hagent & _) (a & ra & Ha & _)].
  cbn [invariant] in Hinv. destruct Hinv as (rs0 & n & st & _ & Hn & Hst & _).
  edestruct (initial_next_ok
    (mkStore (dicts s) (lists s ++ [[a]])
       (thread_objs s ++ [mkThread (nth_agent (length rs)) (length (lists s))]))
    (merge state (mkState None (Some (nth_agent (S (length rs))))
       (Some (rs ++ [length (thread_objs s)])) None None None None None None None None
       None None))) as [n' Hn']; [exact Hst|exact Hn|reflexivity|].
  eexists. apply step_intro; [|exact Hn']. cbn [exec_node].
  apply initial_response_handler_Ok.
  exists a, (nth_agent (length rs)), rs, (nth_agent (S (length rs))).
  split_and!; try done. apply nth_agent_next.
Qed.

Lemma progress_revised_response_handler s state :
  sound (N_revised_response_handler, s, state) →
  steps N_revised_response_handler s state.
Proof.
  intros (Hinv & Hq & Hcl & Hfacts). node_facts_of Hfacts rs Hrs Hcp Hnf.
  destruct Hnf as [(i & Hidx & n & r & Hconf & Hlen & _) (a & ra & Ha & _)].
  cbn [invariant] in Hinv.
  assert (∃ t, rs !! i = Some t) as [t Ht].
  { destruct Hinv as (rs0 & n0 & i0 & k0 & Hrs0 & _ & _ & _ & _ & _ & Hidx0 & _ & _ & Hlt).
    assert (rs0 = rs) as -> by congruence.
    assert (i0 = i) as -> by (apply Nat2Z.inj; congruence).
    by apply lookup_lt_is_Some_2. }
  unfold complete_population in Hcp. rewrite Forall_forall in Hcp.
  destruct (Hcp t (list_elem_of_lookup_2 _ _ _ Ht)) as (h & Hh & _).
  apply history_Ok in Hh as (th & l & Hth & Hl & _).
  set (s1 := mkStore (dicts s) (<[content th := l ++ [a]]> (lists s)) (thread_objs s)).
  set (upd := mkState None None (Some rs) None None None None None None
                (Some (Z.of_nat i + 1)) None None None).
  assert (revised_response_handler s state = Ok (s1, upd)) as Hexec.
  { apply revised_response_handler_Ok. exists a, (Z.of_nat i), rs, t, th, l.
    split_and!; try done. by rewrite index_nonneg, Ht. }
  destruct (revised_response_handler_phase _ _ _ _ Hinv Hexec)
    as (rs1 & n1 & i1 & k & Hrs1 & Hn1 & _ & _ & Hn3 & Hlen1 & _ & _ & Hlens & _).
  assert (rs1 = rs) as -> by (subst upd; simpl in Hrs1; congruence).
  destruct (last rs) as [u|] eqn:Hlast.
  2: { apply last_None in Hlast. subst rs. simpl in Hlen1. lia. }
  pose proof Hlast as Hlast'. rewrite last_lookup in Hlast'.
  destruct (Forall2_lookup_l _ _ _ _ _ Hlens Hlast') as (m & _ & Hm).
  destruct Hconf as (d & _ & _ & Hthreads & _ & _ & Hrev & _).
  edestruct (revision_next_ok s1 (merge state upd)) as [n' Hn'];
    [reflexivity|exact Hn1| |exact Hrs1|by apply index_last_Ok|exact Hm|].
  { simpl. exact Hrev. }
  eexists. by apply step_intro.
Qed.

(** Under [sound] a step returns, unless the scorer cannot read the reply as
    a float or the assessment gets a reply outside its table. *)
Lemma sound_progress n s state :
  sound (n, s, state) →
  match n with
  | N_scorer =>
      match py_float reply with
      | Some _ => steps n s state
      | None => step py_float reply (n, s, state) = Raise ValueError
      end
  | N_difficulty_assessment =>
      match difficulty_dict reply with
      | Some _ => steps n s state
      | None => step py_float reply (n, s, state) = Raise KeyError
      end
  | _ => steps n s state
  end.
Proof.
  intros Hsound. destruct n.
  - by eexists.
  - by apply progress_get_initial_response.
  - by apply progress_get_revision_response.
  - by apply progress_difficulty_assessment.
  - by apply progress_commenter.
  - by apply progress_scorer.
  - by apply progress_check_done.
  - by apply progress_final_summary.
  - by apply progress_beam_search_agent.
  - by apply progress_initial_response_handler.
  - by apply progress_revised_response_handler.
  - by eexists.
Qed.

End Progress.

(** ** Runs that start at [ask_question]

    The properties below hold at every configuration of a run that enters the
    graph at [ask_question] with a question, on a store in which every
    reference points to an object, whatever the collaborators reply. *)

Lemma closed_empty : closed empty_store.
Proof. split; constructor. Qed.

Lemma scenario_started replies :
  run ScenarioRun.py_float replies (N_ask_question, empty_store, ScenarioRun.input)
  = Ok (ScenarioStages.stop replies) →
  started ScenarioRun.py_float (ScenarioStages.stop replies).
Proof.
  intros Hrun. exists empty_store, ScenarioRun.input, replies.
  split_and!; [apply closed_empty|by eexists|done].
Qed.

(** A step of a started run returns, with two exceptions: the scorer raises
    [ValueError] when [float()] cannot read the model's reply, and the
    difficulty assessment raises [KeyError] when the reply is not a key of its
    table.  No other node or router raises, whatever the replies. *)
Theorem started_step_raises_only_on_unreadable_reply
    (py_float : string → option PyFloat) (reply : string)
    (n : Node) (s : Store) (state : GraphState) :
  started py_float (n, s, state) →
  match n with
  | N_scorer =>
      match py_float reply with
      | Some _ => returns py_float reply (n, s, state)
      | None => step py_float reply (n, s, state) = Raise ValueError
      end
  | N_difficulty_assessment =>
      match difficulty_dict reply with
      | Some _ => returns py_float reply (n, s, state)
      | None => step py_float reply (n, s, state) = Raise KeyError
      end
  | _ => returns py_float reply (n, s, state)
  end.
Proof. intros Hs%started_sound. by apply sound_progress. Qed.

Lemma started_step_raises_only_on_unreadable_reply_witness :
  step ScenarioRun.py_float "high"
    (N_scorer, ScenarioStages.at_scorer.1.2, ScenarioStages.at_scorer.2)
  = Raise ValueError.
Proof.
  apply (started_step_raises_only_on_unreadable_reply ScenarioRun.py_float "high"
           N_scorer ScenarioStages.at_scorer.1.2 ScenarioStages.at_scorer.2).
  apply (scenario_started ScenarioStages.to_scorer). vm_compute. reflexivity.
Defined.

(** Once the run has left [ask_question], every thread of the population has
    a history that can be read, is not empty, and holds only responses that
    carry both comments and a score. *)
Theorem started_population_is_commented_and_scored
    (py_float : string → option PyFloat) (n : Node) (s : Store) (state : GraphState) :
  started py_float (n, s, state) → n ≠ N_ask_question → n ≠ N_END →
  ∃ rs, responses state = Some rs ∧
        Forall (λ t, ∃ h, history s t = Ok h ∧ h ≠ [] ∧ Forall complete h) rs.
Proof.
  intros (_ & _ & _ & [?|[?|(rs & Hrs & Hcp & _)]])%started_sound ? ?; try done.
  by exists rs.
Qed.

Lemma started_population_is_commented_and_scored_witness :
  ∃ rs, responses ScenarioStages.at_revision.2 = Some rs ∧
        Forall (λ t, ∃ h, history ScenarioStages.at_revision.1.2 t = Ok h ∧ h ≠ []
                          ∧ Forall complete h) rs.
Proof.
  apply (started_population_is_commented_and_scored ScenarioRun.py_float
           N_get_revision_response ScenarioStages.at_revision.1.2
           ScenarioStages.at_revision.2); [|done..].
  apply (scenario_started ScenarioStages.to_revision). vm_compute. reflexivity.
Defined.

(** While initial responses are collected the models take turns: the thread
    at position [i] was answered by GPT, Claude or Mistral according to
    [i mod 3], and the next response is asked of the model whose turn it is. *)
Theorem initial_responses_rotate_models
    (py_float : string → option PyFloat) (s : Store) (state : GraphState) :
  started py_float (N_get_initial_response, s, state) →
  ∃ rs, responses state = Some rs ∧
        initial_response_agent state = Some (nth_agent (length rs)) ∧
        ∀ i t, rs !! i = Some t →
          ∃ v, thread_value s t = Ok v ∧ v.1 = nth_agent i.
Proof.
  intros (_ & _ & _ & Hfacts)%started_sound. node_facts_of Hfacts rs Hrs Hcp Hnf.
  destruct Hnf as (Hrot & Hagent & _). exists rs. split_and!; try done.
  intros i t Hi. destruct (Hrot i t Hi) as (th & Hth & Hname).
  unfold complete_population in Hcp. rewrite Forall_forall in Hcp.
  destruct (Hcp t (list_elem_of_lookup_2 _ _ _ Hi)) as (h & Hh & _).
  apply history_Ok in Hh as (th' & l & Hth' & Hl & Hh).
  assert (th' = th) as -> by congruence.
  exists (agent_name th, h). split; [|done]. apply thread_value_Ok.
  by exists th, l, h.
Qed.

Lemma initial_responses_rotate_models_witness :
  ∃ rs, responses ScenarioStages.at_second_response.2 = Some rs ∧
        initial_response_agent ScenarioStages.at_second_response.2
        = Some (nth_agent (length rs)) ∧
        ∀ i t, rs !! i = Some t →
          ∃ v, thread_value ScenarioStages.at_second_response.1.2 t = Ok v
               ∧ v.1 = nth_agent i.
Proof.
  apply (initial_responses_rotate_models ScenarioRun.py_float
           ScenarioStages.at_second_response.1.2 ScenarioStages.at_second_response.2).
  apply (scenario_started ScenarioStages.to_second_response). vm_compute. reflexivity.
Defined.

(** The difficulty assessment always runs on exactly three threads, answered
    by GPT, Claude and Mistral in this order, each with one commented and
    scored response, and before any run parameter was chosen
    ([threads] is 3 and [start] is 1). *)
Theorem difficulty_is_assessed_on_one_answer_per_model
    (py_float : string → option PyFloat) (s : Store) (state : GraphState) :
  started py_float (N_difficulty_assessment, s, state) →
  ∃ t1 t2 t3 r1 r2 r3,
    responses state = Some [t1; t2; t3] ∧
    thread_value s t1 = Ok ("GPT", [r1]) ∧
    thread_value s t2 = Ok ("Claude", [r2]) ∧
    thread_value s t3 = Ok ("Mistral", [r3]) ∧
    complete r1 ∧ complete r2 ∧ complete r3 ∧
    threads state = Some 3 ∧ start state = Some 1.
Proof.
  intros (Hinv & _ & _ & Hfacts)%started_sound. node_facts_of Hfacts rs Hrs Hcp Hnf.
  destruct Hnf as [(Hrot & _) Hthree]. cbn [invariant] in Hinv.
  destruct Hinv as [(rs0 & n & st & Hrs0 & Hn & Hst & Hlens & _ & _ & Hmode) Hone].
  assert (rs0 = rs) as -> by congruence.
  assert (n = 3) as ->.
  { destruct Hmode as [[_ ->]|[-> _]]; [done|congruence]. }
  destruct rs as [|t1 [|t2 [|t3 [|? ?]]]]; try done.
  assert (∀ i t, [t1; t2; t3] !! i = Some t →
            ∃ r, thread_value s t = Ok (nth_agent i, [r]) ∧ complete r) as Hone_each.
  { intros i t Hi. destruct (Hrot i t Hi) as (th & Hth & Hname).
    unfold complete_population in Hcp. rewrite Forall_forall in Hcp.
    destruct (Hcp t (list_elem_of_lookup_2 _ _ _ Hi)) as (h & Hh & _ & Hall).
    pose proof (lens_replicate_elem _ _ _ _ _ Hlens (list_elem_of_lookup_2 _ _ _ Hi))
      as Hlen.
    pose proof (history_len_of_history _ _ _ _ Hh Hlen) as Hl.
    destruct h as [|r [|? ?]]; simpl in Hl; try lia.
    exists r. split; [|by inversion Hall].
    apply history_Ok in Hh as (th' & l & Hth' & Hl' & Hh).
    assert (th' = th) as -> by congruence.
    apply thread_value_Ok. exists th, l, [r]. by rewrite Hname. }
  destruct (Hone_each 0%nat t1 eq_refl) as (r1 & ? & ?).
  destruct (Hone_each 1%nat t2 eq_refl) as (r2 & ? & ?).
  destruct (Hone_each 2%nat t3 eq_refl) as (r3 & ? & ?).
  by exists t1, t2, t3, r1, r2, r3.
Qed.

Lemma difficulty_is_assessed_on_one_answer_per_model_witness :
  ∃ t1 t2 t3 r1 r2 r3,
    responses ScenarioStages.at_difficulty.2 = Some [t1; t2; t3] ∧
    thread_value ScenarioStages.at_difficulty.1.2 t1 = Ok ("GPT", [r1]) ∧
    thread_value ScenarioStages.at_difficulty.1.2 t2 = Ok ("Claude", [r2]) ∧
    thread_value ScenarioStages.at_difficulty.1.2 t3 = Ok ("Mistral", [r3]) ∧
    complete r1 ∧ complete r2 ∧ complete r3 ∧
    threads ScenarioStages.at_difficulty.2 = Some 3 ∧
    start ScenarioStages.at_difficulty.2 = Some 1.
Proof.
  apply (difficulty_is_assessed_on_one_answer_per_model ScenarioRun.py_float
           ScenarioStages.at_difficulty.1.2 ScenarioStages.at_difficulty.2).
  apply (scenario_started ScenarioStages.to_difficulty). vm_compute. reflexivity.
Defined.

Lemma slice_from_length {A} (l : list A) (b : Z) :
  length (Py.slice_from l b) = (length l - Py.bound l b)%nat.
Proof. unfold Py.slice_from. by rewrite length_drop. Qed.

(** Every selection of a started run works on a row of the difficulty table
    with a full population of scored threads: it returns, keeps three
    threads, rebuilds a population of exactly [threads] threads and discards
    the other [threads - 3]. *)
Theorem selection_in_a_run_keeps_three_and_refills
    (py_float : string → option PyFloat) (s : Store) (state : GraphState) :
  started py_float (N_beam_search_agent, s, state) →
  ∃ rs n d s' upd final discarded,
    responses state = Some rs ∧ Z.of_nat (length rs) = n ∧
    threads state = Some n ∧ beams state = Some 3 ∧
    1 <= d <= 4 ∧ n = 2 * d + 1 ∧ revisions state = Some (5 - d) ∧
    beam_search_agent s state = Ok (s', upd) ∧
    responses upd = Some final ∧ Z.of_nat (length final) = n ∧
    discarded_responses upd = Some discarded ∧
    Z.of_nat (length discarded) = n - 3.
Proof.
  intros Hs%started_sound.
  destruct (progress_beam_search_agent py_float "" _ _ Hs) as [c' Hstep].
  destruct Hs as (Hinv & _ & _ & Hfacts). node_facts_of Hfacts rs Hrs Hcp Hnf.
  destruct Hnf as (n & r & (d & Hd & _ & Hn & -> & Hb & Hr & -> & _) & Hlen & _).
  apply step_Ok in Hstep as (s1 & upd & n1 & Hexec & _ & _). cbn [exec_node] in Hexec.
  cbn [invariant] in Hinv.
  pose proof (beam_search_agent_phase _ _ _ _ Hinv Hexec)
    as (rs2 & n2 & i2 & k2 & Hrs2 & Hn2 & _ & _ & _ & Hlen2 & _).
  destruct (beam_search_agent_Ok _ _ _ _ Hexec)
    as (rs' & sorted & b & n' & final & Hrs' & Hsorted & Hb' & Hn' & _ & _ & _ & ->).
  assert (rs' = rs) as -> by congruence. assert (b = 3) as -> by congruence.
  assert (rs2 = final) as -> by (simpl in Hrs2; congruence).
  assert (n2 = 2 * d + 1) as -> by (simpl in Hn2; congruence).
  pose proof (sorted_responses_perm _ _ _ Hsorted) as Hperm.
  eexists rs, (2 * d + 1), d, s1, _, final, (Py.slice_from sorted 3).
  split_and!; try done; try lia.
  rewrite slice_from_length, bound_in_range; rewrite Hperm; lia.
Qed.

Lemma selection_in_a_run_keeps_three_and_refills_witness :
  ∃ rs n d s' upd final discarded,
    responses ScenarioStages.at_beam_search.2 = Some rs ∧ Z.of_nat (length rs) = n ∧
    threads ScenarioStages.at_beam_search.2 = Some n ∧
    beams ScenarioStages.at_beam_search.2 = Some 3 ∧
    1 <= d <= 4 ∧ n = 2 * d + 1 ∧
    revisions ScenarioStages.at_beam_search.2 = Some (5 - d) ∧
    beam_search_agent ScenarioStages.at_beam_search.1.2 ScenarioStages.at_beam_search.2
    = Ok (s', upd) ∧
    responses upd = Some final ∧ Z.of_nat (length final) = n ∧
    discarded_responses upd = Some discarded ∧
    Z.of_nat (length discarded) = n - 3.
Proof.
  apply (selection_in_a_run_keeps_three_and_refills ScenarioRun.py_float
           ScenarioStages.at_beam_search.1.2 ScenarioStages.at_beam_search.2).
  apply (scenario_started ScenarioStages.to_beam_search). vm_compute. reflexivity.
Defined.

(** In a revision round no history is longer than the revision budget plus
    the initial response, and the budget is the one of the table.  In front
    of the selection and of the convergence check every history is still
    below that bound, so the round that follows fits the budget. *)
Theorem histories_stay_within_the_revision_budget
    (py_float : string → option PyFloat) (n : Node) (s : Store) (state : GraphState) :
  started py_float (n, s, state) → in_revision_round n = true →
  ∃ rs r, responses state = Some rs ∧ revisions state = Some r ∧ 1 <= r <= 4 ∧
          Forall (λ t, ∃ m, history_len s t = Ok m ∧ 1 <= m <= r + 1 ∧
                            (n = N_beam_search_agent ∨ n = N_check_done → m <= r)) rs.
Proof.
  intros (_ & _ & _ & Hfacts)%started_sound Hn.
  destruct Hfacts as [->|[->|(rs & Hrs & Hcp & Hnf)]]; [done..|].
  assert (∃ i, budgeted i s state rs ∧
               (n = N_beam_search_agent ∨ n = N_check_done → i = 0%nat))
    as (i & (n0 & r & Hconf & _ & Hbud) & Hi).
  { destruct n; try done; cbn [node_facts] in Hnf.
    - destruct Hnf as (i & _ & ?). exists i. split; [done|]. by intros [?|?].
    - by exists 0%nat.
    - by exists 0%nat.
    - destruct Hnf as [(i & _ & ?) _]. exists i. split; [done|]. by intros [?|?]. }
  exists rs, r. split_and!; try done.
  - by destruct Hconf as (d & _ & _ & _ & _ & _ & ? & _).
  - destruct Hconf as (d & ? & _ & _ & _ & _ & _ & -> & _). lia.
  - destruct Hconf as (d & ? & _ & _ & _ & _ & _ & -> & _). lia.
  - apply Forall_forall. intros t [j Hj]%list_elem_of_lookup_1.
    unfold complete_population in Hcp. rewrite Forall_forall in Hcp.
    destruct (Hcp t (list_elem_of_lookup_2 _ _ _ Hj)) as (h & Hh%history_history_len & _).
    eexists. split; [exact Hh|]. destruct (Hbud j t _ Hj Hh) as [? Hroom].
    split; [done|]. intros ->%Hi. apply Hroom. lia.
Qed.

Lemma histories_stay_within_the_revision_budget_witness :
  ∃ rs r, responses ScenarioRun.at_check_done.2 = Some rs ∧
          revisions ScenarioRun.at_check_done.2 = Some r ∧ 1 <= r <= 4 ∧
          Forall (λ t, ∃ m, history_len ScenarioRun.at_check_done.1.2 t = Ok m
                            ∧ 1 <= m <= r + 1 ∧
                            (N_check_done = N_beam_search_agent
                             ∨ N_check_done = N_check_done → m <= r)) rs.
Proof.
  apply (histories_stay_within_the_revision_budget ScenarioRun.py_float N_check_done
           ScenarioRun.at_check_done.1.2 ScenarioRun.at_check_done.2); [|reflexivity].
  apply (scenario_started ScenarioRun.replies). vm_compute. reflexivity.
Defined.

(** A revision is asked only of a thread that is below the budget: at
    [get_revision_response] the cursor is inside the population and the
    thread under it has at most [revisions] entries, the latest of them
    commented, so the revision prompt can be built. *)
Theorem revision_is_asked_below_the_budget
    (py_float : string → option PyFloat) (s : Store) (state : GraphState) :
  started py_float (N_get_revision_response, s, state) →
  ∃ rs (i : nat) t h r q,
    responses state = Some rs ∧ index state = Some (Z.of_nat i) ∧
    rs !! i = Some t ∧ history s t = Ok h ∧ revisions state = Some r ∧
    1 <= Z.of_nat (length h) <= r ∧ question state = Some q ∧
    ∃ th latest c,
      thread_objs s !! t = Some th ∧ last h = Some latest ∧
      comments latest = Some c ∧
      get_info_for_revision_response s state
      = Ok (q, agent_name th, text latest, c).
Proof.
  intros (Hinv & [q Hq] & _ & Hfacts)%started_sound.
  node_facts_of Hfacts rs Hrs Hcp Hnf.
  destruct Hnf as (i & Hidx & n & r & Hconf & _ & Hbud). cbn [invariant] in Hinv.
  destruct Hinv as (rs0 & n0 & i0 & k0 & Hrs0 & _ & _ & _ & _ & _ & Hidx0 & _ & _ & Hlt).
  assert (rs0 = rs) as -> by congruence.
  assert (i0 = i) as -> by (apply Nat2Z.inj; congruence).
  destruct (lookup_lt_is_Some_2 rs i Hlt) as [t Ht].
  unfold complete_population in Hcp. rewrite Forall_forall in Hcp.
  destruct (Hcp t (list_elem_of_lookup_2 _ _ _ Ht)) as (h & Hh & Hne & Hall).
  destruct (Hbud i t _ Ht (history_history_len _ _ _ Hh)) as [Hrange Hroom].
  destruct (history_last _ _ _ Hh Hne) as (th & l & d & x & Hth & Hl & Hd & Hx & Hlast).
  assert (complete x) as [[c Hc] _].
  { rewrite Forall_forall in Hall. apply Hall.
    rewrite last_lookup in Hlast. by eapply list_elem_of_lookup_2. }
  specialize (Hroom (le_n i)).
  exists rs, i, t, h, r, q. split_and!; try done; try lia.
  - by destruct Hconf as (? & _ & _ & _ & _ & _ & ? & _).
  - exists th, x, c. split_and!; try done.
    unfold get_info_for_revision_response, deref.
    rewrite Hrs, Hidx. ok_simpl. rewrite index_nonneg, Ht, Hq. ok_simpl.
    rewrite Hth. ok_simpl. rewrite Hl. ok_simpl. rewrite Hd. ok_simpl.
    rewrite Hx. ok_simpl. by rewrite Hc.
Qed.

Lemma revision_is_asked_below_the_budget_witness :
  ∃ rs (i : nat) t h r q,
    responses ScenarioStages.at_revision.2 = Some rs ∧
    index ScenarioStages.at_revision.2 = Some (Z.of_nat i) ∧
    rs !! i = Some t ∧ history ScenarioStages.at_revision.1.2 t = Ok h ∧
    revisions ScenarioStages.at_revision.2 = Some r ∧
    1 <= Z.of_nat (length h) <= r ∧ question ScenarioStages.at_revision.2 = Some q ∧
    ∃ th latest c,
      thread_objs ScenarioStages.at_revision.1.2 !! t = Some th ∧
      last h = Some latest ∧ comments latest = Some c ∧
      get_info_for_revision_response ScenarioStages.at_revision.1.2
        ScenarioStages.at_revision.2
      = Ok (q, agent_name th, text latest, c).
Proof.
  apply (revision_is_asked_below_the_budget ScenarioRun.py_float
           ScenarioStages.at_revision.1.2 ScenarioStages.at_revision.2).
  apply (scenario_started ScenarioStages.to_revision). vm_compute. reflexivity.
Defined.

(** The final summary of a started run reads chains that all have the same
    length and hold only commented and scored responses; it returns the
    model's reply as [final_response], changes nothing else, and the run
    ends. *)
Theorem summary_in_a_run_reads_complete_chains_of_one_length
    (py_float : string → option PyFloat) (reply : string) (s : Store) (state : GraphState) :
  started py_float (N_final_summary, s, state) →
  ∃ rs hs q (k : nat),
    question state = Some q ∧ responses state = Some rs ∧ chains s rs = Ok hs ∧
    Forall (λ h, length h = k ∧ h ≠ [] ∧ Forall complete h) hs ∧
    step py_float reply (N_final_summary, s, state)
    = Ok (N_END, s,
          merge state (mkState None None None None None None None None None None
                         None None (Some reply))).
Proof.
  intros (_ & [q Hq] & _ & Hfacts)%started_sound.
  node_facts_of Hfacts rs Hrs Hcp Hnf. destruct Hnf as [kz Hk].
  destruct (complete_population_chains _ _ Hcp) as [hs Hhs].
  exists rs, hs, q, (Z.to_nat kz). split_and!; try done.
  - apply mapM_Ok in Hhs. apply Forall_forall. intros h [j Hj]%list_elem_of_lookup_1.
    destruct (Forall2_lookup_r _ _ _ _ _ Hhs Hj) as (t & Ht & Hh).
    apply list_elem_of_lookup_2 in Ht.
    unfold complete_population in Hcp. rewrite Forall_forall in Hcp, Hk.
    destruct (Hcp t Ht) as (h' & Hh' & Hne & Hall).
    assert (h' = h) as -> by congruence. split_and!; try done.
    pose proof (history_len_of_history _ _ _ _ Hh (Hk t Ht)). lia.
  - unfold step. cbn [exec_node]. unfold create_final_summary_agent.
    rewrite Hq, Hrs. ok_simpl. rewrite Hhs. by ok_simpl.
Qed.

Lemma summary_in_a_run_reads_complete_chains_of_one_length_witness :
  ∃ rs hs q (k : nat),
    question ScenarioStages.at_summary.2 = Some q ∧
    responses ScenarioStages.at_summary.2 = Some rs ∧
    chains ScenarioStages.at_summary.1.2 rs = Ok hs ∧
    Forall (λ h, length h = k ∧ h ≠ [] ∧ Forall complete h) hs ∧
    step ScenarioRun.py_float "the answer"
      (N_final_summary, ScenarioStages.at_summary.1.2, ScenarioStages.at_summary.2)
    = Ok (N_END, ScenarioStages.at_summary.1.2,
          merge ScenarioStages.at_summary.2
            (mkState None None None None None None None None None None
               None None (Some "the answer"))).
Proof.
  apply (summary_in_a_run_reads_complete_chains_of_one_length ScenarioRun.py_float
           "the answer" ScenarioStages.at_summary.1.2 ScenarioStages.at_summary.2).
  apply (scenario_started ScenarioStages.to_summary). vm_compute. reflexivity.
Defined.

(** What a node does to the histories of the population it is given. *)
Lemma exec_keeps_histories py_float reply n s state s1 upd rs t h :
  sound (n, s, state) → exec_node py_float n s state reply = Ok (s1, upd) →
  responses state = Some rs → t ∈ rs → history s t = Ok h →
  ∃ h', history s1 t = Ok h' ∧
        (h' = h ∨ ∃ r, h' = h ++ [r] ∧ n = N_revised_response_handler ∧ complete r).
Proof.
  intros (Hinv & Hq & Hcl & Hfacts) Hexec Hrs Ht Hh.
  assert (extends s s1 → ∃ h', history s1 t = Ok h' ∧
            (h' = h ∨ ∃ r, h' = h ++ [r] ∧ n = N_revised_response_handler
                           ∧ complete r)) as Hext.
  { intros He. exists h. split; [by eapply history_extends|by left]. }
  destruct n; cbn [exec_node] in Hexec.
  - injection Hexec as <- <-. apply Hext, extends_refl.
  - ok_bind Hexec as x Hx. injection Hexec as <- <-.
    apply Hext, extends_same_shape_dicts.
  - ok_bind Hexec as x Hx. injection Hexec as <- <-.
    apply Hext, extends_same_shape_dicts.
  - ok_bind Hexec as u Hu. injection Hexec as <- <-. apply Hext, extends_refl.
  - node_facts_of Hfacts rs' Hrs' Hcp Hnf. destruct Hnf as [Hpend _].
    apply create_commenter_agent_Ok in Hexec as (q & a & r & c & _ & Ha & _ & -> & ->).
    destruct (pending_new_is _ _ _ _ Hpend Ha) as (_ & _ & _ & Hfresh).
    exists h. split; [by apply history_set_dict|by left].
  - node_facts_of Hfacts rs' Hrs' Hcp Hnf. destruct Hnf as [Hpend _].
    apply create_scorer_agent_Ok in Hexec
      as (q & a & r & c & x & _ & Ha & _ & _ & -> & ->).
    destruct (pending_new_is _ _ _ _ Hpend Ha) as (_ & _ & _ & Hfresh).
    exists h. split; [by apply history_set_dict|by left].
  - ok_bind Hexec as u Hu. injection Hexec as <- <-. apply Hext, extends_refl.
  - ok_bind Hexec as u Hu. injection Hexec as <- <-. apply Hext, extends_refl.
  - destruct (beam_search_agent_Ok _ _ _ _ Hexec)
      as (? & ? & ? & ? & ? & _ & _ & _ & _ & _ & Hc & _).
    apply Hext. by eapply copies_extends.
  - apply initial_response_handler_Ok in Hexec
      as (a & name & rs' & next & _ & _ & _ & _ & -> & _).
    apply Hext. repeat split; simpl; [done|by apply prefix_app_r..].
  - node_facts_of Hfacts rs' Hrs' Hcp Hnf.
    destruct Hnf as [(i & Hidx & _) (a' & ra & Ha' & Hra & Hcomp)].
    cbn [invariant] in Hinv.
    destruct Hinv as (rs0 & _ & _ & _ & Hrs0 & _ & _ & _ & _ & _ & _ & _
                      & (cs & Hcs & Hnd) & _).
    apply revised_response_handler_Ok in Hexec
      as (a & iz & rs1 & u & th & l & Ha & Hiz & Hrs1 & Hu & Hth & Hl & -> & _).
    assert (a' = a) as -> by congruence. assert (rs0 = rs) as -> by congruence.
    assert (rs1 = rs) as -> by congruence.
    assert (iz = Z.of_nat i) as -> by congruence.
    rewrite index_nonneg in Hu. apply or_raise_Ok in Hu.
    apply list_elem_of_lookup_1 in Ht as [j Hj].
    exists (if decide (j = i) then h ++ [ra] else h). split.
    { by apply (append_history s rs cs i u th l a ra j t h). }
    destruct (decide (j = i)); [right; by exists ra|by left].
  - injection Hexec as <- <-. apply Hext, extends_refl.
Qed.

(** No step of a started run rewrites or removes an entry of a thread of the
    population: after the step the thread has the history it had, except
    that [revised_response_handler] may have appended one commented and
    scored response to it. *)
Theorem step_keeps_the_histories_of_the_population
    (py_float : string → option PyFloat) (reply : string)
    (n n' : Node) (s s' : Store) (state state' : GraphState)
    (rs : list ref) (t : ref) (h : list AgentResponse) :
  started py_float (n, s, state) →
  step py_float reply (n, s, state) = Ok (n', s', state') →
  responses state = Some rs → t ∈ rs → history s t = Ok h →
  ∃ h', history s' t = Ok h' ∧
        (h' = h ∨ ∃ r, h' = h ++ [r] ∧ n = N_revised_response_handler ∧ complete r).
Proof.
  intros Hs%started_sound (s1 & upd & n1 & Hexec & _ & [= -> -> ->])%step_Ok.
  by eapply exec_keeps_histories.
Qed.

Lemma step_keeps_the_histories_of_the_population_witness :
  ∃ h', history ScenarioStages.after_append.1.2 3%nat = Ok h' ∧
        (h' = [ScenarioStages.first_answer] ∨
         ∃ r, h' = [ScenarioStages.first_answer] ++ [r] ∧
              N_revised_response_handler = N_revised_response_handler ∧ complete r).
Proof.
  apply (step_keeps_the_histories_of_the_population ScenarioRun.py_float ""
           N_revised_response_handler ScenarioStages.after_append.1.1
           ScenarioStages.at_append.1.2 ScenarioStages.after_append.1.2
           ScenarioStages.at_append.2 ScenarioStages.after_append.2
           [3; 4; 5]%nat 3%nat [ScenarioStages.first_answer]).
  - apply (scenario_started ScenarioStages.to_append). vm_compute. reflexivity.
  - vm_compute. reflexivity.
  - reflexivity.
  - apply list_elem_of_here.
  - vm_compute. reflexivity.
Defined.

(** * The generation subgraph *)

Lemma by_sender_node_of st :
  Gen.by_sender st
  = match Gen.node_of (Gen.sender st) with
    | Some n => Gen.Returns n
    | None => Gen.Raises Gen.KeyError
    end.
Proof.
  unfold Gen.by_sender, Gen.node_of. cbn [Gen.branch].
  repeat case_bool_decide; congruence.
Qed.

Lemma node_of_agent_of b name n :
  Gen.node_of name = Some n → ∃ a, Gen.agent_of b n = Some (a, name).
Proof.
  unfold Gen.node_of. repeat case_bool_decide; intros [= <-]; subst; by eexists.
Qed.

Lemma agent_of_node_of b n a name :
  Gen.agent_of b n = Some (a, name) → Gen.node_of name = Some n ∧ name ≠ "Summary".
Proof. destruct n; intros [= <- <-]; by split. Qed.

(** An agent node appends the renamed result and names itself as sender. *)
Lemma exec_agent b n a name st :
  Gen.agent_of b n = Some (a, name) →
  Gen.merge st (Gen.exec_node b n st)
  = Gen.mkAgentState (Gen.messages st ++ [Gen.renamed (a (Gen.messages st)) name])
      name (Gen.final_answer st).
Proof. destruct n; intros [= <- <-]; reflexivity. Qed.

Lemma router_tools_snoc ms m sender answer :
  Gen.router_tools (Gen.mkAgentState (ms ++ [m]) sender answer)
  = match Gen.tool_calls m with
    | Gen.Raises e => Gen.Raises e
    | Gen.Returns [] => Gen.Returns "__end__"
    | Gen.Returns (_ :: _) => Gen.Returns "call_tool"
    end.
Proof. unfold Gen.router_tools. cbn [Gen.messages]. by rewrite last_snoc. Qed.

(** A step from an agent node. *)
Lemma step_agent b n a name st :
  Gen.agent_of b n = Some (a, name) →
  let m := Gen.renamed (a (Gen.messages st)) name in
  let st' := Gen.mkAgentState (Gen.messages st ++ [m]) name (Gen.final_answer st) in
  Gen.step b (n, st)
  = match Gen.tool_calls m with
    | Gen.Raises e => Gen.Raises e
    | Gen.Returns [] => Gen.Returns (Gen.Summary, st')
    | Gen.Returns (_ :: _) => Gen.Returns (Gen.call_tool, st')
    end.
Proof.
  intros Hn m st'. unfold Gen.step. rewrite (exec_agent b n a name st Hn).
  fold m. fold st'.
  assert (Gen.next_node n st'
          = match Gen.router_tools st' with
            | Gen.Raises e => Gen.Raises e
            | Gen.Returns l =>
                Gen.branch [("call_tool", Gen.call_tool); ("__end__", Gen.Summary)] l
            end) as -> by (by destruct n).
  unfold st'. rewrite router_tools_snoc.
  destruct (Gen.tool_calls m) as [[|c calls]|e]; reflexivity.
Qed.

Lemma step_call_tool b st :
  Gen.step b (Gen.call_tool, st)
  = match Gen.node_of (Gen.sender st) with
    | Some n =>
        Gen.Returns (n, Gen.mkAgentState
                          (Gen.messages st ++ Gen.tool_node b (Gen.messages st))
                          (Gen.sender st) (Gen.final_answer st))
    | None => Gen.Raises Gen.KeyError
    end.
Proof.
  unfold Gen.step. cbn [Gen.exec_node Gen.next_node]. rewrite by_sender_node_of.
  unfold Gen.merge. cbn. by destruct (Gen.node_of (Gen.sender st)).
Qed.

Lemma step_Summary b st :
  Gen.step b (Gen.Summary, st)
  = Gen.Returns (Gen.END,
      Gen.mkAgentState (Gen.messages st) (Gen.sender st)
        (Some (Gen.content (Gen.summary b (Gen.messages st))))).
Proof. unfold Gen.step, Gen.merge. cbn. by rewrite app_nil_r. Qed.

Lemma step_END b st : Gen.step b (Gen.END, st) = Gen.Returns (Gen.END, st).
Proof. unfold Gen.step, Gen.merge. cbn. rewrite app_nil_r. by destruct st. Qed.

Lemma run_steps b fuel c out :
  Gen.run b fuel c = Gen.Returns (Some out) →
  ∃ k, Gen.steps b k c = Gen.Returns (Gen.END, out).
Proof.
  revert c. induction fuel as [|fuel IH]; intros [n st] H.
  - exists 0%nat. destruct n; simpl in H; try done. by injection H as <-.
  - destruct n; try (cbn [Gen.run fst] in H;
      destruct (Gen.step b _) as [c'|e] eqn:Hstep; [|done];
      destruct (IH _ H) as [k Hk]; exists (S k); cbn [Gen.steps];
      by rewrite Hstep).
    exists 0%nat. simpl in H. by injection H as <-.
Qed.

Section GenInvariant.
Variable b : Gen.Backends.
Variable n0 : Gen.Node.
Variable st0 : Gen.AgentState.
Hypothesis entered : Gen.node_of (Gen.sender st0) = Some n0.

Local Abbreviation one_agent := (Gen.one_agent b n0 st0).

Lemma one_agent_step c :
  one_agent c →
  match Gen.step b c with
  | Gen.Returns c' => one_agent c'
  | Gen.Raises e => e = Gen.AttributeError
  end.
Proof.
  destruct c as [n st]. unfold Gen.one_agent.
  intros (Hs & Hn & Hp & Hend & Hans). cbn [fst snd] in *.
  destruct (node_of_agent_of b _ _ entered) as [a Ha].
  destruct (agent_of_node_of _ _ _ _ Ha) as [_ Hname].
  destruct Hn as [-> | [-> | [-> | ->]]].
  - rewrite (step_agent b n0 a _ st Ha). cbv zeta.
    destruct (Gen.tool_calls _) as [[|c calls]|e] eqn:Hcalls.
    + split_and!; cbn [fst snd Gen.sender Gen.messages Gen.final_answer]; try done.
      * by right; right; left.
      * by apply prefix_app_r.
      * intros _. apply Hans. intros ->. by rewrite <- Hs in entered.
    + split_and!; cbn [fst snd Gen.sender Gen.messages Gen.final_answer]; try done.
      * by right; left.
      * by apply prefix_app_r.
      * intros _. apply Hans. intros ->. by rewrite <- Hs in entered.
    + destruct (Gen.renamed _ _); simpl in Hcalls; congruence.
  - rewrite step_call_tool, Hs, entered.
    split_and!; cbn [fst snd Gen.sender Gen.messages Gen.final_answer]; try done.
    + by left.
    + by apply prefix_app_r.
    + intros ->. by rewrite Hend.
    + intros _. by apply Hans.
  - rewrite step_Summary.
    split_and!; cbn [fst snd Gen.sender Gen.messages Gen.final_answer]; try done.
    by right; right; right.
  - rewrite step_END. split_and!; cbn [fst snd]; try done. by right; right; right.
Qed.

Lemma one_agent_start : one_agent (n0, st0).
Proof.
  unfold Gen.one_agent. split_and!; cbn [fst snd]; try done; [by left|].
  intros ->. unfold Gen.node_of in entered. repeat case_bool_decide; done.
Qed.

Lemma one_agent_steps k c :
  one_agent c →
  match Gen.steps b k c with
  | Gen.Returns c' => one_agent c'
  | Gen.Raises e => e = Gen.AttributeError
  end.
Proof.
  revert c. induction k as [|k IH]; intros c Hc; cbn [Gen.steps]; [done|].
  pose proof (one_agent_step c Hc) as Hstep.
  destruct (Gen.step b c) as [c'|e]; [by apply IH|done].
Qed.

Lemma one_agent_run fuel c :
  one_agent c →
  match Gen.run b fuel c with
  | Gen.Returns (Some out) => one_agent (Gen.END, out)
  | Gen.Returns None => True
  | Gen.Raises e => e = Gen.AttributeError
  end.
Proof.
  revert c. induction fuel as [|fuel IH]; intros [n st] Hc.
  - destruct n; simpl; done.
  - destruct n; try (cbn [Gen.run fst];
      pose proof (one_agent_step _ Hc) as Hstep;
      destruct (Gen.step b _) as [c'|e]; [by apply IH|done]).
    simpl. done.
Qed.

End GenInvariant.

(** ** One call of the subgraph *)

(** With an agent name other than GPT, Claude and Mistral the subgraph
    raises [KeyError] at its entry, for the initial and for the revision
    chain, whatever the backends are. *)
Theorem subgraph_rejects_an_unknown_agent (b : Gen.Backends) (fuel : nat)
    (message question agent previous_response comments : string) :
  agent ≠ "GPT" → agent ≠ "Claude" → agent ≠ "Mistral" →
  Gen.invoke b fuel (Gen.enter_chain (message, agent)) = Gen.Raises Gen.KeyError ∧
  Gen.invoke b fuel
    (Gen.enter_chain_revision (question, agent, previous_response, comments))
  = Gen.Raises Gen.KeyError.
Proof.
  intros H1 H2 H3.
  assert (Gen.node_of agent = None) as Hnone.
  { unfold Gen.node_of. by rewrite !bool_decide_eq_false_2. }
  split; unfold Gen.invoke; rewrite by_sender_node_of; cbn [Gen.enter_chain
    Gen.enter_chain_revision Gen.sender]; by rewrite Hnone.
Qed.

Lemma subgraph_rejects_an_unknown_agent_witness :
  Gen.invoke Gen.Scenario.backends 5 (Gen.enter_chain ("2+2?", "Llama"))
  = Gen.Raises Gen.KeyError ∧
  Gen.invoke Gen.Scenario.backends 5
    (Gen.enter_chain_revision ("2+2?", "Llama", "5", "wrong"))
  = Gen.Raises Gen.KeyError.
Proof.
  apply (subgraph_rejects_an_unknown_agent Gen.Scenario.backends 5 "2+2?" "2+2?"
           "Llama" "5" "wrong"); done.
Defined.

(** The tool loop never crosses agents: in a call entered for one agent,
    after any number of node runs the sender is still this agent, the only
    agent node that has run or will run next is its node, and the trace is
    the trace of the entry with messages appended. *)
Theorem tool_loop_stays_with_the_calling_agent (b : Gen.Backends)
    (n0 n : Gen.Node) (st0 st : Gen.AgentState) (k : nat) :
  Gen.node_of (Gen.sender st0) = Some n0 →
  Gen.steps b k (n0, st0) = Gen.Returns (n, st) →
  Gen.sender st = Gen.sender st0 ∧
  (n = n0 ∨ n = Gen.call_tool ∨ n = Gen.Summary ∨ n = Gen.END) ∧
  Gen.messages st0 `prefix_of` Gen.messages st.
Proof.
  intros Hentry Hsteps.
  pose proof (one_agent_steps b n0 st0 Hentry k _ (one_agent_start b n0 st0 Hentry))
    as Hinv.
  rewrite Hsteps in Hinv. by destruct Hinv as (? & ? & ? & _).
Qed.

Lemma tool_loop_stays_with_the_calling_agent_witness :
  Gen.sender Gen.Scenario.after_tools = Gen.sender (Gen.enter_chain ("2+2?", "Claude")) ∧
  (Gen.Claude = Gen.Claude ∨ Gen.Claude = Gen.call_tool ∨ Gen.Claude = Gen.Summary
   ∨ Gen.Claude = Gen.END) ∧
  Gen.messages (Gen.enter_chain ("2+2?", "Claude"))
  `prefix_of` Gen.messages Gen.Scenario.after_tools.
Proof.
  apply (tool_loop_stays_with_the_calling_agent Gen.Scenario.backends
           Gen.Claude Gen.Claude (Gen.enter_chain ("2+2?", "Claude"))
           Gen.Scenario.after_tools 2); reflexivity.
Defined.

Lemma invoke_one_agent b fuel n0 st0 :
  Gen.node_of (Gen.sender st0) = Some n0 →
  match Gen.invoke b fuel st0 with
  | Gen.Returns (Some out) => Gen.one_agent b n0 st0 (Gen.END, out)
  | Gen.Returns None => True
  | Gen.Raises e => e = Gen.AttributeError
  end.
Proof.
  intros Hentry. unfold Gen.invoke. rewrite by_sender_node_of, Hentry.
  apply one_agent_run; [done|]. by apply one_agent_start.
Qed.

(** Whenever a call of the subgraph returns, [final_answer] is set, to the
    content of the summary agent's reply to the whole trace; the sender is
    the agent of the entry and the trace extends the trace of the entry.  A
    call raises only [AttributeError] (when an agent's result is a
    [ToolMessage], which has no [tool_calls]). *)
Theorem subgraph_returns_the_summary_of_its_trace (b : Gen.Backends) (fuel : nat)
    (n0 : Gen.Node) (st0 : Gen.AgentState) :
  Gen.node_of (Gen.sender st0) = Some n0 →
  (∀ out, Gen.invoke b fuel st0 = Gen.Returns (Some out) →
     Gen.final_answer out = Some (Gen.content (Gen.summary b (Gen.messages out))) ∧
     Gen.sender out = Gen.sender st0 ∧
     Gen.messages st0 `prefix_of` Gen.messages out) ∧
  (∀ e, Gen.invoke b fuel st0 = Gen.Raises e → e = Gen.AttributeError).
Proof.
  intros Hentry. pose proof (invoke_one_agent b fuel n0 st0 Hentry) as Hinv. split.
  - intros out Hout. rewrite Hout in Hinv.
    destruct Hinv as (? & _ & ? & Hend & _). split_and!; try done. by apply Hend.
  - intros e He. by rewrite He in Hinv.
Qed.

Lemma subgraph_returns_the_summary_of_its_trace_witness :
  (∀ out, Gen.invoke Gen.Scenario.backends 5 (Gen.enter_chain ("2+2?", "Mistral"))
          = Gen.Returns (Some out) →
     Gen.final_answer out
     = Some (Gen.content (Gen.summary Gen.Scenario.backends (Gen.messages out))) ∧
     Gen.sender out = Gen.sender (Gen.enter_chain ("2+2?", "Mistral")) ∧
     Gen.messages (Gen.enter_chain ("2+2?", "Mistral")) `prefix_of` Gen.messages out) ∧
  (∀ e, Gen.invoke Gen.Scenario.backends 5 (Gen.enter_chain ("2+2?", "Mistral"))
        = Gen.Raises e → e = Gen.AttributeError).
Proof.
  apply (subgraph_returns_the_summary_of_its_trace Gen.Scenario.backends 5
           Gen.Mistral (Gen.enter_chain ("2+2?", "Mistral"))).
  reflexivity.
Defined.

(** The scripted call does return: one tool round trip, then the answer. *)
Example scenario_subgraph_call :
  Gen.invoke Gen.Scenario.backends 5 (Gen.enter_chain ("2+2?", "Mistral"))
  = Gen.Returns (Some (Gen.mkAgentState
      [Gen.HumanMessage "2+2?";
       Gen.AIMessage "let me look it up" [Gen.Scenario.search] (Some "Mistral");
       Gen.ToolMessage "result";
       Gen.AIMessage "the answer is 4" [] (Some "Mistral")]
      "Mistral" (Some "In short: 4"))).
Proof. reflexivity. Qed.

(** An agent that answers the question without asking for a tool ends the
    call after two model calls: its reply, renamed after the agent, is the
    only message added to the trace, and the final answer is the summary of
    this trace.  Two node runs are enough. *)
Theorem answer_without_tool_calls_is_summarised_at_once (b : Gen.Backends)
    (fuel : nat) (n : Gen.Node) (a : Gen.Agent) (agent message c : string)
    (nm : option string) :
  Gen.agent_of b n = Some (a, agent) →
  a [Gen.HumanMessage message] = Gen.AIMessage c [] nm →
  Gen.invoke b (S (S fuel)) (Gen.enter_chain (message, agent))
  = Gen.Returns (Some (Gen.mkAgentState
      [Gen.HumanMessage message; Gen.AIMessage c [] (Some agent)] agent
      (Some (Gen.content (Gen.summary b
         [Gen.HumanMessage message; Gen.AIMessage c [] (Some agent)]))))).
Proof.
  intros Ha Hreply. destruct (agent_of_node_of _ _ _ _ Ha) as [Hn _].
  unfold Gen.invoke. rewrite by_sender_node_of. cbn [Gen.enter_chain Gen.sender].
  rewrite Hn.
  assert (n ≠ Gen.END) as Hne by (by destruct n).
  assert (∀ f st, Gen.run b (S f) (n, st)
          = match Gen.step b (n, st) with
            | Gen.Raises e => Gen.Raises e
            | Gen.Returns c' => Gen.run b f c'
            end) as Hrun by (by destruct n).
  rewrite Hrun, (step_agent b n a agent _ Ha). cbv zeta.
  cbn [Gen.messages Gen.final_answer]. rewrite Hreply.
  cbn [Gen.renamed Gen.tool_calls Gen.run fst app]. rewrite step_Summary.
  by destruct fuel.
Qed.

Lemma answer_without_tool_calls_is_summarised_at_once_witness :
  Gen.invoke Gen.Scenario.direct 2 (Gen.enter_chain ("2+2?", "GPT"))
  = Gen.Returns (Some (Gen.mkAgentState
      [Gen.HumanMessage "2+2?"; Gen.AIMessage "4" [] (Some "GPT")] "GPT"
      (Some (Gen.content (Gen.summary Gen.Scenario.direct
         [Gen.HumanMessage "2+2?"; Gen.AIMessage "4" [] (Some "GPT")]))))).
Proof.
  apply (answer_without_tool_calls_is_summarised_at_once Gen.Scenario.direct 0
           Gen.GPT (Gen.gpt Gen.Scenario.direct) "GPT" "2+2?" "4" None); reflexivity.
Defined.

(** A reply that asks for tools is answered to the agent that asked: two
    node runs after the agent's node, the same node is about to run again,
    on the trace extended by the agent's message and the messages of the
    tool node, whoever the sender was before. *)
Theorem tool_calls_are_answered_to_the_agent_that_asked (b : Gen.Backends)
    (n : Gen.Node) (a : Gen.Agent) (name c : string) (st : Gen.AgentState)
    (call : Gen.ToolCall) (calls : list Gen.ToolCall) (nm : option string) :
  Gen.agent_of b n = Some (a, name) →
  a (Gen.messages st) = Gen.AIMessage c (call :: calls) nm →
  let asked := Gen.messages st ++ [Gen.AIMessage c (call :: calls) (Some name)] in
  Gen.steps b 2 (n, st)
  = Gen.Returns (n, Gen.mkAgentState (asked ++ Gen.tool_node b asked) name
                      (Gen.final_answer st)).
Proof.
  intros Ha Hreply asked. destruct (agent_of_node_of _ _ _ _ Ha) as [Hn _].
  cbn [Gen.steps]. rewrite (step_agent b n a name _ Ha). cbv zeta.
  rewrite Hreply. cbn [Gen.renamed Gen.tool_calls]. rewrite step_call_tool.
  cbn [Gen.sender Gen.messages Gen.final_answer]. by rewrite Hn.
Qed.

Lemma tool_calls_are_answered_to_the_agent_that_asked_witness :
  let asked := Gen.messages (Gen.enter_chain ("2+2?", "Claude"))
               ++ [Gen.AIMessage "let me look it up" [Gen.Scenario.search]
                     (Some "Claude")] in
  Gen.steps Gen.Scenario.backends 2 (Gen.Claude, Gen.enter_chain ("2+2?", "Claude"))
  = Gen.Returns (Gen.Claude,
      Gen.mkAgentState (asked ++ Gen.tool_node Gen.Scenario.backends asked) "Claude"
        (Gen.final_answer (Gen.enter_chain ("2+2?", "Claude")))).
Proof.
  apply (tool_calls_are_answered_to_the_agent_that_asked Gen.Scenario.backends
           Gen.Claude (Gen.claude Gen.Scenario.backends) "Claude" "let me look it up"
           (Gen.enter_chain ("2+2?", "Claude")) Gen.Scenario.search [] None);
    reflexivity.
Defined.

(** ** The main graph calls the subgraph *)

Lemma named_population_prefix s s1 rs :
  thread_objs s `prefix_of` thread_objs s1 →
  named_population s rs → named_population s1 rs.
Proof.
  intros Hp Hn. eapply Forall_impl; [exact Hn|]. intros t (th & Hth & Hname).
  exists th. split; [|done]. by eapply prefix_lookup_Some.
Qed.

Lemma nth_agent_node i : is_Some (Gen.node_of (nth_agent i)).
Proof.
  unfold nth_agent. destruct (i mod 3)%nat as [|[|?]]; by eexists.
Qed.

Lemma named_step py_float reply c c' :
  sound c → named c → step py_float reply c = Ok c' → named c'.
Proof.
  destruct c as [[n s] state]. intros Hsound Hnamed Hstep.
  apply step_Ok in Hstep as (s1 & upd & n1 & Hexec & Hnext & ->).
  right. intros rs' Hrs'.
  assert (thread_objs s1 = thread_objs s → responses (merge state upd) = responses state
          → n ≠ N_ask_question → named_population s1 rs') as Hsame.
  { intros Ht Hr Hn. destruct Hnamed as [?|Hnamed]; [done|].
    apply (named_population_prefix s); [by rewrite Ht|]. apply Hnamed. congruence. }
  destruct n; cbn [exec_node] in Hexec.
  - injection Hexec as <- <-. simpl in Hrs'. injection Hrs' as <-. constructor.
  - ok_bind Hexec as x Hx. injection Hexec as <- <-. by apply Hsame.
  - ok_bind Hexec as x Hx. injection Hexec as <- <-. by apply Hsame.
  - ok_bind Hexec as u Hu. injection Hexec as <- <-.
    apply create_difficulty_agent_row in Hu.
    apply Hsame; [done| |done]. by destruct Hu as [-> | [-> | [-> | ->]]].
  - apply create_commenter_agent_Ok in Hexec as (? & ? & ? & ? & _ & _ & _ & -> & ->).
    by apply Hsame.
  - apply create_scorer_agent_Ok in Hexec
      as (? & ? & ? & ? & ? & _ & _ & _ & _ & -> & ->).
    by apply Hsame.
  - ok_bind Hexec as u Hu. injection Hexec as <- <-.
    unfold create_check_done_agent in Hu.
    ok_bind Hu as q Hq'. ok_bind Hu as rs0 Hrs0. ok_bind Hu as hs Hhs.
    injection Hu as <-. by apply Hsame.
  - ok_bind Hexec as u Hu. injection Hexec as <- <-.
    unfold create_final_summary_agent in Hu.
    ok_bind Hu as q Hq'. ok_bind Hu as rs0 Hrs0. ok_bind Hu as hs Hhs.
    injection Hu as <-. by apply Hsame.
  - destruct Hnamed as [?|Hnamed]; [done|].
    destruct Hsound as (_ & _ & _ & Hfacts). node_facts_of Hfacts rs Hrs Hcp Hnf.
    destruct (beam_search_agent_Ok _ _ _ _ Hexec)
      as (rs0 & sorted & b & n' & final & Hrs0 & Hsorted & _ & _ & _ & Hc & _ & ->).
    assert (rs0 = rs) as -> by congruence.
    simpl in Hrs'. injection Hrs' as <-.
    pose proof (sorted_responses_perm _ _ _ Hsorted) as Hperm.
    assert (∀ t, t ∈ replicated n' b (Py.slice_to sorted b) → t ∈ rs) as Hsub.
    { intros t Ht%replicated_elem. by rewrite <- Hperm. }
    unfold complete_population in Hcp. rewrite Forall_forall in Hcp.
    assert (Forall (λ t, is_ok (thread_value s t) = true)
              (replicated n' b (Py.slice_to sorted b))) as Hok.
    { apply Forall_forall. intros t Ht. destruct (Hcp t (Hsub t Ht)) as (h & Hh & _).
      by destruct (history_thread_value _ _ _ Hh) as (v & -> & _). }
    pose proof (copies_values _ _ _ _ Hc Hok) as Hvals.
    apply Forall_forall. intros c [i Hi]%list_elem_of_lookup_1.
    destruct (Forall2_lookup_r _ _ _ _ _ Hvals Hi) as (src & Hsrc & v & Hv1 & Hv2).
    apply thread_value_Ok in Hv1 as (th & l & h & Hth & _ & _ & ->).
    apply thread_value_Ok in Hv2 as (th' & l' & h' & Hth' & _ & _ & [= Hname _]).
    exists th'. split; [done|]. rewrite <- Hname.
    specialize (Hnamed rs Hrs). unfold named_population in Hnamed.
    rewrite Forall_forall in Hnamed.
    destruct (Hnamed src (Hsub src (list_elem_of_lookup_2 _ _ _ Hsrc)))
      as (th0 & Hth0 & Hn0).
    by assert (th0 = th) as -> by congruence.
  - destruct Hnamed as [?|Hnamed]; [done|].
    apply initial_response_handler_Ok in Hexec
      as (a & name & rs & next & _ & _ & Hrs & Hnextn & -> & ->).
    simpl in Hrs'. injection Hrs' as <-. apply Forall_app. split.
    + apply (named_population_prefix s); [by apply prefix_app_r|by apply Hnamed].
    + constructor; [|constructor]. eexists. split.
      * simpl. by apply list_lookup_middle.
      * simpl. apply agent_name_dict_Some in Hnextn
          as [[-> _]|[[-> _]|[-> _]]]; by eexists.
  - apply revised_response_handler_Ok in Hexec
      as (a & iz & rs & t & th & l & _ & _ & Hrs & _ & _ & _ & -> & ->).
    destruct Hnamed as [?|Hnamed]; [done|].
    simpl in Hrs'. injection Hrs' as <-. by apply Hnamed.
  - injection Hexec as <- <-. by apply Hsame.
Qed.

Lemma started_named py_float c : started py_float c → sound c ∧ named c.
Proof.
  intros (s0 & state0 & replies & Hcl & Hq & Hrun).
  assert (sound (N_ask_question, s0, state0)) as Hsound.
  { split_and!; try done. by left. }
  assert (named (N_ask_question, s0, state0)) as Hnamed by by left.
  revert Hsound Hnamed Hrun. generalize (N_ask_question, s0, state0).
  induction replies as [|r replies IH]; intros c0 Hsound Hnamed Hrun; simpl in Hrun.
  - by injection Hrun as <-.
  - ok_bind Hrun as c1 Hc1. eapply IH; [| |exact Hrun].
    + by eapply sound_step.
    + by eapply named_step.
Qed.

(** In a started run the initial generation always finds its backend: the
    agent handed to the subgraph by [get_info_for_initial_response] is GPT,
    Claude or Mistral, so the entry of the subgraph selects a node, and a
    call can only fail on a result without [tool_calls]. *)
Theorem initial_generation_finds_its_backend (py_float : string → option PyFloat)
    (s : Store) (state : GraphState) :
  started py_float (N_get_initial_response, s, state) →
  ∃ question agent n0,
    get_info_for_initial_response state = Ok (question, agent) ∧
    Gen.by_sender (Gen.enter_chain (question, agent)) = Gen.Returns n0 ∧
    ∀ b fuel e,
      Gen.invoke b fuel (Gen.enter_chain (question, agent)) = Gen.Raises e →
      e = Gen.AttributeError.
Proof.
  intros (_ & [q Hq] & _ & Hfacts)%started_sound.
  node_facts_of Hfacts rs Hrs Hcp Hnf. destruct Hnf as (_ & Hagent & _).
  destruct (nth_agent_node (length rs)) as [n0 Hn0].
  exists q, (nth_agent (length rs)), n0. split_and!.
  - unfold get_info_for_initial_response. by rewrite Hagent, Hq.
  - rewrite by_sender_node_of. cbn [Gen.enter_chain Gen.sender]. by rewrite Hn0.
  - intros b fuel e He.
    pose proof (invoke_one_agent b fuel n0
                  (Gen.enter_chain (q, nth_agent (length rs))) Hn0) as Hinv.
    by rewrite He in Hinv.
Qed.

Lemma initial_generation_finds_its_backend_witness :
  ∃ question agent n0,
    get_info_for_initial_response ScenarioStages.at_second_response.2
    = Ok (question, agent) ∧
    Gen.by_sender (Gen.enter_chain (question, agent)) = Gen.Returns n0 ∧
    ∀ b fuel e,
      Gen.invoke b fuel (Gen.enter_chain (question, agent)) = Gen.Raises e →
      e = Gen.AttributeError.
Proof.
  apply (initial_generation_finds_its_backend ScenarioRun.py_float
           ScenarioStages.at_second_response.1.2 ScenarioStages.at_second_response.2).
  apply (scenario_started ScenarioStages.to_second_response). vm_compute. reflexivity.
Defined.

(** In a started run a revision always finds its backend too: the thread
    under the cursor is named GPT, Claude or Mistral (the copies made by the
    selection keep the name of their source), so the entry of the revision
    subgraph selects the node of the agent that wrote the thread. *)
Theorem revision_finds_the_backend_of_the_thread (py_float : string → option PyFloat)
    (s : Store) (state : GraphState) :
  started py_float (N_get_revision_response, s, state) →
  ∃ question agent previous_response comments n0,
    get_info_for_revision_response s state
    = Ok (question, agent, previous_response, comments) ∧
    Gen.by_sender
      (Gen.enter_chain_revision (question, agent, previous_response, comments))
    = Gen.Returns n0 ∧
    Gen.node_of agent = Some n0 ∧
    ∀ b fuel e,
      Gen.invoke b fuel
        (Gen.enter_chain_revision (question, agent, previous_response, comments))
      = Gen.Raises e →
      e = Gen.AttributeError.
Proof.
  intros Hstarted. destruct (started_named _ _ Hstarted) as [Hsound Hnamed].
  destruct (progress_get_revision_response py_float "" _ _ Hsound) as [c' Hstep].
  apply step_Ok in Hstep as (s1 & upd & n1 & Hexec & _ & _). cbn [exec_node] in Hexec.
  ok_bind Hexec as info Hinfo. destruct info as [[[q agent] prev] com].
  pose proof Hinfo as Hinfo'. unfold get_info_for_revision_response in Hinfo'.
  ok_bind Hinfo' as rs Hrs. ok_bind Hinfo' as i Hi. ok_bind Hinfo' as t Ht.
  ok_bind Hinfo' as q' Hq'. ok_bind Hinfo' as th Hth. ok_bind Hinfo' as l Hl.
  ok_bind Hinfo' as d Hd. ok_bind Hinfo' as r Hr. ok_bind Hinfo' as c Hc.
  injection Hinfo' as <- <- <- <-.
  apply key_Ok in Hrs. apply deref_Ok in Hth.
  destruct Hnamed as [?|Hnamed]; [done|].
  specialize (Hnamed rs Hrs). unfold named_population in Hnamed.
  rewrite Forall_forall in Hnamed.
  destruct (index_Ok_lookup _ _ _ Ht) as [k Hk].
  destruct (Hnamed t (list_elem_of_lookup_2 _ _ _ Hk)) as (th' & Hth' & [n0 Hn0]).
  assert (th' = th) as -> by congruence.
  exists q', (agent_name th), (text r), c, n0. split_and!; try done.
  - rewrite by_sender_node_of. cbn [Gen.enter_chain_revision Gen.sender].
    by rewrite Hn0.
  - intros b fuel e He.
    pose proof (invoke_one_agent b fuel n0
                  (Gen.enter_chain_revision (q', agent_name th, text r, c)) Hn0)
      as Hinv.
    by rewrite He in Hinv.
Qed.

Lemma revision_finds_the_backend_of_the_thread_witness :
  ∃ question agent previous_response comments n0,
    get_info_for_revision_response ScenarioStages.at_revision.1.2
      ScenarioStages.at_revision.2
    = Ok (question, agent, previous_response, comments) ∧
    Gen.by_sender
      (Gen.enter_chain_revision (question, agent, previous_response, comments))
    = Gen.Returns n0 ∧
    Gen.node_of agent = Some n0 ∧
    ∀ b fuel e,
      Gen.invoke b fuel
        (Gen.enter_chain_revision (question, agent, previous_response, comments))
      = Gen.Raises e →
      e = Gen.AttributeError.
Proof.
  apply (revision_finds_the_backend_of_the_thread ScenarioRun.py_float
           ScenarioStages.at_revision.1.2 ScenarioStages.at_revision.2).
  apply (scenario_started ScenarioStages.to_revision). vm_compute. reflexivity.
Defined.
